(** * libhoney-js: the transmission core of dist/libhoney.es.js

    A shallow embedding of the batch aggregator, the validated event, the
    [Transmission] dispatcher and the response queue of [Libhoney], followed
    by the properties checked against them.

    Conventions of the embedding.
    - JavaScript numbers that carry measurements ([sampleRate], the value of
      the random source, JSON numbers) are IEEE-754 binary64 values
      ([PrimFloat.float]), and so is the option [batchSizeTrigger], which
      the constructor passes through [Math.max] and the dispatcher hands to
      [>=] and to [splice]: NaN, the infinities and fractions go through all
      three.  The other numbers that count things (queue lengths, the time,
      concurrency and capacity options, HTTP status codes, clock readings in
      milliseconds) are integers in [Z].
    - A JavaScript object used as a record of named properties is an
      association list in insertion order, which is the order [Object.keys]
      enumerates non-index keys in.
    - Events are held by value: every queue slot owns its event, and a
      function that assigns [ev.encodeError] returns the updated events.
    - A call of the response callback is recorded in a log; the callback
      itself is application code and is taken not to throw.
    - Platform services ([JSON.stringify], [URL], [String.prototype.trim])
      are the fields of the class [Platform]. *)

From Stdlib Require Import ZArith List String Ascii Bool Lia DecimalString.
From Stdlib Require Import Floats.PrimFloat Numbers.Cyclic.Int63.Uint63.
From Stdlib Require Import Floats.SpecFloat Floats.FloatOps Floats.FloatAxioms.
Import ListNotations.

Set Warnings "-register-all,-inexact-float".
Local Open Scope Z_scope.
Local Open Scope list_scope.

(* ------------------------------------------------------------------ *)
(** ** JavaScript values *)

(** An [Error] object with the properties the library reads or writes:
    [name], [message], [status] (assigned for a non-2xx response) and
    [timeout] (assigned [true] for an aborted request, absent otherwise). *)
Record JsError : Type := mkError {
  name : string;
  message : string;
  status : option Z;
  timeout : bool
}.

(** [new Error(reason)] *)
Definition newError (reason : string) : JsError :=
  mkError "Error" reason None false.

Inductive Value : Type :=
| VUndefined
| VNull
| VBool (b : bool)
| VNumber (x : float)
| VBigInt (n : Z)
| VString (s : string)
| VDate (t : float)
| VError (e : JsError)
| VArray (xs : list Value)
| VObject (props : list (string * Value)).

(** ToBoolean of a number: [0], [-0] and [NaN] are falsy. *)
Definition truthy_number (x : float) : bool :=
  negb (PrimFloat.is_zero x || PrimFloat.is_nan x).

(** ToBoolean, as the [if (x)] tests of the source apply it. *)
Definition truthy (v : Value) : bool :=
  match v with
  | VUndefined | VNull => false
  | VBool b => b
  | VNumber x => truthy_number x
  | VBigInt n => negb (n =? 0)
  | VString s => negb (String.eqb s "")
  | VDate _ | VError _ | VArray _ | VObject _ => true
  end.

(** The number with the value of an integer. *)
Definition number_of_Z (z : Z) : float :=
  if z <? 0 then PrimFloat.opp (PrimFloat.of_uint63 (Uint63.of_Z (- z)))
  else PrimFloat.of_uint63 (Uint63.of_Z z).

(** [Math.max(x, y)]: NaN when an argument is NaN, and [+0] above
    [-0]. *)
Definition Math_max (x y : float) : float :=
  if PrimFloat.is_nan x || PrimFloat.is_nan y then PrimFloat.nan
  else if PrimFloat.ltb x y then y
  else if PrimFloat.ltb y x then x
  else if PrimFloat.get_sign x then y else x.

(** The result of the abstract operation ToIntegerOrInfinity. *)
Inductive IntegerOrInfinity : Type :=
| Integer (z : Z)
| PlusInfinity
| MinusInfinity.

(** ToIntegerOrInfinity: 0 for NaN and the zeros, an infinity for itself,
    and a finite number truncated towards zero, read off the sign, mantissa
    and exponent of the number. *)
Definition ToIntegerOrInfinity (x : float) : IntegerOrInfinity :=
  match Prim2SF x with
  | S754_nan | S754_zero _ => Integer 0
  | S754_infinity false => PlusInfinity
  | S754_infinity true => MinusInfinity
  | S754_finite s m e =>
      let mantissa := if s then Z.neg m else Z.pos m in
      Integer (if 0 <=? e then mantissa * 2 ^ e
               else Z.quot mantissa (2 ^ (- e)))
  end.

(** [n >= x] for an integer [n] that converts to a number exactly, as the
    length of an array does: the comparison of the two values, false when
    [x] is NaN. *)
Definition geb_number (n : Z) (x : float) : bool :=
  match Prim2SF x with
  | S754_nan => false
  | S754_infinity s => s
  | S754_zero _ => 0 <=? n
  | S754_finite s m e =>
      let mantissa := if s then Z.neg m else Z.pos m in
      if 0 <=? e then mantissa * 2 ^ e <=? n else mantissa <=? n * 2 ^ (- e)
  end.

(** The number of elements [arr.splice(0, deleteCount)] removes from an
    array of [len] elements: ToIntegerOrInfinity of [deleteCount], clamped
    between 0 and [len]. *)
Definition actualDeleteCount (deleteCount : float) (len : nat) : nat :=
  match ToIntegerOrInfinity deleteCount with
  | Integer z => Z.to_nat (Z.min (Z.max z 0) (Z.of_nat len))
  | PlusInfinity => len
  | MinusInfinity => 0%nat
  end.

(** Own-property lookup in an object held as an association list. *)
Fixpoint lookup {A : Type} (k : string) (o : list (string * A)) : option A :=
  match o with
  | [] => None
  | (k', v) :: o' => if String.eqb k k' then Some v else lookup k o'
  end.

(** An optional number read as a value: absent is [undefined]. *)
Definition value_of_number (n : option float) : Value :=
  match n with
  | Some x => VNumber x
  | None => VUndefined
  end.

(** Outcome of an operation that may throw. *)
Inductive Completion (A : Type) : Type :=
| Normal (a : A)
| Throw (e : JsError).
Arguments Normal {A} a.
Arguments Throw {A} e.

(** Decimal text of an array index, the property key [arr[i]] reads. *)
Definition index_key (i : nat) : string :=
  NilEmpty.string_of_uint (Nat.to_uint i).

(** [${v}] for an optional integer. *)
Definition template_of_status (s : option Z) : string :=
  match s with
  | None => "undefined"
  | Some z => NilZero.string_of_int (Z.to_int z)
  end.

(** The [TypeError] raised by reading a property of [undefined] or [null]. *)
Definition propertyTypeError (k : string) : JsError :=
  mkError "TypeError"
    ("Cannot read properties of undefined (reading '" ++ k ++ "')") None false.

(** [v[i]] for an integer index. *)
Definition getIndex (v : Value) (i : nat) : Completion Value :=
  match v with
  | VUndefined | VNull => Throw (propertyTypeError (index_key i))
  | VArray xs => Normal (nth i xs VUndefined)
  | VObject props =>
      Normal (match lookup (index_key i) props with
              | Some x => x
              | None => VUndefined
              end)
  | VString s =>
      Normal (match String.get i s with
              | Some c => VString (String c EmptyString)
              | None => VUndefined
              end)
  | VBool _ | VNumber _ | VBigInt _ | VDate _ | VError _ => Normal VUndefined
  end.

(** [v.k] for the property names [status] and [err] read from a response
    element. *)
Definition getProp (v : Value) (k : string) : Completion Value :=
  match v with
  | VUndefined | VNull => Throw (propertyTypeError k)
  | VObject props =>
      Normal (match lookup k props with
              | Some x => x
              | None => VUndefined
              end)
  | VError e =>
      Normal (if String.eqb k "status"
              then match status e with
                   | Some z => VNumber (number_of_Z z)
                   | None => VUndefined
                   end
              else VUndefined)
  | VBool _ | VNumber _ | VBigInt _ | VString _ | VDate _ | VArray _ =>
      Normal VUndefined
  end.

(* ------------------------------------------------------------------ *)
(** ** ValidatedEvent *)

Record ValidatedEvent : Type := mkEvent {
  timestamp : Value;
  apiHost : string;
  postData : Value;
  writeKey : string;
  dataset : string;
  sampleRate : option float;
  metadata : Value;
  encodeError : option JsError
}.

(** [ev.encodeError = e] *)
Definition set_encodeError (ev : ValidatedEvent) (e : JsError) : ValidatedEvent :=
  mkEvent (timestamp ev) (apiHost ev) (postData ev) (writeKey ev) (dataset ev)
          (sampleRate ev) (metadata ev) (Some e).

(** [ev.encodeError] read as a value. *)
Definition encodeError_value (ev : ValidatedEvent) : Value :=
  match encodeError ev with
  | Some e => VError e
  | None => VUndefined
  end.

(** [ValidatedEvent.toJSON]: the object that [JSON.stringify(ev)]
    serializes. *)
Definition toJSON (ev : ValidatedEvent) : list (string * Value) :=
  let json := [] in
  let json := if truthy (timestamp ev)
              then json ++ [("time"%string, timestamp ev)] else json in
  let json := if truthy (value_of_number (sampleRate ev))
              then json ++ [("samplerate"%string, value_of_number (sampleRate ev))]
              else json in
  let json := if truthy (postData ev)
              then json ++ [("data"%string, postData ev)] else json in
  json.

(* ------------------------------------------------------------------ *)
(** ** The response queue of Libhoney *)

(** [arr.slice(0, end)]: a negative [end] counts from the end of the
    array. *)
Definition slice0 {A : Type} (arr : list A) (end_ : Z) : list A :=
  if end_ <? 0
  then firstn (Z.to_nat (Z.max (Z.of_nat (List.length arr) + end_) 0)) arr
  else firstn (Z.to_nat end_) arr.

Definition concatWithMaxLimit {A : Type} (arr1 arr2 : list A) (limit : Z) : list A :=
  if Z.of_nat (List.length arr1) >=? limit then
    slice0 arr1 limit
  else if Z.of_nat (List.length arr1) + Z.of_nat (List.length arr2) >? limit then
    let diff := limit - Z.of_nat (List.length arr1) in
    let slicedArr2 := slice0 arr2 diff in
    arr1 ++ slicedArr2
  else
    arr1 ++ arr2.

Module Libhoney.

(** The part of a [Libhoney] instance the default response handler
    touches, with the arguments of its [emit("response", ...)] calls. *)
Record t (A : Type) : Type := mk {
  maxResponseQueueSize : Z;
  _responseQueue : list A;
  emitted : list (list A)
}.
Arguments mk {A}.
Arguments maxResponseQueueSize {A}.
Arguments _responseQueue {A}.
Arguments emitted {A}.

(** The instance the constructor leaves: an empty response queue. *)
Definition init {A : Type} (limit : Z) : t A := mk limit [] [].

Definition _responseCallback {A : Type} (this : t A) (responses : list A) : t A :=
  let queue := _responseQueue this in
  let limit := maxResponseQueueSize this in
  let queue' := concatWithMaxLimit queue responses limit in
  mk limit queue' (emitted this ++ [queue']).

End Libhoney.

(* ------------------------------------------------------------------ *)
(** ** Platform services *)

(** What the library calls but does not define: the built-ins of the
    runtime it is loaded in, be that a server or a browser. *)
Class Platform : Type := {
  (** [JSON.stringify] of an object: its text, or what it throws *)
  JSON_stringify : Value -> Completion string;
  (** [new URL(path, base).href] *)
  URL_href : string -> string -> Completion string;
  (** [String.prototype.trim] *)
  trim : string -> string
}.

Definition USER_AGENT : string := "libhoney-js/3.1.1".

(** how many events to collect in a batch *)
Definition batchSizeTrigger : float := 50%float.
Definition batchTimeTrigger : Z := 100.
(** how many batches to maintain in parallel *)
Definition maxConcurrentBatches : Z := 10.
(** how many events to queue up for busy batches before we start dropping *)
Definition pendingWorkCapacity : Z := 10000.
(** how long (in ms) to give a single POST before we timeout *)
Definition deadlineTimeoutMs : Z := 60000.

(* ------------------------------------------------------------------ *)
(** ** partition and the batch aggregator *)

(** [o[k] = f(o[k])] for a key the object has. *)
Fixpoint update {A : Type} (k : string) (f : A -> A) (o : list (string * A))
  : list (string * A) :=
  match o with
  | [] => []
  | (k', v) :: o' =>
      if String.eqb k k' then (k', f v) :: o' else (k', v) :: update k f o'
  end.

Definition partition {V B : Type} (arr : list V) (keyfn : V -> string)
    (createfn : V -> B) (addfn : B -> V -> B) : list (string * B) :=
  fold_left
    (fun result v =>
       let key := keyfn v in
       match lookup key result with
       | None => result ++ [(key, createfn v)]
       | Some _ => update key (fun b => addfn b v) result
       end)
    arr [].

Module Batch.
Record t : Type := mk {
  apiHost : string;
  writeKey : string;
  dataset : string;
  events : list ValidatedEvent
}.
(** [batch.events.push(ev)] *)
Definition push (batch : t) (ev : ValidatedEvent) : t :=
  mk (apiHost batch) (writeKey batch) (dataset batch) (events batch ++ [ev]).
End Batch.

(** [new BatchEndpointAggregator(events).batches] *)
Definition BatchEndpointAggregator (events : list ValidatedEvent)
  : list (string * Batch.t) :=
  partition events
    (fun ev => (apiHost ev ++ "_" ++ writeKey ev ++ "_" ++ dataset ev)%string)
    (fun ev => Batch.mk (apiHost ev) (writeKey ev) (dataset ev) [ev])
    Batch.push.

Module Outcome.
(** One element of the array handed to the response callback.  A field
    that is [None] is a key the object literal does not have. *)
Record t : Type := mk {
  status_code : option Value;
  duration : option Z;
  metadata : Value;
  error : Value
}.
End Outcome.

Module Request.
(** The arguments of one [fetchWithTimeout(url, options, ms)] call. *)
Record t : Type := mk {
  url : string;
  method : string;
  headers : list (string * string);
  body : string;
  ms : Z
}.
End Request.

Section Encoding.
Context {P : Platform}.

(** The variables the reducer of [encodeBatchEvents] closes over, its
    accumulator, and the events it has visited. *)
Record EncodeState : Type := mkEncode {
  acc : string;
  first : bool;
  numEncoded : Z;
  visited : list ValidatedEvent
}.

Definition encodeStep (s : EncodeState) (ev : ValidatedEvent) : EncodeState :=
  match JSON_stringify (VObject (toJSON ev)) with
  | Normal encodedEvent =>
      let newAcc :=
        (acc s ++ (if negb (first s) then "," else "") ++ encodedEvent)%string in
      mkEncode newAcc false (numEncoded s + 1) (visited s ++ [ev])
  | Throw e =>
      mkEncode (acc s) (first s) (numEncoded s)
               (visited s ++ [set_encodeError ev e])
  end.

(** [encodeBatchEvents(events)]: the body, the number of events in it,
    and the events as the call leaves them. *)
Definition encodeBatchEvents (events : list ValidatedEvent)
  : string * Z * list ValidatedEvent :=
  let s := fold_left encodeStep events (mkEncode "" true 0 []) in
  let encoded := ("[" ++ acc s ++ "]")%string in
  (encoded, numEncoded s, visited s).

End Encoding.

(* ------------------------------------------------------------------ *)
(** ** Transmission: the object and the world around it *)

Module Options.
(** The options the constructor reads.  A numeric option is [Some] when
    [typeof] finds a number; [userAgentAddition] is [None] when falsy. *)
Record t : Type := mk {
  batchSizeTrigger : option float;
  batchTimeTrigger : option Z;
  maxConcurrentBatches : option Z;
  pendingWorkCapacity : option Z;
  timeout : option Z;
  userAgentAddition : option string
}.
Definition empty : t := mk None None None None None None.
End Options.

(** The fields of a [Transmission], then the world it acts on: the calls
    of the response callback, the pending timers of the platform, the
    invocations of [_sendBatch] suspended at their [await] (each with the
    partitions it has still to send), the requests issued, the promises
    [flush] has created and resolved, and the console. *)
Record Transmission : Type := mkTransmission {
  _batchSizeTrigger : float;
  _batchTimeTrigger : Z;
  _maxConcurrentBatches : Z;
  _pendingWorkCapacity : Z;
  _timeout : Z;
  _sendTimeoutId : option nat;          (* [None] is the sentinel -1 *)
  _eventQueue : list ValidatedEvent;
  _batchCount : Z;
  _userAgentAddition : string;
  flushCallback : option nat;           (* the promise the callback resolves *)
  responses : list (list Outcome.t);
  timers : list nat;
  nextTimer : nat;
  running : list (list Batch.t);
  fetches : list Request.t;
  promises : nat;
  resolved : list nat;
  console : list JsError
}.

Definition set_sendTimeoutId (this : Transmission) (v : option nat) :=
  mkTransmission (_batchSizeTrigger this) (_batchTimeTrigger this)
    (_maxConcurrentBatches this) (_pendingWorkCapacity this) (_timeout this)
    v (_eventQueue this) (_batchCount this) (_userAgentAddition this)
    (flushCallback this) (responses this) (timers this) (nextTimer this)
    (running this) (fetches this) (promises this) (resolved this) (console this).

Definition set_eventQueue (this : Transmission) (v : list ValidatedEvent) :=
  mkTransmission (_batchSizeTrigger this) (_batchTimeTrigger this)
    (_maxConcurrentBatches this) (_pendingWorkCapacity this) (_timeout this)
    (_sendTimeoutId this) v (_batchCount this) (_userAgentAddition this)
    (flushCallback this) (responses this) (timers this) (nextTimer this)
    (running this) (fetches this) (promises this) (resolved this) (console this).

Definition set_batchCount (this : Transmission) (v : Z) :=
  mkTransmission (_batchSizeTrigger this) (_batchTimeTrigger this)
    (_maxConcurrentBatches this) (_pendingWorkCapacity this) (_timeout this)
    (_sendTimeoutId this) (_eventQueue this) v (_userAgentAddition this)
    (flushCallback this) (responses this) (timers this) (nextTimer this)
    (running this) (fetches this) (promises this) (resolved this) (console this).

Definition set_flushCallback (this : Transmission) (v : option nat) :=
  mkTransmission (_batchSizeTrigger this) (_batchTimeTrigger this)
    (_maxConcurrentBatches this) (_pendingWorkCapacity this) (_timeout this)
    (_sendTimeoutId this) (_eventQueue this) (_batchCount this)
    (_userAgentAddition this)
    v (responses this) (timers this) (nextTimer this)
    (running this) (fetches this) (promises this) (resolved this) (console this).

Definition set_responses (this : Transmission) (v : list (list Outcome.t)) :=
  mkTransmission (_batchSizeTrigger this) (_batchTimeTrigger this)
    (_maxConcurrentBatches this) (_pendingWorkCapacity this) (_timeout this)
    (_sendTimeoutId this) (_eventQueue this) (_batchCount this)
    (_userAgentAddition this)
    (flushCallback this) v (timers this) (nextTimer this)
    (running this) (fetches this) (promises this) (resolved this) (console this).

Definition set_timers (this : Transmission) (v : list nat) (next : nat) :=
  mkTransmission (_batchSizeTrigger this) (_batchTimeTrigger this)
    (_maxConcurrentBatches this) (_pendingWorkCapacity this) (_timeout this)
    (_sendTimeoutId this) (_eventQueue this) (_batchCount this)
    (_userAgentAddition this)
    (flushCallback this) (responses this) v next
    (running this) (fetches this) (promises this) (resolved this) (console this).

Definition set_running (this : Transmission) (v : list (list Batch.t)) :=
  mkTransmission (_batchSizeTrigger this) (_batchTimeTrigger this)
    (_maxConcurrentBatches this) (_pendingWorkCapacity this) (_timeout this)
    (_sendTimeoutId this) (_eventQueue this) (_batchCount this)
    (_userAgentAddition this)
    (flushCallback this) (responses this) (timers this) (nextTimer this)
    v (fetches this) (promises this) (resolved this) (console this).

Definition set_fetches (this : Transmission) (v : list Request.t) :=
  mkTransmission (_batchSizeTrigger this) (_batchTimeTrigger this)
    (_maxConcurrentBatches this) (_pendingWorkCapacity this) (_timeout this)
    (_sendTimeoutId this) (_eventQueue this) (_batchCount this)
    (_userAgentAddition this)
    (flushCallback this) (responses this) (timers this) (nextTimer this)
    (running this) v (promises this) (resolved this) (console this).

Definition set_promises (this : Transmission) (n : nat) (v : list nat) :=
  mkTransmission (_batchSizeTrigger this) (_batchTimeTrigger this)
    (_maxConcurrentBatches this) (_pendingWorkCapacity this) (_timeout this)
    (_sendTimeoutId this) (_eventQueue this) (_batchCount this)
    (_userAgentAddition this)
    (flushCallback this) (responses this) (timers this) (nextTimer this)
    (running this) (fetches this) n v (console this).

Definition set_console (this : Transmission) (v : list JsError) :=
  mkTransmission (_batchSizeTrigger this) (_batchTimeTrigger this)
    (_maxConcurrentBatches this) (_pendingWorkCapacity this) (_timeout this)
    (_sendTimeoutId this) (_eventQueue this) (_batchCount this)
    (_userAgentAddition this)
    (flushCallback this) (responses this) (timers this) (nextTimer this)
    (running this) (fetches this) (promises this) (resolved this) v.

(** [new Transmission(options)] in a fresh world. *)
Definition constructor (options : Options.t) : Transmission :=
  mkTransmission
    (match Options.batchSizeTrigger options with
     | Some b => Math_max b 1
     | None => batchSizeTrigger
     end)
    (match Options.batchTimeTrigger options with
     | Some t => t
     | None => batchTimeTrigger
     end)
    (match Options.maxConcurrentBatches options with
     | Some m => m
     | None => maxConcurrentBatches
     end)
    (match Options.pendingWorkCapacity options with
     | Some c => c
     | None => pendingWorkCapacity
     end)
    (match Options.timeout options with
     | Some t => t
     | None => deadlineTimeoutMs
     end)
    None [] 0
    (match Options.userAgentAddition options with
     | Some s => s
     | None => ""%string
     end)
    None [] [] 0%nat [] [] 0%nat [] [].

(** [this._responseCallback(outcomes)] *)
Definition _responseCallback (this : Transmission) (outcomes : list Outcome.t)
  : Transmission :=
  set_responses this (responses this ++ [outcomes]).

Definition _droppedCallback (this : Transmission) (ev : ValidatedEvent)
    (reason : string) : Transmission :=
  _responseCallback this
    [Outcome.mk None None (metadata ev) (VError (newError reason))].

(** ToNumber of [ev.sampleRate]. *)
Definition sampleRate_number (ev : ValidatedEvent) : float :=
  match sampleRate ev with
  | Some x => x
  | None => PrimFloat.nan
  end.

(** [_shouldSendEvent(ev)], [random] being what [this._randomFn()]
    returns. *)
Definition _shouldSendEvent (ev : ValidatedEvent) (random : float) : bool :=
  let sampleRate := sampleRate_number ev in
  if PrimFloat.leb sampleRate 1 then true
  else PrimFloat.ltb random (PrimFloat.div 1 sampleRate).

Definition _ensureSendTimeout (this : Transmission) : Transmission :=
  match _sendTimeoutId this with
  | None =>
      let id := nextTimer this in
      set_sendTimeoutId (set_timers this (timers this ++ [id]) (S id)) (Some id)
  | Some _ => this
  end.

Definition _clearSendTimeout (this : Transmission) : Transmission :=
  match _sendTimeoutId this with
  | Some id =>
      set_sendTimeoutId
        (set_timers this (List.remove Nat.eq_dec id (timers this)) (nextTimer this))
        None
  | None => this
  end.

(** [_sendBatch()] up to its first [await]: the guard, the cut, and the
    suspended invocation it leaves behind. *)
Definition _sendBatch (this : Transmission) : Transmission :=
  if _batchCount this =? maxConcurrentBatches then this
  else
    let this := _clearSendTimeout this in
    let this := set_batchCount this (_batchCount this + 1) in
    let deleteCount :=
      actualDeleteCount (_batchSizeTrigger this)
                        (List.length (_eventQueue this)) in
    let batchAgg := BatchEndpointAggregator (firstn deleteCount (_eventQueue this)) in
    let this := set_eventQueue this (skipn deleteCount (_eventQueue this)) in
    let batches := map snd batchAgg in
    set_running this (running this ++ [batches]).

Definition finishBatch (this : Transmission) : Transmission :=
  let this := set_batchCount this (_batchCount this - 1) in
  let queueLength := Z.of_nat (List.length (_eventQueue this)) in
  if queueLength >? 0 then
    if geb_number queueLength (_batchSizeTrigger this) then _sendBatch this
    else _ensureSendTimeout this
  else if _batchCount this =? 0 then
    match flushCallback this with
    | Some p =>
        (* the callback clears the slot and resolves its promise *)
        set_promises (set_flushCallback this None) (promises this)
                     (resolved this ++ [p])
    | None => this
    end
  else this.

Definition sendPresampledEvent (this : Transmission) (ev : ValidatedEvent)
  : Transmission :=
  if Z.of_nat (List.length (_eventQueue this)) >=? _pendingWorkCapacity this then
    _droppedCallback this ev "queue overflow"
  else
    let this := set_eventQueue this (_eventQueue this ++ [ev]) in
    if geb_number (Z.of_nat (List.length (_eventQueue this)))
                  (_batchSizeTrigger this)
    then _sendBatch this
    else _ensureSendTimeout this.

Definition sendEvent (this : Transmission) (ev : ValidatedEvent) (random : float)
  : Transmission :=
  if negb (_shouldSendEvent ev random) then
    _droppedCallback this ev "event dropped due to sampling"
  else
    sendPresampledEvent this ev.

(** What [flush()] returns: [Promise.resolve()], or a new promise. *)
Inductive Promise : Type :=
| Settled
| Pending (p : nat).

Definition flush (this : Transmission) : Promise * Transmission :=
  if (Z.of_nat (List.length (_eventQueue this)) =? 0) && (_batchCount this =? 0)
  then (Settled, this)
  else
    let p := promises this in
    (Pending p, set_promises (set_flushCallback this (Some p)) (S p) (resolved this)).

(* ------------------------------------------------------------------ *)
(** ** Sending one partition *)

(** How [response.json()] settles. *)
Inductive JsonResult : Type :=
| JsonReject (e : JsError)
| JsonResolve (responseData : Value).

Module Response.
Record t : Type := mk {
  ok : bool;
  status : option Z;
  json : JsonResult
}.
End Response.

(** How [fetchWithTimeout] settles; an expired deadline rejects with an
    error named [AbortError]. *)
Inductive FetchResult : Type :=
| FetchReject (e : JsError)
| FetchResolve (response : Response.t).

(** The readings of [Date.now()]: before the request, after the response,
    and in the [catch] block. *)
Record Clock : Type := mkClock {
  start : Z;
  end_try : Z;
  end_catch : Z
}.

Definition bind {A B : Type} (c : Completion A) (k : A -> Completion B)
  : Completion B :=
  match c with
  | Normal a => k a
  | Throw e => Throw e
  end.

Notation "x <- c ;; k" := (bind c (fun x => k))
  (at level 61, c at next level, right associativity).

(** The callback of [batch.events.map] on the success path, [respIdx]
    being the index of the next unread response. *)
Fixpoint mapResponses (responseData : Value) (elapsed : Z)
    (events : list ValidatedEvent) (respIdx : nat)
  : Completion (list Outcome.t) :=
  match events with
  | [] => Normal []
  | ev :: rest =>
      match encodeError ev with
      | Some e =>
          outs <- mapResponses responseData elapsed rest respIdx ;;
          Normal (Outcome.mk None (Some elapsed) (metadata ev) (VError e) :: outs)
      | None =>
          nextResponse <- getIndex responseData respIdx ;;
          status_code <- getProp nextResponse "status" ;;
          err <- getProp nextResponse "err" ;;
          outs <- mapResponses responseData elapsed rest (S respIdx) ;;
          Normal (Outcome.mk (Some status_code) (Some elapsed) (metadata ev) err
                    :: outs)
      end
  end.

(** [error.status || undefined] *)
Definition status_or_undefined (error : JsError) : Value :=
  match status error with
  | Some z => if truthy (VNumber (number_of_Z z)) then VNumber (number_of_Z z)
              else VUndefined
  | None => VUndefined
  end.

(** The [catch (error)] block of the partition handler. *)
Definition catchOutcomes (error : JsError) (elapsed : Z)
    (events : list ValidatedEvent) : list Outcome.t :=
  let error :=
    if String.eqb (name error) "AbortError"
    then mkError (name error) (message error) (status error) true
    else error in
  map (fun ev =>
         Outcome.mk
           (Some (match encodeError ev with
                  | Some _ => VUndefined
                  | None => status_or_undefined error
                  end))
           (Some elapsed)
           (metadata ev)
           (match encodeError ev with
            | Some e => VError e
            | None => VError error
            end))
      events.

(** The error thrown for a response that is not [ok]. *)
Definition httpError (response : Response.t) : JsError :=
  mkError "Error"
    ("HTTP error! status: " ++ template_of_status (Response.status response))
    (Response.status response) false.

(** The partition handler from the settling of the request on: the array
    it hands to the response callback. *)
Definition finishPartition (events : list ValidatedEvent) (clock : Clock)
    (result : FetchResult) : list Outcome.t :=
  let tried :=
    match result with
    | FetchReject e => Throw e
    | FetchResolve response =>
        if negb (Response.ok response) then Throw (httpError response)
        else
          match Response.json response with
          | JsonReject e => Throw e
          | JsonResolve responseData =>
              mapResponses responseData (end_try clock - start clock) events 0
          end
    end in
  match tried with
  | Normal outcomes => outcomes
  | Throw error => catchOutcomes error (end_catch clock - start clock) events
  end.

(** How the partition handler begins: it throws (the URL is malformed),
    it reports a partition with nothing encoded, or it issues a request. *)
Inductive PartitionStart : Type :=
| StartThrow (e : JsError)
| StartSkip (events : list ValidatedEvent) (outcomes : list Outcome.t)
| StartFetch (events : list ValidatedEvent) (request : Request.t).

Section Sending.
Context {P : Platform}.

Definition userAgent (this : Transmission) : string :=
  let trimmedAddition := trim (_userAgentAddition this) in
  if truthy (VString trimmedAddition)
  then (USER_AGENT ++ " " ++ trimmedAddition)%string
  else USER_AGENT.

(** The [headers] literal of the request.  The name of the second header
    is computed from the test ["node" === "browser"] of two string
    literals. *)
Definition requestHeaders (this : Transmission) (batch : Batch.t)
  : list (string * string) :=
  [ ("X-Honeycomb-Team"%string, Batch.writeKey batch);
    ((if String.eqb "node" "browser"
      then "X-Honeycomb-UserAgent" else "User-Agent")%string,
     userAgent this);
    ("Content-Type"%string, "application/json"%string) ].

Definition startPartition (this : Transmission) (batch : Batch.t)
  : PartitionStart :=
  match URL_href ("/1/batch/" ++ Batch.dataset batch) (Batch.apiHost batch) with
  | Throw e => StartThrow e
  | Normal url =>
      let '(encoded, numEncoded, events) :=
        encodeBatchEvents (Batch.events batch) in
      if numEncoded =? 0 then
        StartSkip events
          (map (fun ev =>
                  Outcome.mk None None (metadata ev) (encodeError_value ev))
               events)
      else
        StartFetch events
          (Request.mk url "POST" (requestHeaders this batch) encoded
                      (_timeout this))
  end.

(** The whole handler on one partition: the transmission afterwards
    and whether the handler threw. *)
Definition sendPartition (this : Transmission) (batch : Batch.t)
    (clock : Clock) (result : FetchResult) : Transmission * bool :=
  match startPartition this batch with
  | StartThrow e =>
      (set_console this (console this ++ [e]), true)
  | StartSkip _ outcomes =>
      (_responseCallback this outcomes, false)
  | StartFetch events request =>
      let this := set_fetches this (fetches this ++ [request]) in
      (_responseCallback this (finishPartition events clock result), false)
  end.

End Sending.

(* ------------------------------------------------------------------ *)
(** ** The transmission as a transition system *)

(** [l] with position [k] replaced, and with position [k] removed. *)
Fixpoint replace_nth {A : Type} (k : nat) (x : A) (l : list A) : list A :=
  match l, k with
  | [], _ => []
  | _ :: l', O => x :: l'
  | y :: l', S k' => y :: replace_nth k' x l'
  end.

Fixpoint remove_nth {A : Type} (k : nat) (l : list A) : list A :=
  match l, k with
  | [], _ => []
  | _ :: l', O => l'
  | y :: l', S k' => y :: remove_nth k' l'
  end.

(** What can happen to a transmission: the application calls a method, a
    pending timer fires, the [k]-th suspended [_sendBatch] handles its next
    partition (the request settling as [result]), or, its partitions
    exhausted, reaches [finishBatch]. *)
Inductive Input : Type :=
| CallSendEvent (ev : ValidatedEvent) (random : float)
| CallSendPresampledEvent (ev : ValidatedEvent)
| CallFlush
| TimerFires (id : nat)
| PartitionSettles (k : nat) (clock : Clock) (result : FetchResult)
| BatchSettles (k : nat).

Section Machine.
Context {P : Platform}.

(** One transition; [None] when the input cannot occur in this state.
    The handling of a partition is one transition, taken when its request
    settles: from its start to that moment the handler holds the partition's
    events alone and has called nothing, so the request is logged together
    with the outcomes. *)
Definition step (this : Transmission) (i : Input) : option Transmission :=
  match i with
  | CallSendEvent ev random => Some (sendEvent this ev random)
  | CallSendPresampledEvent ev => Some (sendPresampledEvent this ev)
  | CallFlush => Some (snd (flush this))
  | TimerFires id =>
      if in_dec Nat.eq_dec id (timers this) then
        Some (_sendBatch
                (set_timers this (List.remove Nat.eq_dec id (timers this))
                            (nextTimer this)))
      else None
  | PartitionSettles k clock result =>
      match nth_error (running this) k with
      | Some (batch :: rest) =>
          let '(this', threw) := sendPartition this batch clock result in
          (* a handler that throws rejects the chain: the partitions
             after it are not sent *)
          Some (set_running this'
                  (replace_nth k (if threw then [] else rest) (running this')))
      | _ => None
      end
  | BatchSettles k =>
      match nth_error (running this) k with
      | Some [] =>
          Some (finishBatch
                  (set_running this (remove_nth k (running this))))
      | _ => None
      end
  end.

(** Running a list of inputs, stopping at one that cannot occur. *)
Fixpoint run (this : Transmission) (inputs : list Input) : option Transmission :=
  match inputs with
  | [] => Some this
  | i :: rest =>
      match step this i with
      | Some this' => run this' rest
      | None => None
      end
  end.

(** The states a transmission built from [options] can be in. *)
Inductive reachable (options : Options.t) : Transmission -> Prop :=
| reach_new : reachable options (constructor options)
| reach_step this i this' :
    reachable options this ->
    step this i = Some this' ->
    reachable options this'.

End Machine.

(* ------------------------------------------------------------------ *)
(** ** Sample data

    Concrete platforms, events and options on which the properties below
    are instantiated. *)

Fixpoint has_bigint (v : Value) : bool :=
  match v with
  | VBigInt _ => true
  | VArray xs => existsb has_bigint xs
  | VObject props => existsb (fun '(_, x) => has_bigint x) props
  | _ => false
  end.

(** A stand-in for [JSON.stringify]: it throws on a value that holds a
    BigInt, as the built-in does, and yields a fixed text otherwise. *)
Definition sample_stringify (v : Value) : Completion string :=
  if has_bigint v
  then Throw (mkError "TypeError" "Do not know how to serialize a BigInt"
                      None false)
  else Normal "{}"%string.

(** A stand-in for URL resolution against a base without a path. *)
Definition sample_href (path base : string) : Completion string :=
  Normal (base ++ path)%string.

Definition sample_platform : Platform :=
  {| JSON_stringify := sample_stringify; URL_href := sample_href;
     trim := fun s => s |}.

(** The event of the test suite, with a given payload and metadata. *)
Definition sample_event (data md : Value) : ValidatedEvent :=
  mkEvent (VDate 0) "http://localhost:9999" data "123456789"
          "test-transmission" (Some 1%float) md None.

Definition good_data : Value :=
  VObject [("a"%string, VNumber 1); ("b"%string, VNumber 2)].

(** A payload that does not serialize. *)
Definition bad_data : Value :=
  VObject [("b"%string, VBigInt 1)].

Definition ev1 : ValidatedEvent := sample_event good_data (VString "m1").
Definition ev2 : ValidatedEvent := sample_event good_data (VString "m2").
Definition ev_bad : ValidatedEvent := sample_event bad_data (VString "bad").

(** An event built without a timestamp, [sampleRate] 1. *)
Definition ev_untimed : ValidatedEvent :=
  mkEvent VUndefined "http://localhost:9999" good_data "123456789"
          "test-transmission" (Some 1%float) VNull None.

(** The response of the mocked server: status 202 for each of [n]
    events. *)
Definition accepted (n : nat) : FetchResult :=
  FetchResolve
    (Response.mk true (Some 200)
       (JsonResolve
          (VArray (repeat (VObject [("status"%string, VNumber 202)]) n)))).

(** The outcomes reported so far, over all calls of the callback. *)
Definition outcomes (this : Transmission) : list Outcome.t :=
  List.concat (responses this).

Definition is_overflow (o : Outcome.t) : bool :=
  match Outcome.error o with
  | VError e => String.eqb (message e) "queue overflow"
  | _ => false
  end.

(* ------------------------------------------------------------------ *)
(** ** Notions the properties are stated with *)

(** What holds of every state a transmission can be in: the in-flight
    count is the number of suspended [_sendBatch] invocations and is at most
    the module's [maxConcurrentBatches]; the promise behind [flushCallback]
    is one [flush] created and is unresolved; and no promise is resolved
    twice. *)
Record invariant (this : Transmission) : Prop := mkInvariant {
  inv_count : _batchCount this = Z.of_nat (List.length (running this));
  inv_bound : _batchCount this <= maxConcurrentBatches;
  inv_slot : forall p, flushCallback this = Some p ->
                       (p < promises this)%nat /\ ~ In p (resolved this);
  inv_created : forall p, In p (resolved this) -> (p < promises this)%nat;
  inv_once : NoDup (resolved this)
}.

(** The timer discipline: a pending timer is the one [_sendTimeoutId]
    names, and there is none while the queue is empty. *)
Definition timers_sound (this : Transmission) : Prop :=
  (forall id, In id (timers this) -> _sendTimeoutId this = Some id) /\
  (timers this <> [] -> _eventQueue this <> []).

(** A promise [flush] created that is unresolved and whose callback is no
    longer in the [flushCallback] slot. *)
Definition abandoned (p : nat) (this : Transmission) : Prop :=
  (p < promises this)%nat /\ flushCallback this <> Some p /\
  ~ In p (resolved this).

(** A transmission with work to wait for: an event on the queue or a
    batch in flight. *)
Definition busy (this : Transmission) : Prop :=
  _eventQueue this <> [] \/ _batchCount this <> 0.

(** The options as the constructor stored them. *)
Definition config (this : Transmission)
  : float * Z * Z * Z * Z * string :=
  (_batchSizeTrigger this, _batchTimeTrigger this, _maxConcurrentBatches this,
   _pendingWorkCapacity this, _timeout this, _userAgentAddition this).

Section Encoded.
Context {P : Platform}.

(** Whether [JSON.stringify(ev)] returns. *)
Definition encodes (ev : ValidatedEvent) : bool :=
  match JSON_stringify (VObject (toJSON ev)) with
  | Normal _ => true
  | Throw _ => false
  end.

(** The texts of the events that serialize, in order. *)
Definition encodedTexts (events : list ValidatedEvent) : list string :=
  flat_map (fun ev => match JSON_stringify (VObject (toJSON ev)) with
                      | Normal text => [text]
                      | Throw _ => []
                      end) events.

(** An event as an attempt to serialize it leaves it. *)
Definition afterEncode (ev : ValidatedEvent) : ValidatedEvent :=
  match JSON_stringify (VObject (toJSON ev)) with
  | Normal _ => ev
  | Throw e => set_encodeError ev e
  end.

(** The number of events before position [j] that serialize: the index,
    among the successfully encoded events, of the one at [j]. *)
Definition slot (events : list ValidatedEvent) (j : nat) : nat :=
  List.length (filter encodes (firstn j events)).

End Encoded.

(** [v.k], [undefined] where the read throws. *)
Definition field (v : Value) (k : string) : Value :=
  match getProp v k with
  | Normal x => x
  | Throw _ => VUndefined
  end.

(** A response element whose properties can be read. *)
Definition readable (v : Value) : Prop := v <> VUndefined /\ v <> VNull.

(** The outcome the specification gives the event at a position of a
    partition answered by the array [resp]: for an event that serialized, the
    status and error of the response element at its slot; for one that did
    not, its encode error. *)
Definition expectedOutcome {P : Platform} (resp : list Value) (elapsed : Z)
    (events : list ValidatedEvent) (j : nat) (ev : ValidatedEvent) : Outcome.t :=
  match JSON_stringify (VObject (toJSON ev)) with
  | Normal _ =>
      Outcome.mk (Some (field (nth (slot events j) resp VUndefined) "status"))
                 (Some elapsed) (metadata ev)
                 (field (nth (slot events j) resp VUndefined) "err")
  | Throw e =>
      Outcome.mk None (Some elapsed) (metadata ev) (VError e)
  end.

(* ------------------------------------------------------------------ *)
(** ** Notions for the aggregator and the accounting of events *)

From Stdlib Require Import Permutation.

(** The key the aggregator files an event under. *)
Definition batchKey (ev : ValidatedEvent) : string :=
  (apiHost ev ++ "_" ++ writeKey ev ++ "_" ++ dataset ev)%string.

(** The events of [events] filed under [k], in order. *)
Definition keyed (k : string) (events : list ValidatedEvent)
  : list ValidatedEvent :=
  filter (fun ev => String.eqb (batchKey ev) k) events.

(** The number of events held by a list of partitions. *)
Definition held (batches : list Batch.t) : nat :=
  List.length (List.concat (map Batch.events batches)).

(** The number of events held by the suspended invocations. *)
Definition in_flight_events (this : Transmission) : nat :=
  List.length (List.concat (map (fun batches =>
                                   List.concat (map Batch.events batches))
                                (running this))).

(** The number of events an input hands to the transmission. *)
Definition submits (i : Input) : nat :=
  match i with
  | CallSendEvent _ _ | CallSendPresampledEvent _ => 1
  | _ => 0
  end.

Definition submitted (inputs : list Input) : nat :=
  list_sum (map submits inputs).

(** Two events with different destinations and one key. *)
Definition ev_host_a_b : ValidatedEvent :=
  mkEvent (VDate 0) "http://a_b" good_data "c" "d" (Some 1%float)
          (VString "first") None.

Definition ev_host_a : ValidatedEvent :=
  mkEvent (VDate 0) "http://a" good_data "b_c" "d" (Some 1%float)
          (VString "second") None.

(** What a trigger does to the size test and to a cut: as NaN it fails
    every size test and a cut takes nothing; as infinity it fails every size
    test and a cut takes everything; otherwise the size test passes from [c]
    events on and a cut takes up to [f], its integer part. *)
Inductive triggerView (t : float) : Prop :=
| view_nan :
    PrimFloat.is_nan t = true ->
    (forall n, geb_number n t = false) ->
    ToIntegerOrInfinity t = Integer 0 -> triggerView t
| view_unbounded :
    (forall n, geb_number n t = false) ->
    ToIntegerOrInfinity t = PlusInfinity -> triggerView t
| view_count (f c : Z) :
    1 <= f -> f <= c <= f + 1 ->
    (forall n, geb_number n t = (c <=? n)) ->
    ToIntegerOrInfinity t = Integer f -> triggerView t.

(** The bounds a transmission keeps: the trigger is NaN or at least 1,
    the queue is within the capacity, its length passes the size test only
    while the in-flight count is at the module's maximum, each suspended
    invocation holds no more events than the integer part of the trigger,
    and at most one timer is pending. *)
Record bounded (this : Transmission) : Prop := mkBounded {
  bd_trigger : PrimFloat.is_nan (_batchSizeTrigger this) = true
               \/ PrimFloat.leb 1 (_batchSizeTrigger this) = true;
  bd_queue : Z.of_nat (List.length (_eventQueue this))
             <= Z.max (_pendingWorkCapacity this) 0;
  bd_backlog : geb_number (Z.of_nat (List.length (_eventQueue this)))
                          (_batchSizeTrigger this) = false
               \/ _batchCount this = maxConcurrentBatches;
  bd_running : Forall (fun batches =>
                         forall n,
                           ToIntegerOrInfinity (_batchSizeTrigger this)
                             = Integer n ->
                           Z.of_nat (held batches) <= n)
                      (running this);
  bd_timers : (List.length (timers this) <= 1)%nat
}.

(** The events a transmission accounts for: those it has reported an
    outcome for, those on its queue and those its suspended invocations
    hold. *)
Definition accounted (this : Transmission) : nat :=
  List.length (outcomes this) + List.length (_eventQueue this)
  + in_flight_events this.

(** Whether an input finds the URL it resolves well formed: the handling
    of a partition resolves the URL of that partition, the other inputs
    resolve none. *)
Definition addressed {P : Platform} (this : Transmission) (i : Input) : bool :=
  match i with
  | PartitionSettles k _ _ =>
      match nth_error (running this) k with
      | Some (batch :: _) =>
          match URL_href ("/1/batch/" ++ Batch.dataset batch)
                         (Batch.apiHost batch) with
          | Normal _ => true
          | Throw _ => false
          end
      | _ => true
      end
  | _ => true
  end.

(** A run in which the URL of every partition handled is well formed. *)
Fixpoint well_addressed {P : Platform} (this : Transmission)
    (inputs : list Input) : bool :=
  match inputs with
  | [] => true
  | i :: rest =>
      addressed this i
      && match step this i with
         | Some this' => well_addressed this' rest
         | None => true
         end
  end.

(** The error a settled request fails with before any response element
    is read: the rejection of [fetch], the error thrown for a response that
    is not [ok], or the rejection of [response.json()]. *)
Definition transportError (result : FetchResult) : option JsError :=
  match result with
  | FetchReject e => Some e
  | FetchResolve response =>
      if negb (Response.ok response) then Some (httpError response)
      else match Response.json response with
           | JsonReject e => Some e
           | JsonResolve _ => None
           end
  end.

(** An error as the [catch] block reports it: marked [timeout] when its
    name is [AbortError]. *)
Definition reported (error : JsError) : JsError :=
  if String.eqb (name error) "AbortError"
  then mkError (name error) (message error) (status error) true
  else error.

(** A stand-in for [URL] that rejects a base without a scheme. *)
Definition strict_href (path base : string) : Completion string :=
  if String.prefix "http" base then Normal (base ++ path)%string
  else Throw (mkError "TypeError" "Invalid URL" None false).

Definition strict_platform : Platform :=
  {| JSON_stringify := sample_stringify; URL_href := strict_href;
     trim := fun s => s |}.

(** An event addressed to something that is no URL. *)
Definition ev_no_url : ValidatedEvent :=
  mkEvent (VDate 0) "nowhere" good_data "123456789" "test-transmission"
          (Some 1%float) (VString "lost") None.

(* ------------------------------------------------------------------ *)
(** ** Events, builders and validation *)

(** The result of [typeof] on the values of the embedding. *)
Inductive JsType : Type :=
| TyUndefined | TyObject | TyBoolean | TyNumber | TyBigInt | TyString.

Definition typeof (v : Value) : JsType :=
  match v with
  | VUndefined => TyUndefined
  | VBool _ => TyBoolean
  | VNumber _ => TyNumber
  | VBigInt _ => TyBigInt
  | VString _ => TyString
  | VNull | VDate _ | VError _ | VArray _ | VObject _ => TyObject
  end.

(** [o[k] = v] on an object without index keys: an own property keeps
    its place, a new one goes last. *)
Fixpoint setProp (k : string) (v : Value) (o : list (string * Value))
  : list (string * Value) :=
  match o with
  | [] => [(k, v)]
  | (k', v') :: o' =>
      if String.eqb k k' then (k', v) :: o' else (k', v') :: setProp k v o'
  end.

(** What [foreach] is given: nothing (a falsy value), an object, or a
    [Map] with string keys; the pairs are in the order of enumeration. *)
Inductive Collection (A : Type) : Type :=
| NoCollection
| OfObject (props : list (string * A))
| OfMap (entries : list (string * A)).
Arguments NoCollection {A}.
Arguments OfObject {A} props.
Arguments OfMap {A} entries.

(** [foreach(col, f)], [f] acting on a state [S]. *)
Definition foreach {A S : Type} (col : Collection A) (f : S -> A -> string -> S)
    (s : S) : S :=
  match col with
  | NoCollection => s
  | OfMap entries => fold_left (fun s '(k, v) => f s v k) entries s
  | OfObject props => fold_left (fun s '(k, v) => f s v k) props s
  end.

Module Event.
(** An [Event], without its back reference to the Libhoney instance. *)
Record t : Type := mk {
  data : list (string * Value);
  metadata : Value;
  apiHost : Value;
  writeKey : Value;
  dataset : Value;
  sampleRate : Value;
  timestamp : Value
}.

Definition set_data (ev : t) (d : list (string * Value)) : t :=
  mk d (metadata ev) (apiHost ev) (writeKey ev) (dataset ev) (sampleRate ev)
     (timestamp ev).

Definition addField (this : t) (name : string) (val : Value) : t :=
  match val with
  | VUndefined => set_data this (setProp name VNull (data this))
  | _ => set_data this (setProp name val (data this))
  end.

Definition add (this : t) (data_ : Collection Value) : t :=
  foreach data_ (fun this v k => addField this k v) this.

Definition addMetadata (this : t) (md : Value) : t :=
  mk (data this) md (apiHost this) (writeKey this) (dataset this)
     (sampleRate this) (timestamp this).

End Event.

Section Builders.
(** The state of the world a dynamic field function reads. *)
Variable W : Type.

(** [new Event(libhoney, fields, dynFields)], the dynamic field
    functions being called in the world [w]. *)
Definition newEventFrom (fields : Collection Value)
    (dynFields : Collection (W -> Value)) (w : W) : Event.t :=
  let this := Event.mk [] VNull (VString "") (VString "") (VString "")
                       (VNumber 1) VNull in
  let this := foreach fields (fun this v k => Event.addField this k v) this in
  foreach dynFields (fun this v k => Event.addField this k (v w)) this.

Record Builder : Type := mkBuilder {
  _fields : list (string * Value);
  _dynFields : list (string * (W -> Value));
  b_apiHost : Value;
  b_writeKey : Value;
  b_dataset : Value;
  b_sampleRate : Value
}.

(** [builder.addField(name, val)] *)
Definition Builder_addField (this : Builder) (name : string) (val : Value)
  : Builder :=
  mkBuilder
    (match val with
     | VUndefined => setProp name VNull (_fields this)
     | _ => setProp name val (_fields this)
     end)
    (_dynFields this) (b_apiHost this) (b_writeKey this) (b_dataset this)
    (b_sampleRate this).

(** [this._dynFields[name] = fn] *)
Fixpoint setDyn (k : string) (fn : W -> Value) (o : list (string * (W -> Value)))
  : list (string * (W -> Value)) :=
  match o with
  | [] => [(k, fn)]
  | (k', fn') :: o' =>
      if String.eqb k k' then (k', fn) :: o' else (k', fn') :: setDyn k fn o'
  end.

Definition Builder_addDynamicField (this : Builder) (name : string)
    (fn : W -> Value) : Builder :=
  mkBuilder (_fields this) (setDyn name fn (_dynFields this))
            (b_apiHost this) (b_writeKey this) (b_dataset this)
            (b_sampleRate this).

Definition Builder_add (this : Builder) (data_ : Collection Value) : Builder :=
  foreach data_ (fun this v k => Builder_addField this k v) this.

(** [new Builder(libhoney, fields, dynFields)] *)
Definition newBuilderFrom (fields : Collection Value)
    (dynFields : Collection (W -> Value)) : Builder :=
  let this := mkBuilder [] [] (VString "") (VString "") (VString "")
                        (VNumber 1) in
  let this := foreach fields (fun this v k => Builder_addField this k v) this in
  foreach dynFields (fun this v k => Builder_addDynamicField this k v) this.

(** [builder.newEvent()] in the world [w]. *)
Definition Builder_newEvent (this : Builder) (w : W) : Event.t :=
  let ev := newEventFrom (OfObject (_fields this)) (OfObject (_dynFields this)) w in
  Event.mk (Event.data ev) (Event.metadata ev) (b_apiHost this)
           (b_writeKey this) (b_dataset this) (b_sampleRate this)
           (Event.timestamp ev).

(** [builder.newBuilder(fields, dynFields)] *)
Definition Builder_newBuilder (this : Builder) (fields : Collection Value)
    (dynFields : Collection (W -> Value)) : Builder :=
  let b := newBuilderFrom (OfObject (_fields this)) (OfObject (_dynFields this)) in
  let b := foreach fields (fun b v k => Builder_addField b k v) b in
  let b := foreach dynFields (fun b v k => Builder_addDynamicField b k v) b in
  mkBuilder (_fields b) (_dynFields b) (b_apiHost this) (b_writeKey this)
            (b_dataset this) (b_sampleRate this).

End Builders.
Arguments mkBuilder {W}.
Arguments _fields {W}.
Arguments _dynFields {W}.
Arguments b_apiHost {W}.
Arguments b_writeKey {W}.
Arguments b_dataset {W}.
Arguments b_sampleRate {W}.
Arguments newEventFrom {W}.
Arguments Builder_addField {W}.
Arguments Builder_addDynamicField {W}.
Arguments Builder_add {W}.
Arguments newBuilderFrom {W}.
Arguments Builder_newEvent {W}.
Arguments Builder_newBuilder {W}.
Arguments setDyn {W}.

(** What [Libhoney.sendEvent] reads of the object it is given, which
    need not be an [Event]. *)
Record EventLike : Type := mkEventLike {
  el_timestamp : Value;
  el_data : Value;
  el_apiHost : Value;
  el_writeKey : Value;
  el_dataset : Value;
  el_sampleRate : Value;
  el_metadata : Value
}.

(** An [Event] as [validateEvent] sees it. *)
Definition eventLike (ev : Event.t) : EventLike :=
  mkEventLike (Event.timestamp ev) (VObject (Event.data ev)) (Event.apiHost ev)
              (Event.writeKey ev) (Event.dataset ev) (Event.sampleRate ev)
              (Event.metadata ev).

(** The built-ins validation adds to those of [Platform]: [JSON.parse],
    and the time value of [new Date(v)] for a string or a number. *)
Class Host : Type := {
  JSON_parse : string -> Completion Value;
  Date_value : Value -> float
}.

(** [Error.prototype.toString] *)
Definition errorToString (e : JsError) : string :=
  if String.eqb (name e) "" then message e
  else if String.eqb (message e) "" then name e
  else (name e ++ ": " ++ message e)%string.

(** What [validateEvent] returns: [null], with what it wrote to the
    console, or the validated event. *)
Inductive Validation : Type :=
| Rejected (logged : option string)
| Valid (ev : ValidatedEvent).

(** [isClassic(key)] *)
Definition isClassic (key : string) : bool :=
  Nat.eqb (String.length key) 32.

Section Validation.
Context {P : Platform} {H : Host}.

(** [JSON.parse(JSON.stringify(data))] *)
Definition cloneData (data : Value) : Completion Value :=
  match JSON_stringify data with
  | Normal text => JSON_parse text
  | Throw e => Throw e
  end.

(** [validateEvent(event)], [now] being what [Date.now()] returns. *)
Definition validateEvent (_usable : bool) (event : EventLike) (now : float)
  : Validation :=
  if negb _usable then Rejected None
  else
    let timestamp :=
      if truthy (el_timestamp event) then el_timestamp event else VNumber now in
    let timestamp :=
      match typeof timestamp with
      | TyString | TyNumber => VDate (Date_value timestamp)
      | _ => timestamp
      end in
    match typeof (el_data event), el_data event with
    | TyObject, VNull => Rejected (Some "data must be an object"%string)
    | TyObject, data =>
        match cloneData data with
        | Throw e =>
            Rejected (Some ("error cloning event data: " ++ errorToString e)%string)
        | Normal postData =>
            match el_apiHost event with
            | VString "" =>
                Rejected (Some "apiHost must be a non-empty string"%string)
            | VString apiHost =>
                match el_writeKey event with
                | VString "" =>
                    Rejected (Some "writeKey must be a non-empty string"%string)
                | VString writeKey =>
                    match el_dataset event with
                    | VString dataset =>
                        if String.eqb dataset "" && isClassic writeKey then
                          Rejected
                            (Some "dataset must be a non-empty string"%string)
                        else
                          let dataset :=
                            if String.eqb dataset "" then "unknown_dataset"%string
                            else dataset in
                          match el_sampleRate event with
                          | VNumber sampleRate =>
                              Valid (mkEvent timestamp apiHost postData writeKey
                                             dataset (Some sampleRate)
                                             (el_metadata event) None)
                          | _ =>
                              Rejected
                                (Some "sampleRate must be a number"%string)
                          end
                    | _ => Rejected (Some "dataset must be a string"%string)
                    end
                | _ =>
                    Rejected (Some "writeKey must be a non-empty string"%string)
                end
            | _ => Rejected (Some "apiHost must be a non-empty string"%string)
            end
        end
    | _, _ => Rejected (Some "data must be an object"%string)
    end.

End Validation.

(** The timestamp validation gives an event. *)
Definition validatedTimestamp {H : Host} (event : EventLike) (now : float)
  : Value :=
  let timestamp :=
    if truthy (el_timestamp event) then el_timestamp event else VNumber now in
  match typeof timestamp with
  | TyString | TyNumber => VDate (Date_value timestamp)
  | _ => timestamp
  end.

(** Stand-ins for the built-ins of [Host]: a parse that yields an empty
    object, and a date at the epoch. *)
Definition sample_host : Host :=
  {| JSON_parse := fun _ => Normal (VObject []);
     Date_value := fun _ => PrimFloat.zero |}.

(** A write key of 32 characters. *)
Definition classic_key : string := "0123456789abcdef0123456789abcdef".

(* ------------------------------------------------------------------ *)
(** ** The other transmissions and the Libhoney instance *)

(** [options.transmission]: a string, a constructor of the application
    (what [new] on it does: an instance, here a token for it, or an
    exception), or anything else.  The classes of the library itself are not
    exported, so a constructor is never one of them. *)
Inductive TransmissionOption : Type :=
| ByName (className : string)
| ByConstructor (init : Completion nat)
| Neither.

Module LibOptions.
(** The options of a Libhoney instance that the code modelled here reads:
    [transmission], [disabled], and those the base transmission takes. *)
Record t : Type := mk {
  transmission : TransmissionOption;
  disabled : bool;
  base : Options.t
}.
End LibOptions.

Module MockTransmission.
Record t : Type := mk {
  constructorArg : option LibOptions.t;
  events : list ValidatedEvent
}.
Definition constructor (options : LibOptions.t) : t := mk (Some options) [].
Definition sendEvent (this : t) (ev : ValidatedEvent) : t :=
  mk (constructorArg this) (events this ++ [ev]).
Definition sendPresampledEvent (this : t) (ev : ValidatedEvent) : t :=
  mk (constructorArg this) (events this ++ [ev]).
Definition reset (this : t) : t := mk None [].
End MockTransmission.

(** An instance of one of the transmission classes, or of a class of the
    application. *)
Inductive AnyTransmission : Type :=
| ABase (t : Transmission)
| AMock (m : MockTransmission.t)
| AWriter
| AConsole
| AStdout
| ANull
| ACustom (instance : nat).

(** The classes [getTransmissionClass] chooses between. *)
Inductive TransmissionClass : Type :=
| ClassTransmission | ClassMock | ClassNull | ClassWriter | ClassConsole
| ClassStdout.

(** [new cls(options)] for a class of the library. *)
Definition construct (cls : TransmissionClass) (options : LibOptions.t)
  : AnyTransmission :=
  match cls with
  | ClassTransmission => ABase (constructor (LibOptions.base options))
  | ClassMock => AMock (MockTransmission.constructor options)
  | ClassNull => ANull
  | ClassWriter => AWriter
  | ClassConsole => AConsole
  | ClassStdout => AStdout
  end.

(** [getTransmissionClass(name)]: what it warns, and the class or the
    error it throws. *)
Definition getTransmissionClass (transmissionClassName : string)
  : list string * Completion TransmissionClass :=
  if String.eqb transmissionClassName "base" then ([], Normal ClassTransmission)
  else if String.eqb transmissionClassName "mock" then ([], Normal ClassMock)
  else if String.eqb transmissionClassName "null" then ([], Normal ClassNull)
  else if String.eqb transmissionClassName "worker" then
    (["worker implementation not ready yet.  using base implementation"%string],
     Normal ClassTransmission)
  else if String.eqb transmissionClassName "writer" then
    (["writer implementation is deprecated.  Please switch to console implementation."%string],
     Normal ClassWriter)
  else if String.eqb transmissionClassName "console" then
    ([], Normal ClassConsole)
  else if String.eqb transmissionClassName "stdout" then ([], Normal ClassStdout)
  else
    ([], Throw (newError ("unknown transmission implementation "
                            ++ String (ascii_of_nat 34) transmissionClassName
                            ++ String (ascii_of_nat 34) ".")%string)).

(** [getAndInitTransmission(transmission, options)]: what it warns, and
    [null], the instance, or the error it throws. *)
Definition getAndInitTransmission (transmission : TransmissionOption)
    (options : LibOptions.t)
  : list string * Completion (option AnyTransmission) :=
  if LibOptions.disabled options then ([], Normal None)
  else
    match transmission with
    | ByName className =>
        match getTransmissionClass className with
        | (warned, Normal cls) => (warned, Normal (Some (construct cls options)))
        | (warned, Throw e) => (warned, Throw e)
        end
    | Neither =>
        ([], Throw (newError "transmission must be one of 'base'/'worker'/'mock'/'writer'/'console'/'stdout'/'null' or a constructor."))
    | ByConstructor (Normal instance) => ([], Normal (Some (ACustom instance)))
    | ByConstructor (Throw _) =>
        (["failed to initialize transmission, falling back to base implementation."%string],
         Normal (Some (ABase (constructor (LibOptions.base options)))))
    end.

Module Honey.
(** A Libhoney instance: its options, its transmission, whether it is
    usable, and the transmissions its [flush] has detached, oldest first. *)
Record t : Type := mk {
  _options : LibOptions.t;
  _transmission : option AnyTransmission;
  _usable : bool;
  detached : list AnyTransmission
}.
End Honey.

(** [new Libhoney(opts)], as far as the transmission goes. *)
Definition newLibhoney (opts : LibOptions.t) : Completion Honey.t :=
  match snd (getAndInitTransmission (LibOptions.transmission opts) opts) with
  | Throw e => Throw e
  | Normal transmission =>
      Normal (Honey.mk opts transmission
                       (match transmission with Some _ => true | None => false end)
                       [])
  end.

(** The [TypeError] of calling a method an object does not have. *)
Definition notAFunction (what : string) : JsError :=
  mkError "TypeError" (what ++ " is not a function") None false.

(** How a method of a Libhoney instance ends: it returns, it throws, or
    its result is that of a method of the application's own transmission,
    called on the given instance. *)
Inductive Ending (A : Type) : Type :=
| Returns (a : A)
| Throws (e : JsError)
| Delegates (instance : nat).
Arguments Returns {A} a.
Arguments Throws {A} e.
Arguments Delegates {A} instance.

(** [Libhoney.flush()]: the instance afterwards, and how the call ends;
    a promise is one of the transmission that was detached. *)
Definition Libhoney_flush (this : Honey.t) : Honey.t * Ending Promise :=
  let transmission := Honey._transmission this in
  match snd (getAndInitTransmission
               (LibOptions.transmission (Honey._options this))
               (Honey._options this)) with
  | Throw e => (this, Throws e)
  | Normal fresh =>
      match transmission with
      | None =>
          (Honey.mk (Honey._options this) fresh (Honey._usable this)
                    (Honey.detached this),
           Returns Settled)
      | Some (ABase t) =>
          (Honey.mk (Honey._options this) fresh (Honey._usable this)
                    (Honey.detached this ++ [ABase (snd (flush t))]),
           Returns (fst (flush t)))
      | Some (ACustom instance) =>
          (Honey.mk (Honey._options this) fresh (Honey._usable this)
                    (Honey.detached this ++ [ACustom instance]),
           Delegates instance)
      | Some other =>
          (Honey.mk (Honey._options this) fresh (Honey._usable this)
                    (Honey.detached this ++ [other]),
           Throws (notAFunction "transmission.flush"))
      end
  end.

Section Sending.
Context {P : Platform} {H : Host}.

(** [Libhoney.sendEvent(event)] on an instance with one of the
    transmissions that keep events: the base one and the mock; [None] for
    the others. *)
Definition Libhoney_sendEvent (this : Honey.t) (event : EventLike)
    (now random : float) : option Honey.t :=
  match validateEvent (Honey._usable this) event now with
  | Rejected _ => Some this
  | Valid transmitEvent =>
      match Honey._transmission this with
      | Some (ABase t) =>
          Some (Honey.mk (Honey._options this)
                         (Some (ABase (sendEvent t transmitEvent random)))
                         (Honey._usable this) (Honey.detached this))
      | Some (AMock m) =>
          Some (Honey.mk (Honey._options this)
                         (Some (AMock (MockTransmission.sendEvent m transmitEvent)))
                         (Honey._usable this) (Honey.detached this))
      | Some ANull => Some this
      | _ => None
      end
  end.

End Sending.

(** An event-like object of the test suite. *)
Definition sample_eventLike (dataset_ : string) : EventLike :=
  mkEventLike VUndefined good_data (VString "http://localhost:9999")
              (VString classic_key) (VString dataset_) (VNumber 1) (VString "md").

(** A field value as [addField] stores it: [undefined] becomes [null]. *)
Definition stored (val : Value) : Value :=
  match val with
  | VUndefined => VNull
  | _ => val
  end.

(** The value a list of assignments leaves under a key: that of the last
    assignment to it. *)
Definition lastValue {A : Type} (k : string) (o : list (string * A)) : option A :=
  lookup k (rev o).

(** The pairs [foreach] visits. *)
Definition entriesOf {A : Type} (col : Collection A) : list (string * A) :=
  match col with
  | NoCollection => []
  | OfObject props => props
  | OfMap entries => entries
  end.

(** The transmissions that have no [flush] method. *)
Definition lacks_flush (transmission : AnyTransmission) : Prop :=
  match transmission with
  | ABase _ | ACustom _ => False
  | AMock _ | AWriter | AConsole | AStdout | ANull => True
  end.

(** The events of a list that validation accepts, validated, in order. *)
Definition validatedOf {P : Platform} {H : Host} (usable : bool)
    (events : list (EventLike * float)) : list ValidatedEvent :=
  flat_map (fun '(event, now) =>
              match validateEvent usable event now with
              | Valid ev => [ev]
              | Rejected _ => []
              end) events.

(** [Libhoney.sendEvent] for each of a list of events with the reading of
    the clock at its call; the random source is not consulted by the mock. *)
Definition Libhoney_sendEvents {P : Platform} {H : Host} (this : Honey.t)
    (events : list (EventLike * float)) : option Honey.t :=
  fold_left (fun acc '(event, now) =>
               match acc with
               | Some this => Libhoney_sendEvent this event now 0%float
               | None => None
               end) events (Some this).


(* ================================================================== *)
(** * Properties *)

(* ------------------------------------------------------------------ *)
(** ** Numbers: Math.max, the size test and the count of a splice *)

Lemma SFcompare_refl (v : spec_float) :
  v <> S754_nan -> SFcompare v v = Some Eq.
Proof.
  destruct v as [s|s| |s m e]; intros H; simpl; try congruence.
  - now destruct s.
  - rewrite Z.compare_refl. rewrite Pos.compare_cont_refl. now destruct s.
Qed.

Lemma is_nan_view (x : float) :
  PrimFloat.is_nan x = true <-> Prim2SF x = S754_nan.
Proof.
  unfold PrimFloat.is_nan. rewrite eqb_spec. unfold SFeqb.
  destruct (Prim2SF x) as [s|s| |s m e] eqn:E.
  - simpl. split; discriminate.
  - rewrite SFcompare_refl by discriminate. split; discriminate.
  - simpl. split; reflexivity.
  - rewrite SFcompare_refl by discriminate. split; discriminate.
Qed.

Lemma SFcompare_antisym (v w : spec_float) :
  SFcompare w v = option_map CompOpp (SFcompare v w).
Proof.
  destruct v as [s|s| |s m e], w as [s'|s'| |s' m' e']; simpl; try reflexivity;
    try (destruct s; reflexivity); try (destruct s'; reflexivity);
    try (destruct s, s'; reflexivity).
  destruct s, s'; try reflexivity.
  - rewrite (Z.compare_antisym e e').
    destruct (e ?= e') eqn:Ee; simpl; try reflexivity.
    change (PosDef.Pos.compare_cont Eq m' m) with (Pos.compare m' m).
    change (PosDef.Pos.compare_cont Eq m m') with (Pos.compare m m').
    rewrite (Pos.compare_antisym m m'). now destruct (m ?= m')%positive.
  - rewrite (Z.compare_antisym e e').
    destruct (e ?= e') eqn:Ee; simpl; try reflexivity.
    change (PosDef.Pos.compare_cont Eq m' m) with (Pos.compare m' m).
    change (PosDef.Pos.compare_cont Eq m m') with (Pos.compare m m').
    now rewrite (Pos.compare_antisym m m').
Qed.

Lemma ltb_false_leb (x y : float) :
  PrimFloat.is_nan x = false -> PrimFloat.is_nan y = false ->
  PrimFloat.ltb x y = false -> PrimFloat.leb y x = true.
Proof.
  intros Hx Hy. rewrite ltb_spec, leb_spec. unfold SFltb, SFleb.
  rewrite (SFcompare_antisym (Prim2SF x) (Prim2SF y)).
  assert (Hx' : Prim2SF x <> S754_nan)
    by (intros E; apply is_nan_view in E; congruence).
  assert (Hy' : Prim2SF y <> S754_nan)
    by (intros E; apply is_nan_view in E; congruence).
  destruct (SFcompare (Prim2SF x) (Prim2SF y)) as [[| |]|] eqn:E; simpl;
    try reflexivity; try discriminate.
  intros _. destruct (Prim2SF x), (Prim2SF y); simpl in E; congruence.
Qed.

Lemma ltb_leb (x y : float) :
  PrimFloat.ltb x y = true -> PrimFloat.leb x y = true.
Proof.
  rewrite ltb_spec, leb_spec. unfold SFltb, SFleb.
  now destruct (SFcompare (Prim2SF x) (Prim2SF y)) as [[| |]|].
Qed.

Lemma ltb_not_nan (x y : float) :
  PrimFloat.ltb x y = true -> PrimFloat.is_nan x = false /\ PrimFloat.is_nan y = false.
Proof.
  rewrite ltb_spec. unfold SFltb. intros H.
  split; apply not_true_is_false; intros E; apply is_nan_view in E;
    rewrite E in H; simpl in H; try discriminate.
  now destruct (Prim2SF x).
Qed.

Lemma leb_refl (x : float) :
  PrimFloat.is_nan x = false -> PrimFloat.leb x x = true.
Proof.
  intros Hx. rewrite leb_spec. unfold SFleb.
  rewrite SFcompare_refl; [reflexivity|].
  intros E. apply is_nan_view in E. congruence.
Qed.

(** [Math.max(b, 1)]: NaN for NaN, and otherwise the larger of b and 1. *)
Lemma Math_max_1 (b : float) :
  (PrimFloat.is_nan b = true /\ Math_max b 1 = PrimFloat.nan) \/
  (PrimFloat.is_nan b = false /\
   PrimFloat.is_nan (Math_max b 1) = false /\
   PrimFloat.leb 1 (Math_max b 1) = true /\
   PrimFloat.leb b (Math_max b 1) = true /\
   (Math_max b 1 = b \/ Math_max b 1 = 1%float)).
Proof.
  unfold Math_max. destruct (PrimFloat.is_nan b) eqn:Hb; simpl.
  - left. split; reflexivity.
  - right. split; [reflexivity|].
    destruct (PrimFloat.ltb b 1) eqn:H1.
    + repeat split; try reflexivity; [now apply ltb_leb | now right].
    + assert (L1 : PrimFloat.leb 1 b = true)
        by (apply ltb_false_leb; [exact Hb | reflexivity | exact H1]).
      destruct (PrimFloat.ltb 1 b) eqn:H2.
      * repeat split; try assumption; [now apply leb_refl | now left].
      * destruct (PrimFloat.get_sign b).
        -- repeat split; try reflexivity; [|now right].
           apply ltb_false_leb; [reflexivity | exact Hb | exact H2].
        -- repeat split; try assumption; [now apply leb_refl | now left].
Qed.

Lemma digits2_pos_lower (m : positive) :
  2 ^ (Z.pos (digits2_pos m) - 1) <= Z.pos m.
Proof.
  induction m as [m IH|m IH|]; simpl digits2_pos.
  - rewrite Pos2Z.inj_succ.
    replace (Z.succ (Z.pos (digits2_pos m)) - 1)
      with (Z.succ (Z.pos (digits2_pos m) - 1)) by lia.
    rewrite Z.pow_succ_r by lia. lia.
  - rewrite Pos2Z.inj_succ.
    replace (Z.succ (Z.pos (digits2_pos m)) - 1)
      with (Z.succ (Z.pos (digits2_pos m) - 1)) by lia.
    rewrite Z.pow_succ_r by lia. lia.
  - simpl. lia.
Qed.

(** The numbers that are at least 1, in sign, mantissa and exponent. *)
Lemma leb_1_view (t : float) :
  PrimFloat.leb 1 t = true ->
  Prim2SF t = S754_infinity false \/
  exists m e, Prim2SF t = S754_finite false m e /\
              -52 <= e /\ 4503599627370496 <= Z.pos m.
Proof.
  rewrite leb_spec.
  change (Prim2SF 1) with (S754_finite false 4503599627370496 (-52)).
  pose proof (Prim2SF_valid t) as Hv.
  destruct (Prim2SF t) as [s|s| |s m e]; try discriminate.
  - destruct s; [discriminate | now left].
  - destruct s; [discriminate|]. intros H. right. exists m, e.
    split; [reflexivity|].
    unfold SpecFloat.valid_binary, SpecFloat.bounded, canonical_mantissa, fexp,
      SpecFloat.emin in Hv.
    apply andb_prop in Hv as [Hc _]. apply Z.eqb_eq in Hc.
    change prec with 53 in Hc. change emax with 1024 in Hc.
    pose proof (digits2_pos_lower m) as Hd.
    unfold SFleb, SFcompare in H.
    change (PosDef.Pos.compare_cont Eq 4503599627370496 m)
      with (Pos.compare 4503599627370496 m) in H.
    destruct (Z.compare_spec (-52) e) as [He|He|He]; [| |discriminate].
    + split; [lia|].
      destruct (Pos.compare_spec 4503599627370496 m) as [Hm|Hm|Hm];
        [lia | lia | discriminate].
    + split; [lia|].
      assert (Hdig : Z.pos (digits2_pos m) - 1 = 52) by lia.
      rewrite Hdig in Hd. exact Hd.
Qed.

Lemma ceiling_test (m d n : Z) :
  0 < d ->
  (m <=? n * d) = (m / d + (if m mod d =? 0 then 0 else 1) <=? n).
Proof.
  intros Hd. pose proof (Z.div_mod m d ltac:(lia)) as Hm.
  pose proof (Z.mod_pos_bound m d Hd) as Hr.
  destruct (Z.eqb_spec (m mod d) 0) as [H0|H0];
    destruct (Z.leb_spec m (n * d)), (Z.leb_spec (m / d + (if false then 0 else 1)) n);
    destruct (Z.leb_spec (m / d + 0) n); try reflexivity; nia.
Qed.

Lemma floored_view (t : float) :
  PrimFloat.is_nan t = true \/ PrimFloat.leb 1 t = true -> triggerView t.
Proof.
  intros [Hn|Hl].
  - pose proof (proj1 (is_nan_view t) Hn) as E.
    apply view_nan; [exact Hn | |]; unfold geb_number, ToIntegerOrInfinity;
      now rewrite E.
  - destruct (leb_1_view t Hl) as [E|(m & e & E & He & Hm)].
    + apply view_unbounded; unfold geb_number, ToIntegerOrInfinity; now rewrite E.
    + destruct (Z.leb_spec 0 e) as [Hpos|Hneg].
      * apply (view_count t (Z.pos m * 2 ^ e) (Z.pos m * 2 ^ e)).
        -- pose proof (Z.pow_pos_nonneg 2 e ltac:(lia) Hpos). nia.
        -- lia.
        -- intros n. unfold geb_number. rewrite E.
           destruct (Z.leb_spec 0 e); [reflexivity | lia].
        -- unfold ToIntegerOrInfinity. rewrite E.
           destruct (Z.leb_spec 0 e); [reflexivity | lia].
      * assert (Hd : 0 < 2 ^ (- e)) by (apply Z.pow_pos_nonneg; lia).
        assert (Hle : 2 ^ (- e) <= 4503599627370496).
        { change 4503599627370496 with (2 ^ 52).
          apply Z.pow_le_mono_r; lia. }
        apply (view_count t (Z.pos m / 2 ^ (- e))
                 (Z.pos m / 2 ^ (- e)
                  + (if Z.pos m mod 2 ^ (- e) =? 0 then 0 else 1))).
        -- apply Z.div_le_lower_bound; lia.
        -- destruct (_ =? 0); lia.
        -- intros n. unfold geb_number. rewrite E.
           destruct (Z.leb_spec 0 e); [lia|]. now apply ceiling_test.
        -- unfold ToIntegerOrInfinity. rewrite E.
           destruct (Z.leb_spec 0 e); [lia|].
           rewrite Z.quot_div_nonneg by lia. reflexivity.
Qed.

(** On lengths up to 70 and a range of numbers, [geb_number] is the
    comparison of binary64 numbers applied to the length converted to a
    number. *)
Example geb_number_is_the_comparison_of_numbers :
  forallb
    (fun x =>
       forallb (fun n =>
                  Bool.eqb (geb_number (Z.of_nat n) x)
                           (PrimFloat.leb x (number_of_Z (Z.of_nat n))))
               (seq 0 71))
    [PrimFloat.nan; PrimFloat.infinity; PrimFloat.neg_infinity;
     0%float; (-0)%float; 0.5%float; 1%float; 1.5%float; 2%float; 2.5%float;
     49.999%float; 50%float; 50.000001%float; 69.5%float; 1e300%float;
     (-3.5)%float; 4503599627370497%float]
  = true.
Proof. vm_compute. reflexivity. Qed.

(** What [splice] takes from an array of five elements, for a range of
    counts. *)
Example actualDeleteCount_samples :
  map (fun x => actualDeleteCount x 5)
      [PrimFloat.nan; PrimFloat.infinity; PrimFloat.neg_infinity;
       0%float; 0.9%float; 1%float; 2.5%float; 5%float; 7%float; (-2)%float]
  = [0; 5; 0; 0; 0; 1; 2; 5; 5; 0]%nat.
Proof. vm_compute. reflexivity. Qed.

Lemma actualDeleteCount_le (t : float) (len : nat) :
  (actualDeleteCount t len <= len)%nat.
Proof.
  unfold actualDeleteCount. destruct (ToIntegerOrInfinity t); lia.
Qed.

Lemma actualDeleteCount_floor (t : float) (len : nat) :
  PrimFloat.leb 1 t = true -> (0 < len)%nat ->
  (0 < actualDeleteCount t len)%nat.
Proof.
  intros Ht Hlen. unfold actualDeleteCount.
  destruct (floored_view t (or_intror Ht)) as [Hn _ _|_ ->|f c Hf _ _ ->];
    [|lia|lia].
  apply is_nan_view in Hn. rewrite leb_spec, Hn in Ht.
  unfold SFleb in Ht. now destruct (Prim2SF 1).
Qed.

Lemma actualDeleteCount_nan (t : float) (len : nat) :
  PrimFloat.is_nan t = true -> actualDeleteCount t len = 0%nat.
Proof.
  intros Hn. apply is_nan_view in Hn.
  unfold actualDeleteCount, ToIntegerOrInfinity. rewrite Hn. lia.
Qed.

Lemma geb_number_nan (n : Z) (t : float) :
  PrimFloat.is_nan t = true -> geb_number n t = false.
Proof.
  intros Hn. apply is_nan_view in Hn. unfold geb_number. now rewrite Hn.
Qed.

(* ------------------------------------------------------------------ *)
(** ** ValidatedEvent.toJSON *)

(** C3, as the specification states it, fails on an event with
    [sampleRate] 1 and no timestamp: the encoded object carries
    [samplerate: 1] and has no [time] key. *)
Lemma C3_counterexample :
  sampleRate ev_untimed = Some 1%float /\
  lookup "samplerate" (toJSON ev_untimed) = Some (VNumber 1) /\
  lookup "time" (toJSON ev_untimed) = None.
Proof. repeat split; reflexivity. Qed.

(** C3 (amended): the encoded object has key [time] carrying the timestamp
    exactly when the timestamp is truthy, key [samplerate] carrying
    [sampleRate] exactly when [sampleRate] is truthy (so for 1, and not when
    it is absent, 0 or NaN), and key [data] carrying [postData] exactly when
    [postData] is truthy (so not when it is absent). *)
Theorem C3_toJSON_keys (ev : ValidatedEvent) :
  lookup "time" (toJSON ev)
    = (if truthy (timestamp ev) then Some (timestamp ev) else None) /\
  lookup "samplerate" (toJSON ev)
    = (if truthy (value_of_number (sampleRate ev))
       then Some (value_of_number (sampleRate ev)) else None) /\
  lookup "data" (toJSON ev)
    = (if truthy (postData ev) then Some (postData ev) else None) /\
  truthy (value_of_number (Some 1%float)) = true /\
  truthy (value_of_number None) = false /\
  truthy (value_of_number (Some 0%float)) = false /\
  truthy (value_of_number (Some PrimFloat.nan)) = false /\
  truthy VUndefined = false.
Proof.
  unfold toJSON.
  destruct (truthy (timestamp ev)), (truthy (value_of_number (sampleRate ev))),
    (truthy (postData ev)); simpl; repeat split; reflexivity.
Qed.

(* ------------------------------------------------------------------ *)
(** ** concatWithMaxLimit and the response queue *)

Lemma slice0_nonneg {A : Type} (arr : list A) (n : Z) :
  0 <= n -> slice0 arr n = firstn (Z.to_nat n) arr.
Proof.
  intros Hn. unfold slice0.
  destruct (Z.ltb_spec n 0); [lia | reflexivity].
Qed.

(** Under a non-negative limit the result is the first [limit] elements
    of the concatenation. *)
Lemma concatWithMaxLimit_firstn {A : Type} (q r : list A) (L : Z) :
  0 <= L -> concatWithMaxLimit q r L = firstn (Z.to_nat L) (q ++ r).
Proof.
  intros HL. unfold concatWithMaxLimit.
  destruct (Z.geb_spec (Z.of_nat (List.length q)) L) as [Hge|Hlt].
  - rewrite slice0_nonneg by assumption.
    rewrite firstn_app.
    replace (Z.to_nat L - List.length q)%nat with 0%nat by lia.
    simpl. now rewrite app_nil_r.
  - destruct (Z.gtb_spec (Z.of_nat (List.length q) + Z.of_nat (List.length r)) L)
      as [Hgt|Hle].
    + rewrite slice0_nonneg by lia.
      rewrite firstn_app, (firstn_all2 q) by lia.
      replace (Z.to_nat L - List.length q)%nat
        with (Z.to_nat (L - Z.of_nat (List.length q))) by lia.
      reflexivity.
    + rewrite firstn_all2; [reflexivity|].
      rewrite length_app. lia.
Qed.

Lemma concatWithMaxLimit_length {A : Type} (q r : list A) (L : Z) :
  0 <= L ->
  Z.of_nat (List.length (concatWithMaxLimit q r L))
    = Z.min L (Z.of_nat (List.length q) + Z.of_nat (List.length r)).
Proof.
  intros HL. rewrite concatWithMaxLimit_firstn by assumption.
  rewrite length_firstn, length_app. lia.
Qed.

Lemma responseQueue_bounded {A : Type} (L : Z) (batches : list (list A))
    (this : Libhoney.t A) :
  0 <= L ->
  Libhoney.maxResponseQueueSize this = L ->
  Z.of_nat (List.length (Libhoney._responseQueue this)) <= L ->
  Libhoney.maxResponseQueueSize (fold_left Libhoney._responseCallback batches this) = L /\
  Z.of_nat (List.length
              (Libhoney._responseQueue
                 (fold_left Libhoney._responseCallback batches this))) <= L.
Proof.
  intros HL. revert this.
  induction batches as [|b batches IH]; intros this Hlim Hlen; simpl.
  - split; assumption.
  - apply IH; simpl; [assumption|].
    rewrite Hlim, concatWithMaxLimit_length by assumption. lia.
Qed.

(** C10: for a limit [L >= 0], [concatWithMaxLimit q r L] has length
    [min L (|q| + |r|)] when [|q| < L] and length [L] when [|q| >= L]; it is
    the first [L] elements of [q] followed by [r], so [q] comes first, then a
    prefix of [r], and what is dropped is the tail; and the response queue of
    a Libhoney instance, fed any sequence of response arrays, never holds
    more than [maxResponseQueueSize] elements. *)
Theorem C10_concatWithMaxLimit {A : Type} (q r : list A) (L : Z) :
  0 <= L ->
  (Z.of_nat (List.length q) < L ->
   Z.of_nat (List.length (concatWithMaxLimit q r L))
     = Z.min L (Z.of_nat (List.length q) + Z.of_nat (List.length r))) /\
  (Z.of_nat (List.length q) >= L ->
   Z.of_nat (List.length (concatWithMaxLimit q r L)) = L) /\
  concatWithMaxLimit q r L = firstn (Z.to_nat L) (q ++ r) /\
  (Z.of_nat (List.length q) <= L ->
   concatWithMaxLimit q r L
     = q ++ firstn (Z.to_nat L - List.length q) r) /\
  (forall batches : list (list A),
     Z.of_nat (List.length
                 (Libhoney._responseQueue
                    (fold_left Libhoney._responseCallback batches
                               (Libhoney.init L)))) <= L).
Proof.
  intros HL. repeat split.
  - intros _. now apply concatWithMaxLimit_length.
  - intros Hge. rewrite concatWithMaxLimit_length by assumption. lia.
  - now apply concatWithMaxLimit_firstn.
  - intros Hle. rewrite concatWithMaxLimit_firstn by assumption.
    rewrite firstn_app, (firstn_all2 q) by lia. reflexivity.
  - intros batches.
    apply (responseQueue_bounded L batches (Libhoney.init L)); simpl;
      [assumption | reflexivity | lia].
Qed.

Lemma C10_witness :
  0 <= 4 /\
  concatWithMaxLimit [1; 2; 3] [4; 5; 6] 4 = [1; 2; 3; 4] /\
  Z.of_nat (List.length (concatWithMaxLimit [1; 2; 3; 4; 5] [6] 4)) = 4.
Proof.
  split; [lia|]. split.
  - exact (proj1 (proj2 (proj2 (C10_concatWithMaxLimit [1; 2; 3] [4; 5; 6] 4
                                   ltac:(lia))))).
  - apply (C10_concatWithMaxLimit [1; 2; 3; 4; 5] [6] 4 ltac:(lia)).
    simpl. lia.
Defined.

(* ------------------------------------------------------------------ *)
(** ** The user-agent header *)

(** C2, as the specification states it, fails: the name of the
    user-agent header does not depend on the runtime.  The test that chooses
    it compares the string literals ["node"] and ["browser"], so the request
    issued on any platform, a browser included, carries [User-Agent] and no
    [X-Honeycomb-UserAgent]; here for the event of the suite's browser
    test. *)
Lemma C2_counterexample :
  (exists events request,
     @startPartition sample_platform (constructor Options.empty)
        (Batch.mk "http://localhost:9999" "123456789" "browser-test" [ev1])
       = StartFetch events request /\
     lookup "X-Honeycomb-UserAgent" (Request.headers request) = None /\
     lookup "User-Agent" (Request.headers request)
       = Some "libhoney-js/3.1.1"%string) /\
  (forall (P : Platform) (this : Transmission) (batch : Batch.t),
     lookup "X-Honeycomb-UserAgent" (@requestHeaders P this batch) = None).
Proof.
  split.
  - eexists. eexists. split; [reflexivity|]. split; reflexivity.
  - intros P this batch. reflexivity.
Qed.

(** C2 (amended): on every platform, every request the partition handler
    issues is a POST with three headers: the write key of the partition under
    [X-Honeycomb-Team], the libhoney user-agent value under [User-Agent], and
    the content type; there is no [X-Honeycomb-UserAgent].  The user-agent
    value is [libhoney-js/3.1.1], followed by a space and the trimmed
    [userAgentAddition] when that is not empty. *)
Theorem C2_user_agent_header {P : Platform} (this : Transmission)
    (batch : Batch.t) (events : list ValidatedEvent) (request : Request.t) :
  startPartition this batch = StartFetch events request ->
  Request.method request = "POST"%string /\
  Request.headers request
    = [("X-Honeycomb-Team"%string, Batch.writeKey batch);
       ("User-Agent"%string, userAgent this);
       ("Content-Type"%string, "application/json"%string)] /\
  lookup "User-Agent" (Request.headers request) = Some (userAgent this) /\
  lookup "X-Honeycomb-UserAgent" (Request.headers request) = None /\
  userAgent this
    = (if String.eqb (trim (_userAgentAddition this)) ""
       then "libhoney-js/3.1.1"
       else "libhoney-js/3.1.1 " ++ trim (_userAgentAddition this))%string.
Proof.
  unfold startPartition. intros H.
  destruct (URL_href _ _) as [url|e]; [|discriminate].
  destruct (encodeBatchEvents (Batch.events batch)) as [[encoded n] evs].
  destruct (n =? 0); [discriminate|].
  injection H as _ <-. simpl.
  repeat split.
  unfold userAgent. simpl.
  destruct (String.eqb (trim (_userAgentAddition this)) ""); reflexivity.
Qed.

Lemma C2_witness :
  let options :=
    Options.mk None None None None None (Some "addition"%string) in
  exists events request,
    @startPartition sample_platform (constructor options)
       (Batch.mk "http://localhost:9999" "123456789" "browser-test" [ev1])
      = StartFetch events request /\
    Request.headers request
      = [("X-Honeycomb-Team"%string, "123456789"%string);
         ("User-Agent"%string, "libhoney-js/3.1.1 addition"%string);
         ("Content-Type"%string, "application/json"%string)].
Proof.
  cbv zeta. eexists. eexists.
  assert (H : @startPartition sample_platform
                (constructor
                   (Options.mk None None None None None (Some "addition"%string)))
                (Batch.mk "http://localhost:9999" "123456789" "browser-test" [ev1])
              = StartFetch _ _) by reflexivity.
  split; [exact H|].
  destruct (@C2_user_agent_header sample_platform _ _ _ _ H)
    as (_ & Hh & _ & _ & Hu).
  rewrite Hh, Hu. reflexivity.
Defined.

(* ------------------------------------------------------------------ *)
(** ** Intake: sampling and overflow *)

Lemma snoc_neq_self {A : Type} (l : list A) (x : A) : l ++ [x] <> l.
Proof.
  intros H. apply (f_equal (@List.length A)) in H.
  rewrite length_app in H. simpl in H. lia.
Qed.

(** [sendPresampledEvent] never reports an event as dropped by
    sampling: what it adds to the log of the callback, if anything, is a queue
    overflow. *)
Lemma sendPresampledEvent_responses (this : Transmission) (ev : ValidatedEvent) :
  responses (sendPresampledEvent this ev) = responses this \/
  responses (sendPresampledEvent this ev)
    = responses this
      ++ [[Outcome.mk None None (metadata ev)
             (VError (mkError "Error" "queue overflow" None false))]].
Proof.
  unfold sendPresampledEvent. destruct (_ >=? _); [now right|]. left.
  destruct (geb_number _ _); unfold _sendBatch, _ensureSendTimeout,
    _clearSendTimeout; simpl.
  - destruct (_ =? _); [reflexivity|]. destruct (_sendTimeoutId this); reflexivity.
  - destruct (_sendTimeoutId this); reflexivity.
Qed.

(** C7: for an event whose sample rate is [s] and a random source that
    returns [r], [sendEvent] does what [sendPresampledEvent] does exactly
    when [s <= 1] or [r < 1 / s], the comparisons and the division being
    those of binary64 numbers.  Otherwise all it does is call the response
    callback once, with a single outcome that carries the metadata of the
    event and an error reading "event dropped due to sampling": the queue, the
    in-flight batches and their count, the timers and the requests issued are
    those of the state before. *)
Theorem C7_sendEvent_sampling (this : Transmission) (ev : ValidatedEvent)
    (s r : float) :
  sampleRate ev = Some s ->
  (sendEvent this ev r = sendPresampledEvent this ev <->
   PrimFloat.leb s 1 || PrimFloat.ltb r (PrimFloat.div 1 s) = true) /\
  (PrimFloat.leb s 1 || PrimFloat.ltb r (PrimFloat.div 1 s) = false ->
   sendEvent this ev r
     = set_responses this
         (responses this
          ++ [[Outcome.mk None None (metadata ev)
                 (VError (mkError "Error" "event dropped due to sampling"
                                  None false))]]) /\
   _eventQueue (sendEvent this ev r) = _eventQueue this /\
   running (sendEvent this ev r) = running this /\
   _batchCount (sendEvent this ev r) = _batchCount this /\
   timers (sendEvent this ev r) = timers this /\
   fetches (sendEvent this ev r) = fetches this).
Proof.
  intros Hs.
  assert (Hshould : _shouldSendEvent ev r
                    = PrimFloat.leb s 1 || PrimFloat.ltb r (PrimFloat.div 1 s)).
  { unfold _shouldSendEvent, sampleRate_number. rewrite Hs.
    now destruct (PrimFloat.leb s 1). }
  unfold sendEvent. rewrite Hshould.
  destruct (PrimFloat.leb s 1 || PrimFloat.ltb r (PrimFloat.div 1 s)); simpl.
  - split; [split; reflexivity | discriminate].
  - split; [|intros _; repeat split].
    split; [|discriminate]. intros H. exfalso.
    apply (f_equal responses) in H. simpl in H.
    destruct (sendPresampledEvent_responses this ev) as [E|E];
      rewrite E in H.
    + now apply snoc_neq_self in H.
    + apply app_inv_head in H. discriminate.
Qed.

Lemma C7_witness :
  let ev := mkEvent (VDate 0) "http://localhost:9999" good_data "123456789"
                    "test-transmission" (Some 10%float) (VString "sampled") None in
  sampleRate ev = Some 10%float /\
  _eventQueue (sendEvent (constructor Options.empty) ev 0.09%float) = [ev] /\
  responses (sendEvent (constructor Options.empty) ev 0.09%float) = [] /\
  _eventQueue (sendEvent (constructor Options.empty) ev 0.11%float) = [] /\
  responses (sendEvent (constructor Options.empty) ev 0.11%float)
    = [[Outcome.mk None None (VString "sampled")
          (VError (mkError "Error" "event dropped due to sampling" None false))]].
Proof.
  cbv zeta. split; [reflexivity|].
  destruct (C7_sendEvent_sampling (constructor Options.empty)
              (mkEvent (VDate 0) "http://localhost:9999" good_data "123456789"
                       "test-transmission" (Some 10%float) (VString "sampled")
                       None)
              10%float 0.09%float eq_refl) as [Hadmit _].
  destruct (C7_sendEvent_sampling (constructor Options.empty)
              (mkEvent (VDate 0) "http://localhost:9999" good_data "123456789"
                       "test-transmission" (Some 10%float) (VString "sampled")
                       None)
              10%float 0.11%float eq_refl) as [_ Hdrop].
  rewrite (proj2 Hadmit eq_refl).
  destruct (Hdrop eq_refl) as (E & Hq & _).
  split; [reflexivity|]. split; [reflexivity|].
  split; [rewrite Hq; reflexivity | rewrite E; reflexivity].
Defined.

(** The two sampling tests of the suite: rate 10 with the random source
    fixed to 0.09 and to 0.11. *)
Example sampling_rate_10 :
  let ev := mkEvent (VDate 0) "http://localhost:9999" good_data "123456789"
                    "test-transmission" (Some 10%float) VNull None in
  _shouldSendEvent ev 0.09%float = true /\
  _shouldSendEvent ev 0.11%float = false /\
  _eventQueue (sendEvent (constructor Options.empty) ev 0.11%float) = [] /\
  fetches (sendEvent (constructor Options.empty) ev 0.11%float) = [] /\
  _eventQueue (sendEvent (constructor Options.empty) ev 0.09%float) = [ev].
Proof. repeat split; reflexivity. Qed.

Lemma _ensureSendTimeout_responses (this : Transmission) :
  responses (_ensureSendTimeout this) = responses this.
Proof. unfold _ensureSendTimeout. destruct (_sendTimeoutId this); reflexivity. Qed.

Lemma _sendBatch_responses (this : Transmission) :
  responses (_sendBatch this) = responses this.
Proof.
  unfold _sendBatch, _clearSendTimeout.
  destruct (_batchCount this =? maxConcurrentBatches); [reflexivity|].
  destruct (_sendTimeoutId this); reflexivity.
Qed.

(** C6: with the queue at or over [pendingWorkCapacity],
    [sendPresampledEvent] calls the response callback once, with a single
    outcome whose error reads "queue overflow" and whose metadata is the
    event's, and changes nothing else: queue, timer handle, pending timers and
    in-flight count are as before.  Below capacity it calls no callback: the
    event is pushed on the queue, and the size trigger or the timer is applied
    to the queue so extended. *)
Theorem C6_queue_overflow (this : Transmission) (ev : ValidatedEvent) :
  (Z.of_nat (List.length (_eventQueue this)) >= _pendingWorkCapacity this ->
   sendPresampledEvent this ev
     = set_responses this
         (responses this
          ++ [[Outcome.mk None None (metadata ev)
                 (VError (mkError "Error" "queue overflow" None false))]]) /\
   _eventQueue (sendPresampledEvent this ev) = _eventQueue this /\
   _sendTimeoutId (sendPresampledEvent this ev) = _sendTimeoutId this /\
   timers (sendPresampledEvent this ev) = timers this /\
   _batchCount (sendPresampledEvent this ev) = _batchCount this /\
   running (sendPresampledEvent this ev) = running this) /\
  (Z.of_nat (List.length (_eventQueue this)) < _pendingWorkCapacity this ->
   responses (sendPresampledEvent this ev) = responses this /\
   sendPresampledEvent this ev
     = (if geb_number (Z.of_nat (List.length (_eventQueue this ++ [ev])))
                      (_batchSizeTrigger this)
        then _sendBatch (set_eventQueue this (_eventQueue this ++ [ev]))
        else _ensureSendTimeout (set_eventQueue this (_eventQueue this ++ [ev])))).
Proof.
  unfold sendPresampledEvent. split; intros H.
  - destruct (Z.geb_spec (Z.of_nat (List.length (_eventQueue this)))
                         (_pendingWorkCapacity this)); [|lia].
    repeat split.
  - destruct (Z.geb_spec (Z.of_nat (List.length (_eventQueue this)))
                         (_pendingWorkCapacity this)); [lia|].
    split; [|reflexivity]. simpl.
    destruct (geb_number _ _);
      [rewrite _sendBatch_responses | rewrite _ensureSendTimeout_responses];
      reflexivity.
Qed.

Lemma C6_witness :
  let full := set_eventQueue (constructor (Options.mk None None None (Some 1) None None)) [ev1] in
  Z.of_nat (List.length (_eventQueue full)) >= _pendingWorkCapacity full /\
  responses (sendPresampledEvent full ev2)
    = [[Outcome.mk None None (VString "m2")
          (VError (mkError "Error" "queue overflow" None false))]] /\
  _eventQueue (sendPresampledEvent full ev2) = [ev1] /\
  Z.of_nat (List.length (_eventQueue (constructor Options.empty)))
    < _pendingWorkCapacity (constructor Options.empty) /\
  responses (sendPresampledEvent (constructor Options.empty) ev1) = [].
Proof.
  cbv zeta.
  pose proof (C6_queue_overflow
                (set_eventQueue
                   (constructor (Options.mk None None None (Some 1) None None))
                   [ev1]) ev2) as [Hover _].
  pose proof (C6_queue_overflow (constructor Options.empty) ev1) as [_ Hunder].
  split; [simpl; lia|].
  destruct (Hover ltac:(simpl; lia)) as (Heq & Hq & _).
  split; [rewrite Heq; reflexivity|].
  split; [rewrite Hq; reflexivity|].
  split; [simpl; unfold pendingWorkCapacity; lia|].
  destruct (Hunder ltac:(simpl; unfold pendingWorkCapacity; lia)) as (Hr & _).
  rewrite Hr. reflexivity.
Defined.

(* ------------------------------------------------------------------ *)
(** ** The dispatcher *)

Ltac open_ops :=
  unfold sendEvent, sendPresampledEvent, _droppedCallback, _responseCallback,
    finishBatch, _sendBatch, _ensureSendTimeout, _clearSendTimeout, flush in *.

Ltac split_ops :=
  repeat match goal with
    | |- context [if ?c then _ else _] => destruct c eqn:?
    | |- context [match ?x with _ => _ end] => destruct x eqn:?
    end.

Lemma length_replace_nth {A : Type} (k : nat) (x : A) (l : list A) :
  List.length (replace_nth k x l) = List.length l.
Proof.
  revert k. induction l as [|y l IH]; intros [|k]; simpl; auto.
Qed.

Lemma length_remove_nth {A : Type} (k : nat) (l : list A) (x : A) :
  nth_error l k = Some x ->
  S (List.length (remove_nth k l)) = List.length l.
Proof.
  revert k. induction l as [|y l IH]; intros [|k]; simpl; try discriminate; auto.
Qed.

(** The partition handler touches the callback log, the request log and
    the console only. *)
Lemma sendPartition_frame {P : Platform} (this this' : Transmission)
    (batch : Batch.t) (clock : Clock) (result : FetchResult) (threw : bool) :
  sendPartition this batch clock result = (this', threw) ->
  config this' = config this /\
  _batchCount this' = _batchCount this /\
  running this' = running this /\
  _eventQueue this' = _eventQueue this /\
  flushCallback this' = flushCallback this /\
  promises this' = promises this /\
  resolved this' = resolved this /\
  timers this' = timers this /\
  _sendTimeoutId this' = _sendTimeoutId this.
Proof.
  unfold sendPartition.
  destruct (startPartition this batch); intros H; injection H as <- _;
    repeat split.
Qed.

Lemma step_config {P : Platform} (this this' : Transmission) (i : Input) :
  step this i = Some this' -> config this' = config this.
Proof.
  destruct i; simpl; intros H.
  - injection H as <-. open_ops. split_ops; reflexivity.
  - injection H as <-. open_ops. split_ops; reflexivity.
  - injection H as <-. open_ops. split_ops; reflexivity.
  - destruct (in_dec _ _ _); [|discriminate]. injection H as <-.
    open_ops. split_ops; reflexivity.
  - destruct (nth_error _ _) as [[|batch rest]|]; try discriminate.
    destruct (sendPartition this batch clock result) as [t threw] eqn:E.
    injection H as <-. apply sendPartition_frame in E as (E & _). exact E.
  - destruct (nth_error _ _) as [[|batch rest]|]; try discriminate.
    injection H as <-. open_ops. split_ops; reflexivity.
Qed.

Lemma reachable_config {P : Platform} (options : Options.t) (this : Transmission) :
  reachable options this -> config this = config (constructor options).
Proof.
  induction 1 as [|this i this' _ IH Hstep]; [reflexivity|].
  rewrite (step_config _ _ _ Hstep). exact IH.
Qed.

(** States that agree on the fields the invariant reads. *)
Lemma invariant_frame (this this' : Transmission) :
  _batchCount this' = _batchCount this ->
  List.length (running this') = List.length (running this) ->
  flushCallback this' = flushCallback this ->
  promises this' = promises this ->
  resolved this' = resolved this ->
  invariant this -> invariant this'.
Proof.
  intros Hc Hr Hf Hp Hs [I1 I2 I3 I4 I5].
  constructor; rewrite ?Hc, ?Hr, ?Hf, ?Hp, ?Hs; assumption.
Qed.

Lemma invariant_constructor (options : Options.t) :
  invariant (constructor options).
Proof.
  constructor; simpl; try reflexivity.
  - unfold maxConcurrentBatches. lia.
  - discriminate.
  - contradiction.
  - constructor.
Qed.

Lemma invariant_ensureSendTimeout (this : Transmission) :
  invariant this -> invariant (_ensureSendTimeout this).
Proof.
  apply invariant_frame; unfold _ensureSendTimeout;
    destruct (_sendTimeoutId this); reflexivity.
Qed.

Lemma invariant_sendBatch (this : Transmission) :
  invariant this -> invariant (_sendBatch this).
Proof.
  intros [I1 I2 I3 I4 I5]. unfold _sendBatch.
  destruct (Z.eqb_spec (_batchCount this) maxConcurrentBatches) as [|Hne];
    [constructor; assumption|].
  unfold _clearSendTimeout.
  destruct (_sendTimeoutId this); constructor; simpl;
    rewrite ?length_app; simpl; try assumption; lia.
Qed.

Lemma invariant_sendPresampledEvent (this : Transmission) (ev : ValidatedEvent) :
  invariant this -> invariant (sendPresampledEvent this ev).
Proof.
  intros I. unfold sendPresampledEvent.
  destruct (_ >=? _).
  - revert I. apply invariant_frame; reflexivity.
  - assert (I' : invariant (set_eventQueue this (_eventQueue this ++ [ev])))
      by (revert I; apply invariant_frame; reflexivity).
    destruct (geb_number _ _);
      [apply invariant_sendBatch | apply invariant_ensureSendTimeout];
      exact I'.
Qed.

Lemma invariant_sendEvent (this : Transmission) (ev : ValidatedEvent)
    (random : float) :
  invariant this -> invariant (sendEvent this ev random).
Proof.
  intros I. unfold sendEvent. destruct (negb _).
  - revert I. apply invariant_frame; reflexivity.
  - now apply invariant_sendPresampledEvent.
Qed.

Lemma invariant_flush (this : Transmission) :
  invariant this -> invariant (snd (flush this)).
Proof.
  intros [I1 I2 I3 I4 I5]. unfold flush.
  destruct (_ && _); simpl; [constructor; assumption|].
  constructor; simpl; try assumption.
  - intros p Hp. injection Hp as <-. split; [lia|].
    intros Hin. apply I4 in Hin. lia.
  - intros p Hin. apply I4 in Hin. lia.
Qed.

(** [finishBatch] from a state whose suspended invocation has just been
    taken off the list. *)
Lemma invariant_finishBatch (this : Transmission) :
  _batchCount this = Z.of_nat (List.length (running this)) + 1 ->
  _batchCount this <= maxConcurrentBatches ->
  (forall p, flushCallback this = Some p ->
             (p < promises this)%nat /\ ~ In p (resolved this)) ->
  (forall p, In p (resolved this) -> (p < promises this)%nat) ->
  NoDup (resolved this) ->
  invariant (finishBatch this).
Proof.
  intros I1 I2 I3 I4 I5. unfold finishBatch.
  assert (I : invariant (set_batchCount this (_batchCount this - 1)))
    by (constructor; simpl; try assumption; lia).
  destruct (_ >? 0).
  - destruct (geb_number _ _);
      [apply invariant_sendBatch | apply invariant_ensureSendTimeout]; exact I.
  - simpl. destruct (_ =? 0); [|exact I].
    destruct (flushCallback this) as [p|] eqn:Hf; [|exact I].
    destruct (I3 p eq_refl) as [Hlt Hnew].
    constructor; simpl; try lia.
    + discriminate.
    + intros q Hin. apply in_app_or in Hin as [Hin|[<-|[]]]; auto.
    + apply NoDup_app; [assumption | constructor; [easy | constructor] |].
      intros q Hin [<-|[]]. contradiction.
Qed.

Lemma invariant_step {P : Platform} (this this' : Transmission) (i : Input) :
  invariant this -> step this i = Some this' -> invariant this'.
Proof.
  intros I. destruct i; simpl; intros H.
  - injection H as <-. now apply invariant_sendEvent.
  - injection H as <-. now apply invariant_sendPresampledEvent.
  - injection H as <-. now apply invariant_flush.
  - destruct (in_dec _ _ _); [|discriminate]. injection H as <-.
    apply invariant_sendBatch. revert I. apply invariant_frame; reflexivity.
  - destruct (nth_error _ _) as [[|batch rest]|]; try discriminate.
    destruct (sendPartition this batch clock result) as [t threw] eqn:E.
    injection H as <-.
    apply sendPartition_frame in E as (_ & Hc & Hr & _ & Hf & Hp & Hs & _).
    revert I. apply invariant_frame; simpl; try assumption.
    rewrite length_replace_nth. now rewrite Hr.
  - destruct (nth_error _ _) as [[|batch rest]|] eqn:Hk; try discriminate.
    injection H as <-. destruct I as [I1 I2 I3 I4 I5].
    apply invariant_finishBatch; simpl; try assumption.
    apply length_remove_nth in Hk. lia.
Qed.

Lemma reachable_invariant {P : Platform} (options : Options.t)
    (this : Transmission) :
  reachable options this -> invariant this.
Proof.
  induction 1 as [|this i this' _ IH Hstep].
  - apply invariant_constructor.
  - exact (invariant_step _ _ _ IH Hstep).
Qed.

Lemma run_reachable {P : Platform} (options : Options.t)
    (inputs : list Input) :
  forall this this',
    reachable options this -> run this inputs = Some this' ->
    reachable options this'.
Proof.
  induction inputs as [|i inputs IH]; simpl; intros this this' R H.
  - now injection H as <-.
  - destruct (step this i) as [t|] eqn:E; [|discriminate].
    apply (IH t); [|exact H]. exact (reach_step _ _ _ _ R E).
Qed.

(** Whatever the options, the in-flight count stays between 0 and the
    module constant [maxConcurrentBatches], which is 10. *)
Lemma batchCount_within_constant {P : Platform} (options : Options.t)
    (this : Transmission) :
  reachable options this -> 0 <= _batchCount this <= 10.
Proof.
  intros R. destruct (reachable_invariant _ _ R) as [I1 I2 _ _ _].
  unfold maxConcurrentBatches in I2. lia.
Qed.

(** C1: with [maxConcurrentBatches: 1] and [batchSizeTrigger: 1] two
    events are sent.  After the first the in-flight count is 1, the
    configured maximum; the cut made for the second, with that event on the
    queue, is not refused: it takes the event and raises the count to 2, above
    the configured maximum.  [_sendBatch] compares the count with the module
    constant 10, not with the stored option. *)
Theorem C1_configured_limit_exceeded :
  let options := Options.mk (Some 1%float) None (Some 1) None None None in
  let one := sendPresampledEvent (constructor options) ev1 in
  let pushed := set_eventQueue one (_eventQueue one ++ [ev2]) in
  let two := sendPresampledEvent one ev2 in
  @run sample_platform (constructor options)
     [CallSendPresampledEvent ev1; CallSendPresampledEvent ev2] = Some two /\
  _batchCount one = _maxConcurrentBatches one /\
  _eventQueue pushed = [ev2] /\
  _eventQueue (_sendBatch pushed) = [] /\
  _batchCount (_sendBatch pushed) = _batchCount pushed + 1 /\
  two = _sendBatch pushed /\
  _maxConcurrentBatches two = 1 /\
  _batchCount two = 2.
Proof. repeat split; reflexivity. Qed.

Lemma _sendBatch_refused (this : Transmission) :
  _batchCount this = maxConcurrentBatches -> _sendBatch this = this.
Proof. intros H. unfold _sendBatch. now rewrite H. Qed.

(** A cut that is not refused, field by field. *)
Lemma _sendBatch_proceeds (this : Transmission) :
  _batchCount this <> maxConcurrentBatches ->
  _eventQueue (_sendBatch this)
    = skipn (actualDeleteCount (_batchSizeTrigger this)
                               (List.length (_eventQueue this)))
            (_eventQueue this) /\
  running (_sendBatch this)
    = running this
      ++ [map snd (BatchEndpointAggregator
                     (firstn (actualDeleteCount (_batchSizeTrigger this)
                                                (List.length (_eventQueue this)))
                             (_eventQueue this)))] /\
  _batchCount (_sendBatch this) = _batchCount this + 1 /\
  _sendTimeoutId (_sendBatch this) = None /\
  timers (_sendBatch this)
    = match _sendTimeoutId this with
      | Some id => List.remove Nat.eq_dec id (timers this)
      | None => timers this
      end /\
  config (_sendBatch this) = config this /\
  responses (_sendBatch this) = responses this /\
  fetches (_sendBatch this) = fetches this.
Proof.
  intros H. unfold _sendBatch.
  destruct (Z.eqb_spec (_batchCount this) maxConcurrentBatches); [contradiction|].
  unfold _clearSendTimeout.
  destruct (_sendTimeoutId this) eqn:E; simpl; rewrite ?E; repeat split.
Qed.

Lemma _ensureSendTimeout_frame (this : Transmission) :
  _eventQueue (_ensureSendTimeout this) = _eventQueue this /\
  running (_ensureSendTimeout this) = running this /\
  _batchCount (_ensureSendTimeout this) = _batchCount this /\
  config (_ensureSendTimeout this) = config this /\
  responses (_ensureSendTimeout this) = responses this /\
  fetches (_ensureSendTimeout this) = fetches this.
Proof.
  unfold _ensureSendTimeout. destruct (_sendTimeoutId this); repeat split.
Qed.

(* ------------------------------------------------------------------ *)
(** ** The send timer *)

Lemma remove_all_equal (id : nat) (l : list nat) :
  (forall x, In x l -> x = id) -> List.remove Nat.eq_dec id l = [].
Proof.
  induction l as [|x l IH]; simpl; intros H; [reflexivity|].
  destruct (Nat.eq_dec id x) as [_|Hne].
  - apply IH. intros y Hy. apply H. now right.
  - exfalso. apply Hne. symmetry. apply H. now left.
Qed.

Lemma timers_sound_no_handle (this : Transmission) :
  timers_sound this -> _sendTimeoutId this = None -> timers this = [].
Proof.
  intros [T1 _] Hnone. destruct (timers this) as [|id l]; [reflexivity|].
  specialize (T1 id (or_introl eq_refl)). congruence.
Qed.

Lemma timers_sound_ensureSendTimeout (this : Transmission) :
  timers_sound this -> _eventQueue this <> [] ->
  timers_sound (_ensureSendTimeout this).
Proof.
  intros T Hq. unfold _ensureSendTimeout.
  destruct (_sendTimeoutId this) eqn:E; [exact T|].
  rewrite (timers_sound_no_handle this T E). split; simpl.
  - intros id [<-|[]]. reflexivity.
  - intros _. exact Hq.
Qed.

(** A cut that is not refused leaves no timer pending. *)
Lemma timers_sound_sendBatch (this : Transmission) :
  timers_sound this -> timers_sound (_sendBatch this).
Proof.
  intros T. unfold _sendBatch.
  destruct (_ =? _); [exact T|].
  unfold _clearSendTimeout.
  destruct (_sendTimeoutId this) as [id|] eqn:E; unfold timers_sound; simpl.
  - rewrite remove_all_equal.
    + split; [contradiction | congruence].
    + intros x Hx. destruct T as [T1 _]. specialize (T1 x Hx). congruence.
  - rewrite (timers_sound_no_handle this T E).
    split; [contradiction | congruence].
Qed.

Lemma timers_sound_sendPresampledEvent (this : Transmission)
    (ev : ValidatedEvent) :
  timers_sound this -> timers_sound (sendPresampledEvent this ev).
Proof.
  intros T. unfold sendPresampledEvent.
  destruct (_ >=? _); [exact T|].
  assert (T' : timers_sound (set_eventQueue this (_eventQueue this ++ [ev]))).
  { destruct T as [T1 _]. split; simpl; [exact T1|].
    intros _ H. now apply app_eq_nil in H as [_ H]. }
  destruct (geb_number _ _).
  - now apply timers_sound_sendBatch.
  - apply timers_sound_ensureSendTimeout; [exact T'|]. simpl.
    intros H. now apply app_eq_nil in H as [_ H].
Qed.

Lemma timers_sound_finishBatch (this : Transmission) :
  timers_sound this -> timers_sound (finishBatch this).
Proof.
  intros T. unfold finishBatch.
  assert (T' : timers_sound (set_batchCount this (_batchCount this - 1)))
    by exact T.
  destruct (Z.gtb_spec (Z.of_nat (List.length
              (_eventQueue (set_batchCount this (_batchCount this - 1))))) 0)
    as [Hq|Hq]; simpl in Hq.
  - destruct (geb_number _ _).
    + now apply timers_sound_sendBatch.
    + apply timers_sound_ensureSendTimeout; [exact T'|]. simpl.
      destruct (_eventQueue this); [simpl in Hq; lia | discriminate].
  - simpl. destruct (_ =? 0); [|exact T].
    destruct (flushCallback this); exact T.
Qed.

Lemma timers_sound_step {P : Platform} (this this' : Transmission) (i : Input) :
  timers_sound this -> step this i = Some this' -> timers_sound this'.
Proof.
  intros T. destruct i; simpl; intros H.
  - injection H as <-. unfold sendEvent. destruct (negb _); [exact T|].
    now apply timers_sound_sendPresampledEvent.
  - injection H as <-. now apply timers_sound_sendPresampledEvent.
  - injection H as <-. unfold flush. destruct (_ && _); exact T.
  - destruct (in_dec _ _ _) as [Hin|]; [|discriminate]. injection H as <-.
    apply timers_sound_sendBatch. destruct T as [T1 T2].
    rewrite remove_all_equal.
    + split; simpl; [contradiction | congruence].
    + intros x Hx. pose proof (T1 x Hx). pose proof (T1 id Hin). congruence.
  - destruct (nth_error _ _) as [[|batch rest]|]; try discriminate.
    destruct (sendPartition this batch clock result) as [t threw] eqn:E.
    injection H as <-.
    apply sendPartition_frame in E as (_ & _ & _ & Hq & _ & _ & _ & Ht & Hi).
    unfold timers_sound. simpl. rewrite Hq, Ht, Hi. exact T.
  - destruct (nth_error _ _) as [[|batch rest]|]; try discriminate.
    injection H as <-. apply timers_sound_finishBatch. exact T.
Qed.

Lemma reachable_timers_sound {P : Platform} (options : Options.t)
    (this : Transmission) :
  reachable options this -> timers_sound this.
Proof.
  induction 1 as [|this i this' _ IH Hstep].
  - split; simpl; [contradiction | congruence].
  - exact (timers_sound_step _ _ _ IH Hstep).
Qed.

(* ------------------------------------------------------------------ *)
(** ** The floor of batchSizeTrigger *)

Lemma _sendBatch_takes (this : Transmission) :
  PrimFloat.leb 1 (_batchSizeTrigger this) = true ->
  _eventQueue this <> [] ->
  _batchCount this <> maxConcurrentBatches ->
  (List.length (_eventQueue (_sendBatch this))
     < List.length (_eventQueue this))%nat /\
  _batchCount (_sendBatch this) = _batchCount this + 1.
Proof.
  intros Ht Hq Hc.
  destruct (_sendBatch_proceeds this Hc) as (Eq & _ & En & _).
  rewrite Eq, En, length_skipn. split; [|reflexivity].
  assert (Hlen : (0 < List.length (_eventQueue this))%nat)
    by (destruct (_eventQueue this); [contradiction | simpl; lia]).
  pose proof (actualDeleteCount_floor _ _ Ht Hlen). lia.
Qed.

(** With NaN for a trigger a cut takes no event: the invocation it
    suspends has no partition to send. *)
Lemma _sendBatch_NaN (this : Transmission) :
  PrimFloat.is_nan (_batchSizeTrigger this) = true ->
  _eventQueue (_sendBatch this) = _eventQueue this /\
  fetches (_sendBatch this) = fetches this /\
  (running (_sendBatch this) = running this \/
   running (_sendBatch this) = running this ++ [[]]).
Proof.
  intros Hn.
  destruct (Z.eq_dec (_batchCount this) maxConcurrentBatches) as [H|H].
  - rewrite _sendBatch_refused by exact H. auto.
  - destruct (_sendBatch_proceeds this H) as (Eq & Er & _ & _ & _ & _ & _ & Ef).
    rewrite Eq, Er, Ef, actualDeleteCount_nan by exact Hn. simpl. auto.
Qed.

Lemma sendPresampledEvent_NaN (this : Transmission) (ev : ValidatedEvent) :
  PrimFloat.is_nan (_batchSizeTrigger this) = true ->
  running (sendPresampledEvent this ev) = running this /\
  fetches (sendPresampledEvent this ev) = fetches this /\
  exists added, _eventQueue (sendPresampledEvent this ev)
                = _eventQueue this ++ added.
Proof.
  intros Hn. unfold sendPresampledEvent. destruct (_ >=? _).
  - repeat split. exists []. simpl. now rewrite app_nil_r.
  - simpl. rewrite geb_number_nan by exact Hn.
    destruct (_ensureSendTimeout_frame
                (set_eventQueue this (_eventQueue this ++ [ev])))
      as (Eq & Er & _ & _ & _ & Ef).
    rewrite Eq, Er, Ef. repeat split. now exists [ev].
Qed.

Lemma finishBatch_NaN (this : Transmission) :
  PrimFloat.is_nan (_batchSizeTrigger this) = true ->
  running (finishBatch this) = running this /\
  fetches (finishBatch this) = fetches this /\
  _eventQueue (finishBatch this) = _eventQueue this.
Proof.
  intros Hn. unfold finishBatch. destruct (_ >? 0).
  - simpl. rewrite geb_number_nan by exact Hn.
    destruct (_ensureSendTimeout_frame
                (set_batchCount this (_batchCount this - 1)))
      as (Eq & Er & _ & _ & _ & Ef).
    rewrite Eq, Er, Ef. repeat split.
  - simpl. destruct (_ =? 0); [|repeat split].
    destruct (flushCallback this); repeat split.
Qed.

(** With NaN for a trigger no invocation of [_sendBatch] ever has a
    partition, no request is issued, and no event leaves the queue. *)
Lemma stalled_step {P : Platform} (this this' : Transmission) (i : Input) :
  PrimFloat.is_nan (_batchSizeTrigger this) = true ->
  Forall (fun batches => batches = []) (running this) ->
  step this i = Some this' ->
  Forall (fun batches => batches = []) (running this') /\
  fetches this' = fetches this /\
  exists added, _eventQueue this' = _eventQueue this ++ added.
Proof.
  intros Hn Hr. destruct i; simpl; intros H.
  - injection H as <-. unfold sendEvent. destruct (negb _).
    + repeat split; [exact Hr|]. exists []. simpl. now rewrite app_nil_r.
    + destruct (sendPresampledEvent_NaN this ev Hn) as (Er & Ef & Eq).
      rewrite Er, Ef. auto.
  - injection H as <-.
    destruct (sendPresampledEvent_NaN this ev Hn) as (Er & Ef & Eq).
    rewrite Er, Ef. auto.
  - injection H as <-. unfold flush. destruct (_ && _); simpl;
      (repeat split; [exact Hr|]); exists []; now rewrite app_nil_r.
  - destruct (in_dec _ _ _); [|discriminate]. injection H as <-.
    destruct (_sendBatch_NaN
                (set_timers this (List.remove Nat.eq_dec id (timers this))
                            (nextTimer this)) Hn) as (Eq & Ef & Er).
    rewrite Eq, Ef. simpl. split; [|split; [reflexivity|]].
    + destruct Er as [-> | ->]; [exact Hr|].
      apply Forall_app. split; [exact Hr | now constructor].
    + exists []. now rewrite app_nil_r.
  - destruct (nth_error (running this) k) as [[|batch rest]|] eqn:Hk;
      try discriminate.
    rewrite Forall_forall in Hr.
    pose proof (Hr _ (nth_error_In _ _ Hk)). discriminate.
  - destruct (nth_error (running this) k) as [[|batch rest]|] eqn:Hk;
      try discriminate.
    injection H as <-.
    destruct (finishBatch_NaN (set_running this (remove_nth k (running this)))
                Hn) as (Er & Ef & Eq).
    rewrite Er, Ef, Eq. simpl. split; [|split; [reflexivity|]].
    + clear - Hr. revert k.
      induction Hr as [|x l Hx Hl IH]; intros [|k]; simpl; auto.
    + exists []. now rewrite app_nil_r.
Qed.

Lemma reachable_stalled {P : Platform} (options : Options.t)
    (this : Transmission) :
  PrimFloat.is_nan (_batchSizeTrigger (constructor options)) = true ->
  reachable options this ->
  Forall (fun batches => batches = []) (running this) /\ fetches this = [].
Proof.
  intros Hn. induction 1 as [|this i this' R [IHr IHf] Hstep].
  - split; [constructor | reflexivity].
  - assert (Hn' : PrimFloat.is_nan (_batchSizeTrigger this) = true).
    { pose proof (reachable_config _ _ R) as Hc. unfold config in Hc.
      injection Hc as -> _ _ _ _ _. exact Hn. }
    destruct (stalled_step _ _ _ Hn' IHr Hstep) as (Hr & Hf & _).
    split; [exact Hr | congruence].
Qed.

Lemma in_flight_events_none (this : Transmission) :
  Forall (fun batches => batches = []) (running this) ->
  in_flight_events this = 0%nat.
Proof.
  unfold in_flight_events.
  induction 1 as [|x l Hx Hl IH]; [reflexivity|]. subst x. exact IH.
Qed.

(** A trigger of 2.5: the third event passes the size test, and the cut
    takes two events and leaves the third on the queue. *)
Example fractional_trigger :
  let options := Options.mk (Some 2.5%float) None None None None None in
  exists cut,
    @run sample_platform (constructor options)
       [CallSendPresampledEvent ev1; CallSendPresampledEvent ev2]
      = Some (set_sendTimeoutId
                (set_timers
                   (set_eventQueue (constructor options) [ev1; ev2])
                   [0%nat] 1%nat) (Some 0%nat)) /\
    @run sample_platform (constructor options)
       [CallSendPresampledEvent ev1; CallSendPresampledEvent ev2;
        CallSendPresampledEvent ev1] = Some cut /\
    _eventQueue cut = [ev1] /\ _batchCount cut = 1 /\ timers cut = [] /\
    map held (running cut) = [2%nat].
Proof.
  cbv zeta. eexists. split; [vm_compute; reflexivity|].
  split; [vm_compute; reflexivity|]. repeat split.
Qed.

(** An infinite trigger: no number of events passes the size test, and the
    cut the timer makes takes them all. *)
Example infinite_trigger :
  let options := Options.mk (Some PrimFloat.infinity) None None None None None in
  exists waiting cut,
    @run sample_platform (constructor options)
       (repeat (CallSendPresampledEvent ev1) 60) = Some waiting /\
    List.length (_eventQueue waiting) = 60%nat /\ running waiting = [] /\
    @step sample_platform waiting (TimerFires 0) = Some cut /\
    _eventQueue cut = [] /\ map held (running cut) = [60%nat].
Proof.
  cbv zeta. eexists. eexists. split; [vm_compute; reflexivity|].
  split; [reflexivity|]. split; [reflexivity|].
  split; [vm_compute; reflexivity|]. split; reflexivity.
Qed.

(** C9: a transmission built with the number [b] for [batchSizeTrigger]
    stores [Math.max(b, 1)] and keeps it in every state it reaches.  When [b]
    is not NaN this is the larger of [b] and 1, so 1 for [b = 0], and a cut
    that is not refused takes at least one event from a queue that has one;
    the queue has one whenever a timer is pending.  When [b] is NaN the
    trigger stored is NaN: a cut takes no event, no invocation of [_sendBatch]
    holds one, no request has been issued, and no transition takes an event
    off the queue. *)
Theorem C9_batchSizeTrigger_floor_misses_NaN {P : Platform}
    (options : Options.t) (b : float) (this : Transmission) :
  Options.batchSizeTrigger options = Some b ->
  reachable options this ->
  _batchSizeTrigger this = Math_max b 1 /\
  (forall id, In id (timers this) -> _eventQueue this <> []) /\
  (PrimFloat.is_nan b = false ->
   PrimFloat.leb 1 (_batchSizeTrigger this) = true /\
   PrimFloat.leb b (_batchSizeTrigger this) = true /\
   (_batchSizeTrigger this = b \/ _batchSizeTrigger this = 1%float) /\
   (b = 0%float -> _batchSizeTrigger this = 1%float) /\
   (_eventQueue this <> [] ->
    _batchCount this <> maxConcurrentBatches ->
    (List.length (_eventQueue (_sendBatch this))
       < List.length (_eventQueue this))%nat)) /\
  (PrimFloat.is_nan b = true ->
   PrimFloat.is_nan (_batchSizeTrigger this) = true /\
   _eventQueue (_sendBatch this) = _eventQueue this /\
   in_flight_events this = 0%nat /\
   fetches this = [] /\
   (forall i this',
      step this i = Some this' ->
      fetches this' = [] /\
      exists added, _eventQueue this' = _eventQueue this ++ added)).
Proof.
  intros Hb R.
  assert (H0 : _batchSizeTrigger (constructor options) = Math_max b 1)
    by (simpl; now rewrite Hb).
  assert (Ht : _batchSizeTrigger this = Math_max b 1).
  { pose proof (reachable_config _ _ R) as Hc. unfold config in Hc.
    injection Hc as -> _ _ _ _ _. exact H0. }
  split; [exact Ht|]. split.
  { intros id Hin. destruct (reachable_timers_sound _ _ R) as [_ T2].
    apply T2. intros Hnil. rewrite Hnil in Hin. contradiction. }
  destruct (Math_max_1 b) as [[Hn Hmax]|(Hn & _ & H1 & H2 & H3)]; split;
    intros Hb'; try congruence.
  - assert (Hn' : PrimFloat.is_nan (_batchSizeTrigger this) = true)
      by (rewrite Ht, Hmax; reflexivity).
    assert (Hn0 : PrimFloat.is_nan (_batchSizeTrigger (constructor options))
                  = true) by (rewrite H0, Hmax; reflexivity).
    destruct (reachable_stalled _ _ Hn0 R) as [Hr Hf].
    split; [exact Hn'|]. split; [apply (_sendBatch_NaN this Hn')|].
    split; [now apply in_flight_events_none|]. split; [exact Hf|].
    intros i this' Hstep.
    destruct (stalled_step _ _ _ Hn' Hr Hstep) as (_ & Hf' & Hq).
    split; [congruence | exact Hq].
  - rewrite Ht. split; [exact H1|]. split; [exact H2|]. split; [exact H3|].
    split; [intros ->; reflexivity|].
    intros Hq Hc. apply _sendBatch_takes; [rewrite Ht; exact H1 | exact Hq | exact Hc].
Qed.

Lemma C9_witness :
  let stalling :=
    Options.mk (Some PrimFloat.nan) None None None None None in
  let floored := Options.mk (Some 0%float) None None None None None in
  exists stalled,
    @run sample_platform (constructor stalling)
       [CallSendPresampledEvent ev1; TimerFires 0; BatchSettles 0]
      = Some stalled /\
    PrimFloat.is_nan (_batchSizeTrigger stalled) = true /\
    _eventQueue stalled = [ev1] /\
    _eventQueue (_sendBatch stalled) = [ev1] /\
    _batchCount stalled = 0 /\
    timers stalled = [1%nat] /\
    fetches stalled = [] /\
    _batchSizeTrigger (constructor floored) = 1%float /\
    _eventQueue (sendPresampledEvent (constructor floored) ev1) = [].
Proof.
  cbv zeta.
  assert (Hr : exists stalled,
             @run sample_platform
               (constructor
                  (Options.mk (Some PrimFloat.nan) None None None None None))
               [CallSendPresampledEvent ev1; TimerFires 0; BatchSettles 0]
             = Some stalled)
    by (vm_compute; eexists; reflexivity).
  destruct Hr as [stalled Hs]. exists stalled.
  pose proof (run_reachable _ _ _ _ (reach_new _) Hs) as R.
  destruct (@C9_batchSizeTrigger_floor_misses_NaN sample_platform
              (Options.mk (Some PrimFloat.nan) None None None None None)
              PrimFloat.nan stalled eq_refl R) as (_ & _ & _ & Hnan).
  destruct (Hnan eq_refl) as (Hn & Hcut & _ & Hf & _).
  destruct (@C9_batchSizeTrigger_floor_misses_NaN sample_platform
              (Options.mk (Some 0%float) None None None None None)
              0%float
              (constructor (Options.mk (Some 0%float) None None None None None))
              eq_refl (reach_new _)) as (_ & _ & Hfloor & _).
  destruct (Hfloor eq_refl) as (_ & _ & _ & Hone & _).
  assert (Hq : _eventQueue stalled = [ev1])
    by (vm_compute in Hs; injection Hs as <-; reflexivity).
  split; [exact Hs|]. split; [exact Hn|]. split; [exact Hq|].
  split; [rewrite Hcut; exact Hq|].
  split; [vm_compute in Hs; injection Hs as <-; reflexivity|].
  split; [vm_compute in Hs; injection Hs as <-; reflexivity|].
  split; [exact Hf|]. split; [exact (Hone eq_refl) | reflexivity].
Defined.

(* ------------------------------------------------------------------ *)
(** ** flush *)

Lemma flush_settled_iff (this : Transmission) :
  fst (flush this) = Settled <->
  _eventQueue this = [] /\ _batchCount this = 0.
Proof.
  unfold flush.
  destruct (Z.eqb_spec (Z.of_nat (List.length (_eventQueue this))) 0) as [Hq|Hq];
    destruct (Z.eqb_spec (_batchCount this) 0) as [Hc|Hc]; simpl;
    destruct (_eventQueue this) eqn:E; simpl in *;
    split; try intros [? ?]; try easy; lia.
Qed.

Lemma flush_pending (this : Transmission) :
  fst (flush this) <> Settled ->
  flush this
    = (Pending (promises this),
       set_promises (set_flushCallback this (Some (promises this)))
                    (S (promises this)) (resolved this)).
Proof.
  unfold flush. destruct (_ && _); simpl; [contradiction | reflexivity].
Qed.

Lemma _sendBatch_flush_fields (this : Transmission) :
  flushCallback (_sendBatch this) = flushCallback this /\
  promises (_sendBatch this) = promises this /\
  resolved (_sendBatch this) = resolved this.
Proof.
  unfold _sendBatch, _clearSendTimeout.
  destruct (_ =? _); [repeat split|].
  destruct (_sendTimeoutId this); repeat split.
Qed.

Lemma _ensureSendTimeout_fields (this : Transmission) :
  flushCallback (_ensureSendTimeout this) = flushCallback this /\
  promises (_ensureSendTimeout this) = promises this /\
  resolved (_ensureSendTimeout this) = resolved this /\
  _eventQueue (_ensureSendTimeout this) = _eventQueue this /\
  _batchCount (_ensureSendTimeout this) = _batchCount this.
Proof.
  unfold _ensureSendTimeout. destruct (_sendTimeoutId this); repeat split.
Qed.

Lemma sendPresampledEvent_flush_fields (this : Transmission) (ev : ValidatedEvent) :
  flushCallback (sendPresampledEvent this ev) = flushCallback this /\
  promises (sendPresampledEvent this ev) = promises this /\
  resolved (sendPresampledEvent this ev) = resolved this.
Proof.
  unfold sendPresampledEvent.
  destruct (_ >=? _); [repeat split|].
  destruct (geb_number _ _).
  - apply (_sendBatch_flush_fields (set_eventQueue this (_eventQueue this ++ [ev]))).
  - destruct (_ensureSendTimeout_fields
                (set_eventQueue this (_eventQueue this ++ [ev])))
      as (H1 & H2 & H3 & _).
    auto.
Qed.

(** What [finishBatch] does to the promises, from a state with a batch in
    flight: nothing, and then it does not leave an empty queue and a zero
    count with a callback in the slot; or it resolves the promise in the slot,
    clears the slot, and leaves an empty queue and a zero count. *)
Lemma finishBatch_resolves (this : Transmission) :
  1 <= _batchCount this <= maxConcurrentBatches ->
  (resolved (finishBatch this) = resolved this /\
   flushCallback (finishBatch this) = flushCallback this /\
   promises (finishBatch this) = promises this /\
   (_eventQueue (finishBatch this) <> [] \/
    _batchCount (finishBatch this) <> 0 \/
    flushCallback this = None)) \/
  (exists p,
     flushCallback this = Some p /\
     resolved (finishBatch this) = resolved this ++ [p] /\
     flushCallback (finishBatch this) = None /\
     promises (finishBatch this) = promises this /\
     _eventQueue (finishBatch this) = [] /\
     _batchCount (finishBatch this) = 0).
Proof.
  intros Hc. unfold finishBatch.
  destruct (Z.gtb_spec (Z.of_nat (List.length
              (_eventQueue (set_batchCount this (_batchCount this - 1))))) 0)
    as [Hq|Hq]; simpl in Hq.
  - left. destruct (geb_number _ _).
    + destruct (_sendBatch_flush_fields
                  (set_batchCount this (_batchCount this - 1)))
        as (H1 & H2 & H3).
      rewrite H1, H2, H3. repeat split.
      right. left. unfold _sendBatch. simpl.
      destruct (Z.eqb_spec (_batchCount this - 1) maxConcurrentBatches); [lia|].
      unfold _clearSendTimeout. simpl.
      destruct (_sendTimeoutId this); simpl; lia.
    + destruct (_ensureSendTimeout_fields
                  (set_batchCount this (_batchCount this - 1)))
        as (H1 & H2 & H3 & H4 & H5).
      rewrite H1, H2, H3, H4. repeat split.
      left. simpl. destruct (_eventQueue this); [simpl in Hq; lia | discriminate].
  - simpl.
    destruct (Z.eqb_spec (_batchCount this - 1) 0) as [Hz|Hz].
    + destruct (flushCallback this) as [p|] eqn:Hf.
      * right. exists p. simpl. repeat split; try assumption.
        destruct (_eventQueue this); [reflexivity | simpl in Hq; lia].
      * left. simpl. repeat split; auto.
    + left. simpl. repeat split. right. left. exact Hz.
Qed.

(** A transition resolves a promise only by a batch completion that
    leaves the queue empty and the count zero, and then it is the promise in
    the slot. *)
Lemma step_resolves {P : Platform} (this this' : Transmission) (i : Input) :
  invariant this ->
  step this i = Some this' ->
  resolved this' = resolved this \/
  (exists k p,
     i = BatchSettles k /\ flushCallback this = Some p /\
     resolved this' = resolved this ++ [p] /\
     flushCallback this' = None /\
     _eventQueue this' = [] /\ _batchCount this' = 0).
Proof.
  intros I. destruct i; simpl; intros H.
  - injection H as <-. left. unfold sendEvent.
    destruct (negb _); [reflexivity|].
    apply sendPresampledEvent_flush_fields.
  - injection H as <-. left. apply sendPresampledEvent_flush_fields.
  - injection H as <-. left. unfold flush. destruct (_ && _); reflexivity.
  - destruct (in_dec _ _ _); [|discriminate]. injection H as <-. left.
    apply (_sendBatch_flush_fields
             (set_timers this (List.remove Nat.eq_dec id (timers this))
                         (nextTimer this))).
  - destruct (nth_error _ _) as [[|batch rest]|]; try discriminate.
    destruct (sendPartition this batch clock result) as [t threw] eqn:E.
    injection H as <-. left.
    apply sendPartition_frame in E as (_ & _ & _ & _ & _ & _ & Hs & _). exact Hs.
  - destruct (nth_error _ _) as [[|batch rest]|] eqn:Hk; try discriminate.
    injection H as <-. destruct I as [I1 I2 _ _ _].
    apply length_remove_nth in Hk.
    destruct (finishBatch_resolves
                (set_running this (remove_nth k (running this))))
      as [(Hs & _)|(p & Hf & Hs & Hn & _ & Hq & Hc)]; simpl; [lia | | ].
    + left. exact Hs.
    + right. exists k, p. repeat split; assumption.
Qed.

(** The promise in the slot is resolved by the batch completion that
    leaves the queue empty and the count zero. *)
Lemma completion_resolves {P : Platform} (this this' : Transmission)
    (k p : nat) :
  invariant this ->
  step this (BatchSettles k) = Some this' ->
  flushCallback this = Some p ->
  _eventQueue this' = [] -> _batchCount this' = 0 ->
  resolved this' = resolved this ++ [p] /\ flushCallback this' = None.
Proof.
  intros [I1 I2 _ _ _] H Hf Hq Hc. simpl in H.
  destruct (nth_error _ _) as [[|batch rest]|] eqn:Hk; try discriminate.
  injection H as <-. apply length_remove_nth in Hk.
  destruct (finishBatch_resolves
              (set_running this (remove_nth k (running this))))
    as [(_ & _ & _ & [Hne|[Hne|Hne]])|(q & Hf' & Hs & Hn & _)];
    simpl in *; try lia; try contradiction; try congruence.
  rewrite Hf in Hf'. injection Hf' as <-. split; assumption.
Qed.

Lemma abandoned_step {P : Platform} (p : nat) (this this' : Transmission)
    (i : Input) :
  invariant this -> abandoned p this ->
  step this i = Some this' -> abandoned p this'.
Proof.
  intros I (Hlt & Hslot & Hres) H. unfold abandoned.
  destruct i; simpl in H.
  - injection H as <-. unfold sendEvent. destruct (negb _); [easy|].
    destruct (sendPresampledEvent_flush_fields this ev) as (-> & -> & ->). easy.
  - injection H as <-.
    destruct (sendPresampledEvent_flush_fields this ev) as (-> & -> & ->). easy.
  - injection H as <-. unfold flush. destruct (_ && _); simpl; [easy|].
    repeat split; [lia | | assumption].
    intros Heq. injection Heq as Heq. lia.
  - destruct (in_dec _ _ _); [|discriminate]. injection H as <-.
    destruct (_sendBatch_flush_fields
                (set_timers this (List.remove Nat.eq_dec id (timers this))
                            (nextTimer this))) as (-> & -> & ->). easy.
  - destruct (nth_error _ _) as [[|batch rest]|]; try discriminate.
    destruct (sendPartition this batch clock result) as [t threw] eqn:E.
    injection H as <-.
    apply sendPartition_frame in E as (_ & _ & _ & _ & Hf & Hp & Hs & _).
    simpl. rewrite Hf, Hp, Hs. easy.
  - destruct (nth_error _ _) as [[|batch rest]|] eqn:Hk; try discriminate.
    injection H as <-. destruct I as [I1 I2 _ _ _].
    apply length_remove_nth in Hk.
    destruct (finishBatch_resolves
                (set_running this (remove_nth k (running this))))
      as [(Hs & Hf & Hp & _)|(q & Hf & Hs & Hn & Hp & _)]; simpl in *; [lia | | ].
    + rewrite Hs, Hf, Hp. easy.
    + rewrite Hs, Hn, Hp. repeat split; [assumption | discriminate |].
      intros Hin. apply in_app_or in Hin as [Hin|[<-|[]]]; [contradiction|].
      now apply Hslot.
Qed.

Lemma abandoned_run {P : Platform} (p : nat) (inputs : list Input) :
  forall this this',
    invariant this -> abandoned p this ->
    run this inputs = Some this' -> ~ In p (resolved this').
Proof.
  induction inputs as [|i inputs IH]; simpl; intros this this' I A H.
  - injection H as <-. apply A.
  - destruct (step this i) as [t|] eqn:E; [|discriminate].
    apply (IH t this'); [exact (invariant_step _ _ _ I E) | | exact H].
    exact (abandoned_step _ _ _ _ I A E).
Qed.

(** A [flush] that registers a waiter abandons the one in the slot. *)
Lemma flush_abandons (this : Transmission) (p : nat) :
  invariant this ->
  flushCallback this = Some p ->
  fst (flush this) <> Settled ->
  abandoned p (snd (flush this)).
Proof.
  intros [_ _ I3 _ _] Hf Hns. destruct (I3 p Hf) as [Hlt Hnew].
  rewrite (flush_pending this Hns). unfold abandoned. simpl.
  repeat split; [lia | | assumption].
  intros Heq. injection Heq as Heq. lia.
Qed.

(** C8, as the specification states it, fails when [flush] is called
    twice while a batch is in flight: both calls register a waiter, the batch
    completes and leaves an empty queue and a zero count, and only the second
    waiter is resolved; the first is not, then or at any later time. *)
Lemma C8_counterexample :
  let options := Options.mk (Some 1%float) None None None None None in
  let busy := sendPresampledEvent (constructor options) ev1 in
  let settled :=
    FetchResolve
      (Response.mk true (Some 200)
         (JsonResolve (VArray [VObject [("status"%string, VNumber 202)]]))) in
  exists done,
    fst (flush busy) = Pending 0 /\
    fst (flush (snd (flush busy))) = Pending 1 /\
    @run sample_platform (constructor options)
       [CallSendPresampledEvent ev1; CallFlush; CallFlush;
        PartitionSettles 0 (mkClock 0 5 5) settled; BatchSettles 0]
      = Some done /\
    _eventQueue done = [] /\ _batchCount done = 0 /\
    resolved done = [1%nat] /\
    (forall inputs final,
       @run sample_platform done inputs = Some final ->
       ~ In 0%nat (resolved final)).
Proof.
  cbv zeta. eexists.
  split; [reflexivity|]. split; [reflexivity|].
  split; [vm_compute; reflexivity|].
  split; [reflexivity|]. split; [reflexivity|]. split; [reflexivity|].
  intros inputs final. apply abandoned_run.
  - constructor; simpl; try reflexivity.
    + unfold maxConcurrentBatches. lia.
    + discriminate.
    + intros p [<-|[]]. lia.
    + constructor; [easy | constructor].
  - unfold abandoned. simpl. repeat split; [lia | discriminate |].
    intros [H|[]]. discriminate.
Qed.

(** What a transition does to the waiter in the slot: it leaves it
    there, unresolved; or it is a [flush] that puts a new waiter in its place;
    or it is the batch completion that leaves the queue empty and the count
    zero, which resolves it and clears the slot. *)
Lemma step_waiter {P : Platform} (this this' : Transmission) (i : Input)
    (p : nat) :
  invariant this ->
  step this i = Some this' ->
  flushCallback this = Some p ->
  (flushCallback this' = Some p /\ resolved this' = resolved this) \/
  (i = CallFlush /\ flushCallback this' = Some (promises this) /\
   resolved this' = resolved this) \/
  (exists k,
     i = BatchSettles k /\ flushCallback this' = None /\
     resolved this' = resolved this ++ [p] /\
     _eventQueue this' = [] /\ _batchCount this' = 0).
Proof.
  intros I H Hf. destruct i; simpl in H.
  - injection H as <-. left. unfold sendEvent. destruct (negb _); [now split|].
    destruct (sendPresampledEvent_flush_fields this ev) as (-> & _ & ->).
    now split.
  - injection H as <-. left.
    destruct (sendPresampledEvent_flush_fields this ev) as (-> & _ & ->).
    now split.
  - injection H as <-. unfold flush. destruct (_ && _); simpl;
      [left; now split | right; left; repeat split].
  - destruct (in_dec _ _ _); [|discriminate]. injection H as <-. left.
    destruct (_sendBatch_flush_fields
                (set_timers this (List.remove Nat.eq_dec id (timers this))
                            (nextTimer this))) as (-> & _ & ->).
    now split.
  - destruct (nth_error _ _) as [[|batch rest]|]; try discriminate.
    destruct (sendPartition this batch clock result) as [t threw] eqn:E.
    injection H as <-. left.
    apply sendPartition_frame in E as (_ & _ & _ & _ & Hf' & _ & Hs & _).
    simpl. rewrite Hf', Hs. now split.
  - destruct (nth_error _ _) as [[|batch rest]|] eqn:Hk; try discriminate.
    injection H as <-. destruct I as [I1 I2 _ _ _].
    apply length_remove_nth in Hk.
    destruct (finishBatch_resolves
                (set_running this (remove_nth k (running this))))
      as [(Hs & Hf' & _)|(q & Hq & Hs & Hn & _ & Hqueue & Hc)];
      simpl in *; [lia | | ].
    + left. rewrite Hf', Hs. now split.
    + right. right. exists k. rewrite Hf in Hq. injection Hq as <-.
      repeat split; assumption.
Qed.

Lemma _sendBatch_busy (this : Transmission) :
  0 <= _batchCount this -> busy (_sendBatch this).
Proof.
  intros Hc. right.
  destruct (Z.eq_dec (_batchCount this) maxConcurrentBatches) as [H|H].
  - rewrite _sendBatch_refused by exact H. rewrite H. discriminate.
  - destruct (_sendBatch_proceeds this H) as (_ & _ & -> & _). lia.
Qed.

Lemma sendPresampledEvent_busy (this : Transmission) (ev : ValidatedEvent) :
  0 <= _batchCount this ->
  busy (sendPresampledEvent this ev) \/
  (_eventQueue (sendPresampledEvent this ev) = _eventQueue this /\
   _batchCount (sendPresampledEvent this ev) = _batchCount this).
Proof.
  intros Hc. unfold sendPresampledEvent. destruct (_ >=? _); [right; now split|].
  left. destruct (geb_number _ _).
  - now apply _sendBatch_busy.
  - left.
    destruct (_ensureSendTimeout_frame
                (set_eventQueue this (_eventQueue this ++ [ev]))) as (-> & _).
    simpl. intros H. now apply app_eq_nil in H as [_ H].
Qed.

(** While a waiter is in the slot there is work to wait for. *)
Lemma waiter_busy_step {P : Platform} (this this' : Transmission) (i : Input) :
  invariant this ->
  (flushCallback this <> None -> busy this) ->
  step this i = Some this' ->
  flushCallback this' <> None -> busy this'.
Proof.
  intros I Hb H. pose proof I as [I1 I2 _ _ _].
  assert (Hc : 0 <= _batchCount this) by lia.
  assert (Hspe : forall ev,
             flushCallback (sendPresampledEvent this ev) <> None ->
             busy (sendPresampledEvent this ev)).
  { intros ev Hslot.
    destruct (sendPresampledEvent_flush_fields this ev) as (Hf & _).
    rewrite Hf in Hslot.
    destruct (sendPresampledEvent_busy this ev Hc) as [B|[Eq En]]; [exact B|].
    unfold busy. rewrite Eq, En. exact (Hb Hslot). }
  destruct i; simpl in H.
  - injection H as <-. unfold sendEvent. destruct (negb _); [exact Hb|].
    apply Hspe.
  - injection H as <-. apply Hspe.
  - injection H as <-. unfold flush.
    destruct (Z.eqb_spec (Z.of_nat (List.length (_eventQueue this))) 0)
      as [Hq|Hq]; simpl.
    + destruct (Z.eqb_spec (_batchCount this) 0) as [Hz|Hz]; simpl;
        [exact Hb | intros _; right; exact Hz].
    + intros _. left. simpl. intros Hnil. rewrite Hnil in Hq.
      simpl in Hq. lia.
  - destruct (in_dec _ _ _); [|discriminate]. injection H as <-. intros _.
    now apply _sendBatch_busy.
  - destruct (nth_error _ _) as [[|batch rest]|]; try discriminate.
    destruct (sendPartition this batch clock result) as [t threw] eqn:E.
    injection H as <-.
    apply sendPartition_frame in E as (_ & Hn & _ & Hq & Hf & _).
    unfold busy. simpl. rewrite Hn, Hq, Hf. exact Hb.
  - destruct (nth_error _ _) as [[|batch rest]|] eqn:Hk; try discriminate.
    injection H as <-. apply length_remove_nth in Hk.
    destruct (finishBatch_resolves
                (set_running this (remove_nth k (running this))))
      as [(_ & Hf & _ & Hw)|(q & _ & _ & Hn & _)]; simpl in *; [lia | | ].
    + rewrite Hf. intros Hslot.
      destruct Hw as [Hw|[Hw|Hw]]; [now left | now right | contradiction].
    + rewrite Hn. contradiction.
Qed.

Lemma reachable_waiter_busy {P : Platform} (options : Options.t)
    (this : Transmission) :
  reachable options this -> flushCallback this <> None -> busy this.
Proof.
  induction 1 as [|this i this' R IH Hstep].
  - simpl. contradiction.
  - exact (waiter_busy_step _ _ _ (reachable_invariant _ _ R) IH Hstep).
Qed.

Lemma resolved_run {P : Platform} (p : nat) (inputs : list Input) :
  forall this final,
    invariant this -> In p (resolved this) ->
    run this inputs = Some final -> In p (resolved final).
Proof.
  induction inputs as [|i inputs IH]; simpl; intros this final I Hin H.
  - now injection H as <-.
  - destruct (step this i) as [t|] eqn:E; [|discriminate].
    apply (IH t final (invariant_step _ _ _ I E)); [|exact H].
    destruct (step_resolves _ _ _ I E) as [->|(k & q & _ & _ & -> & _)];
      [exact Hin | apply in_or_app; now left].
Qed.

(** The waiter in the slot, over a run in which [flush] is not called
    again: it is still there, unresolved, with work left to wait for; or it
    has been resolved. *)
Lemma waiter_run {P : Platform} (p : nat) (inputs : list Input) :
  forall this final,
    invariant this ->
    (flushCallback this <> None -> busy this) ->
    flushCallback this = Some p ->
    Forall (fun i => i <> CallFlush) inputs ->
    run this inputs = Some final ->
    (flushCallback final = Some p /\ ~ In p (resolved final) /\ busy final) \/
    In p (resolved final).
Proof.
  induction inputs as [|i inputs IH]; simpl; intros this final I Hb Hf Hno H.
  - injection H as <-. left. split; [exact Hf|]. split.
    + destruct I as [_ _ I3 _ _]. apply (I3 p Hf).
    + apply Hb. congruence.
  - destruct (step this i) as [t|] eqn:E; [|discriminate].
    inversion Hno as [|? ? Hi Hrest]; subst.
    pose proof (invariant_step _ _ _ I E) as It.
    pose proof (waiter_busy_step _ _ _ I Hb E) as Hbt.
    destruct (step_waiter _ _ _ p I E Hf)
      as [[Hslot _]|[[Hflush _]|(k & _ & _ & Hs & _)]].
    + exact (IH t final It Hbt Hslot Hrest H).
    + contradiction.
    + right. apply (resolved_run p inputs t final It); [|exact H].
      rewrite Hs. apply in_or_app. right. now left.
Qed.

(** C8 (amended): in a state a transmission can reach, [flush] returns an
    already-completed promise exactly when the queue is empty and the
    in-flight count is zero, and then changes nothing; otherwise it creates a
    promise and puts its callback in the single [flushCallback] slot, in place
    of whatever was there.  A promise is resolved only by a batch completion
    that leaves the queue empty and the count zero; that completion resolves
    the promise in the slot and clears the slot; no promise is resolved twice;
    and a promise whose callback a later [flush] replaced is never
    resolved.  The waiter in the slot stays there through every transition
    but those two, a later [flush] and that completion: while it is in the
    slot the queue holds an event or a batch is in flight, and once a run
    without a further [flush] has emptied the queue and brought the count to
    zero it has been resolved. *)
Theorem C8_flush_waiter {P : Platform} (options : Options.t)
    (this : Transmission) :
  reachable options this ->
  (fst (flush this) = Settled <->
   _eventQueue this = [] /\ _batchCount this = 0) /\
  (fst (flush this) = Settled -> snd (flush this) = this) /\
  (fst (flush this) <> Settled ->
   flush this
     = (Pending (promises this),
        set_promises (set_flushCallback this (Some (promises this)))
                     (S (promises this)) (resolved this))) /\
  (forall i this',
     step this i = Some this' ->
     resolved this' = resolved this \/
     (exists k p,
        i = BatchSettles k /\ flushCallback this = Some p /\
        resolved this' = resolved this ++ [p] /\
        flushCallback this' = None /\
        _eventQueue this' = [] /\ _batchCount this' = 0)) /\
  (forall k p this',
     step this (BatchSettles k) = Some this' ->
     flushCallback this = Some p ->
     _eventQueue this' = [] -> _batchCount this' = 0 ->
     resolved this' = resolved this ++ [p] /\ flushCallback this' = None) /\
  NoDup (resolved this) /\
  (forall p inputs final,
     flushCallback this = Some p ->
     fst (flush this) <> Settled ->
     run (snd (flush this)) inputs = Some final ->
     ~ In p (resolved final)) /\
  (forall p i this',
     flushCallback this = Some p ->
     step this i = Some this' ->
     (flushCallback this' = Some p /\ resolved this' = resolved this) \/
     (i = CallFlush /\ flushCallback this' = Some (promises this) /\
      resolved this' = resolved this) \/
     (exists k,
        i = BatchSettles k /\ flushCallback this' = None /\
        resolved this' = resolved this ++ [p] /\
        _eventQueue this' = [] /\ _batchCount this' = 0)) /\
  (forall p, flushCallback this = Some p ->
             busy this /\ ~ In p (resolved this)) /\
  (forall p inputs final,
     flushCallback this = Some p ->
     Forall (fun i => i <> CallFlush) inputs ->
     run this inputs = Some final ->
     (flushCallback final = Some p /\ ~ In p (resolved final) /\ busy final) \/
     In p (resolved final)).
Proof.
  intros R. pose proof (reachable_invariant _ _ R) as I.
  split; [apply flush_settled_iff|].
  split.
  { unfold flush. destruct (_ && _); simpl; [reflexivity | discriminate]. }
  split; [apply flush_pending|].
  split; [intros i this'; now apply step_resolves|].
  split; [intros k p this'; now apply completion_resolves|].
  split; [apply I|].
  split.
  { intros p inputs final Hf Hns.
    apply abandoned_run.
    - now apply invariant_flush.
    - now apply flush_abandons. }
  split.
  { intros p i this' Hf Hstep. exact (step_waiter _ _ _ p I Hstep Hf). }
  split.
  { intros p Hf. split.
    - apply (reachable_waiter_busy _ _ R). congruence.
    - destruct I as [_ _ I3 _ _]. apply (I3 p Hf). }
  intros p inputs final Hf Hno Hrun.
  exact (waiter_run p inputs this final I (reachable_waiter_busy _ _ R)
           Hf Hno Hrun).
Qed.

Lemma C8_witness :
  let options := Options.mk (Some 1%float) None None None None None in
  let drain :=
    [CallSendPresampledEvent ev2;
     PartitionSettles 0 (mkClock 0 5 5) (accepted 1); BatchSettles 0;
     PartitionSettles 0 (mkClock 0 6 6) (accepted 1); BatchSettles 0] in
  exists waiting final,
    @run sample_platform (constructor options)
       [CallSendPresampledEvent ev1; CallFlush] = Some waiting /\
    fst (flush (sendPresampledEvent (constructor options) ev1)) = Pending 0 /\
    flushCallback waiting = Some 0%nat /\
    Forall (fun i => i <> CallFlush) drain /\
    @run sample_platform waiting drain = Some final /\
    _eventQueue final = [] /\ _batchCount final = 0 /\
    In 0%nat (resolved final) /\
    flushCallback final = None.
Proof.
  cbv zeta.
  assert (Hw : exists waiting,
             @run sample_platform
               (constructor
                  (Options.mk (Some 1%float) None None None None None))
               [CallSendPresampledEvent ev1; CallFlush] = Some waiting)
    by (vm_compute; eexists; reflexivity).
  destruct Hw as [waiting Hw]. exists waiting.
  pose proof (run_reachable _ _ _ _ (reach_new _) Hw) as R.
  assert (Hd : exists final,
             @run sample_platform waiting
               [CallSendPresampledEvent ev2;
                PartitionSettles 0 (mkClock 0 5 5) (accepted 1); BatchSettles 0;
                PartitionSettles 0 (mkClock 0 6 6) (accepted 1); BatchSettles 0]
             = Some final /\
             _eventQueue final = [] /\ _batchCount final = 0 /\
             flushCallback final = None).
  { vm_compute in Hw. injection Hw as <-.
    eexists. split; [vm_compute; reflexivity|]. repeat split. }
  destruct Hd as (final & Hd & Hq & Hc & Hslot). exists final.
  assert (Hf : flushCallback waiting = Some 0%nat)
    by (vm_compute in Hw; injection Hw as <-; reflexivity).
  assert (Hno : Forall (fun i => i <> CallFlush)
                  [CallSendPresampledEvent ev2;
                   PartitionSettles 0 (mkClock 0 5 5) (accepted 1);
                   BatchSettles 0;
                   PartitionSettles 0 (mkClock 0 6 6) (accepted 1);
                   BatchSettles 0])
    by (repeat constructor; discriminate).
  destruct (@C8_flush_waiter sample_platform _ waiting R)
    as (_ & _ & _ & _ & _ & _ & _ & _ & _ & Hrun).
  split; [exact Hw|]. split; [reflexivity|]. split; [exact Hf|].
  split; [exact Hno|]. split; [exact Hd|]. split; [exact Hq|].
  split; [exact Hc|]. split; [|exact Hslot].
  destruct (Hrun 0%nat _ final Hf Hno Hd) as [(_ & _ & [Hb|Hb])|Hin];
    [contradiction | contradiction | exact Hin].
Defined.

(* ------------------------------------------------------------------ *)
(** ** Encoding a partition *)

Lemma string_app_assoc (a b c : string) :
  ((a ++ b) ++ c = a ++ (b ++ c))%string.
Proof. induction a as [|ch a IH]; simpl; [reflexivity | now rewrite IH]. Qed.

Lemma string_app_nil_r (a : string) : (a ++ "" = a)%string.
Proof. induction a as [|ch a IH]; simpl; [reflexivity | now rewrite IH]. Qed.

Section EncodingFacts.
Context {P : Platform}.

(** The reducer of [encodeBatchEvents] run over [events] from any
    state. *)
Lemma fold_encodeStep (events : list ValidatedEvent) :
  forall s : EncodeState,
    fold_left encodeStep events s
    = mkEncode
        (match encodedTexts events with
         | [] => acc s
         | _ :: _ =>
             (acc s ++ (if negb (first s) then "," else "")
                ++ String.concat "," (encodedTexts events))%string
         end)
        (match encodedTexts events with
         | [] => first s
         | _ :: _ => false
         end)
        (numEncoded s + Z.of_nat (List.length (encodedTexts events)))
        (visited s ++ map afterEncode events).
Proof.
  induction events as [|ev events IH]; intros s; simpl.
  - rewrite Z.add_0_r, app_nil_r. now destruct s.
  - rewrite IH. unfold encodeStep, afterEncode.
    destruct (JSON_stringify (VObject (toJSON ev))) as [text|e]; simpl.
    + rewrite <- app_assoc. simpl. f_equal.
      * destruct (encodedTexts events) as [|t ts] eqn:E; [reflexivity|].
        now rewrite !string_app_assoc.
      * now destruct (encodedTexts events).
      * lia.
    + rewrite <- app_assoc. reflexivity.
Qed.

Lemma length_encodedTexts (events : list ValidatedEvent) :
  List.length (encodedTexts events) = List.length (filter encodes events).
Proof.
  induction events as [|ev events IH]; simpl; [reflexivity|].
  unfold encodes at 1.
  destruct (JSON_stringify (VObject (toJSON ev))); simpl; now rewrite IH.
Qed.

Lemma encodeBatchEvents_spec (events : list ValidatedEvent) :
  encodeBatchEvents events
  = (("[" ++ String.concat "," (encodedTexts events) ++ "]")%string,
     Z.of_nat (List.length (filter encodes events)),
     map afterEncode events).
Proof.
  unfold encodeBatchEvents. rewrite fold_encodeStep. simpl.
  rewrite length_encodedTexts.
  destruct (encodedTexts events); reflexivity.
Qed.

Lemma afterEncode_metadata (ev : ValidatedEvent) :
  metadata (afterEncode ev) = metadata ev.
Proof.
  unfold afterEncode.
  destruct (JSON_stringify (VObject (toJSON ev))); reflexivity.
Qed.

Lemma none_encodes (events : list ValidatedEvent) :
  filter encodes events = [] ->
  Forall (fun ev => exists e,
              JSON_stringify (VObject (toJSON ev)) = Throw e /\
              encodeError_value (afterEncode ev) = VError e) events.
Proof.
  induction events as [|ev events IH]; simpl; intros H; constructor.
  - unfold encodes, afterEncode, encodeError_value in *.
    destruct (JSON_stringify (VObject (toJSON ev))) as [text|e];
      [discriminate|].
    exists e. split; reflexivity.
  - apply IH. destruct (encodes ev); [discriminate | exact H].
Qed.

(** C5: [encodeBatchEvents] serializes the events in order: the body is
    the bracketed, comma-separated texts of the events that serialize,
    [numEncoded] is their number, an event that serializes is left as it
    was and one whose serialization throws [e] has [e] as its [encodeError].
    When [numEncoded] is 0 the partition handler issues no request, and
    calls the response callback once with one outcome per event, carrying
    the event's metadata and its encode error. *)
Theorem C5_encode_partition (this : Transmission) (batch : Batch.t)
    (clock : Clock) (result : FetchResult) :
  encodeBatchEvents (Batch.events batch)
  = (("[" ++ String.concat "," (encodedTexts (Batch.events batch)) ++ "]")%string,
     Z.of_nat (List.length (filter encodes (Batch.events batch))),
     map afterEncode (Batch.events batch)) /\
  (forall ev, encodes ev = true -> afterEncode ev = ev) /\
  (forall ev e,
     JSON_stringify (VObject (toJSON ev)) = Throw e ->
     afterEncode ev = set_encodeError ev e) /\
  (forall url,
     URL_href ("/1/batch/" ++ Batch.dataset batch) (Batch.apiHost batch)
       = Normal url ->
     filter encodes (Batch.events batch) = [] ->
     sendPartition this batch clock result
       = (set_responses this
            (responses this
             ++ [map (fun ev =>
                        Outcome.mk None None (metadata ev)
                                   (encodeError_value (afterEncode ev)))
                     (Batch.events batch)]),
          false) /\
     fetches (fst (sendPartition this batch clock result)) = fetches this /\
     Forall (fun ev => exists e,
                 JSON_stringify (VObject (toJSON ev)) = Throw e /\
                 encodeError_value (afterEncode ev) = VError e)
            (Batch.events batch)).
Proof.
  split; [apply encodeBatchEvents_spec|].
  split.
  { intros ev. unfold encodes, afterEncode.
    destruct (JSON_stringify (VObject (toJSON ev))); [reflexivity | discriminate]. }
  split.
  { intros ev e. unfold afterEncode. now intros ->. }
  intros url Hurl Hnone.
  assert (E : sendPartition this batch clock result
              = (set_responses this
                   (responses this
                    ++ [map (fun ev =>
                               Outcome.mk None None (metadata ev)
                                          (encodeError_value (afterEncode ev)))
                            (Batch.events batch)]),
                 false)).
  { unfold sendPartition, startPartition. rewrite Hurl.
    rewrite encodeBatchEvents_spec, Hnone. simpl.
    unfold _responseCallback. rewrite map_map. do 4 f_equal.
    apply map_ext. intros ev. now rewrite afterEncode_metadata. }
  split; [exact E|]. split; [now rewrite E|].
  now apply none_encodes.
Qed.

End EncodingFacts.

Lemma C5_witness :
  let batch := Batch.mk "http://localhost:9999" "123456789" "test-transmission"
                        [ev_bad] in
  @URL_href sample_platform ("/1/batch/" ++ Batch.dataset batch)
     (Batch.apiHost batch)
    = Normal "http://localhost:9999/1/batch/test-transmission"%string /\
  filter (@encodes sample_platform) (Batch.events batch) = [] /\
  responses
    (fst (@sendPartition sample_platform (constructor Options.empty) batch
            (mkClock 0 0 0) (FetchReject (newError "unused"))))
    = [[Outcome.mk None None (VString "bad")
          (VError (mkError "TypeError" "Do not know how to serialize a BigInt"
                           None false))]] /\
  fetches
    (fst (@sendPartition sample_platform (constructor Options.empty) batch
            (mkClock 0 0 0) (FetchReject (newError "unused")))) = [].
Proof.
  cbv zeta.
  split; [reflexivity|]. split; [reflexivity|].
  destruct (@C5_encode_partition sample_platform (constructor Options.empty)
              (Batch.mk "http://localhost:9999" "123456789" "test-transmission"
                        [ev_bad])
              (mkClock 0 0 0) (FetchReject (newError "unused")))
    as (_ & _ & _ & H).
  destruct (H _ eq_refl eq_refl) as (E & F & _).
  split; [rewrite E; reflexivity | rewrite F; reflexivity].
Defined.

(** Three events of which the second does not serialize. *)
Example encode_skips_the_failed_event :
  @encodeBatchEvents sample_platform [ev1; ev_bad; ev2]
  = ("[{},{}]"%string, 2,
     [ev1;
      set_encodeError ev_bad
        (mkError "TypeError" "Do not know how to serialize a BigInt" None false);
      ev2]).
Proof. reflexivity. Qed.

(* ------------------------------------------------------------------ *)
(** ** Fanning a response out to the events *)

Lemma getProp_readable (v : Value) (k : string) :
  readable v -> getProp v k = Normal (field v k).
Proof.
  intros [Hu Hn]. unfold field.
  destruct v; simpl; try reflexivity; contradiction.
Qed.

Lemma mapResponses_length (responseData : Value) (elapsed : Z) :
  forall (events : list ValidatedEvent) (respIdx : nat) (outs : list Outcome.t),
    mapResponses responseData elapsed events respIdx = Normal outs ->
    List.length outs = List.length events.
Proof.
  induction events as [|ev events IH]; simpl; intros respIdx outs H.
  - injection H as <-. reflexivity.
  - destruct (encodeError ev).
    + destruct (mapResponses responseData elapsed events respIdx) as [o|]
        eqn:E; simpl in H; [|discriminate].
      injection H as <-. simpl. f_equal. exact (IH _ _ E).
    + destruct (getIndex responseData respIdx) as [nextResponse|];
        simpl in H; [|discriminate].
      destruct (getProp nextResponse "status"); simpl in H; [|discriminate].
      destruct (getProp nextResponse "err"); simpl in H; [|discriminate].
      destruct (mapResponses responseData elapsed events (S respIdx)) as [o|]
        eqn:E; simpl in H; [|discriminate].
      injection H as <-. simpl. f_equal. exact (IH _ _ E).
Qed.

(** Whatever the request does, the handler reports one outcome per event
    of the partition. *)
Lemma finishPartition_length (events : list ValidatedEvent) (clock : Clock)
    (result : FetchResult) :
  List.length (finishPartition events clock result) = List.length events.
Proof.
  unfold finishPartition.
  destruct result as [e|response];
    [unfold catchOutcomes; now rewrite length_map|].
  destruct (negb (Response.ok response));
    [unfold catchOutcomes; now rewrite length_map|].
  destruct (Response.json response) as [e|responseData];
    [unfold catchOutcomes; now rewrite length_map|].
  destruct (mapResponses responseData (end_try clock - start clock) events 0)
    as [outs|e] eqn:E.
  - exact (mapResponses_length _ _ _ _ _ E).
  - unfold catchOutcomes. now rewrite length_map.
Qed.

Section FanoutFacts.
Context {P : Platform}.

Lemma filter_encodes_snoc (prefix : list ValidatedEvent) (ev : ValidatedEvent) :
  filter encodes (prefix ++ [ev])
  = filter encodes prefix ++ (if encodes ev then [ev] else []).
Proof. rewrite filter_app. simpl. now destruct (encodes ev). Qed.

(** The walk of the success path over the events of a partition, from
    the position after [prefix]. *)
Lemma mapResponses_fanout (resp : list Value) (elapsed : Z) :
  forall suffix prefix : list ValidatedEvent,
    Forall (fun ev => encodeError ev = None) suffix ->
    Forall readable resp ->
    (List.length (filter encodes (prefix ++ suffix)) <= List.length resp)%nat ->
    exists outs,
      mapResponses (VArray resp) elapsed (map afterEncode suffix)
                   (List.length (filter encodes prefix)) = Normal outs /\
      forall j ev,
        nth_error suffix j = Some ev ->
        nth_error outs j
        = Some (expectedOutcome resp elapsed (prefix ++ suffix)
                                (List.length prefix + j) ev).
Proof.
  induction suffix as [|ev rest IH]; intros prefix Hfresh Hread Hlen.
  - exists []. split; [reflexivity|]. intros [|j] ev H; discriminate.
  - inversion Hfresh as [|? ? Hev Hrest]; subst.
    assert (Hsplit : prefix ++ ev :: rest = (prefix ++ [ev]) ++ rest)
      by (now rewrite <- app_assoc).
    destruct (IH (prefix ++ [ev]) Hrest Hread) as (outs & Hmap & Hnth).
    { now rewrite <- Hsplit. }
    rewrite filter_encodes_snoc, length_app in Hmap.
    assert (Hslot : slot (prefix ++ ev :: rest) (List.length prefix + 0)
                    = List.length (filter encodes prefix)).
    { unfold slot. rewrite Nat.add_0_r, firstn_app, Nat.sub_diag, firstn_all.
      simpl. now rewrite app_nil_r. }
    simpl map. unfold afterEncode at 1. unfold encodes at 2 in Hmap.
    destruct (JSON_stringify (VObject (toJSON ev))) as [text|e] eqn:Hs.
    + (* the event serialized: it reads the response at its slot *)
      simpl in Hmap. rewrite Nat.add_1_r in Hmap.
      assert (Hin : (List.length (filter encodes prefix) < List.length resp)%nat).
      { rewrite filter_app, length_app in Hlen. simpl in Hlen.
        unfold encodes at 2 in Hlen. rewrite Hs in Hlen. simpl in Hlen. lia. }
      assert (Hr : readable (nth (List.length (filter encodes prefix)) resp
                                 VUndefined)).
      { rewrite Forall_forall in Hread. apply Hread. now apply nth_In. }
      simpl. rewrite Hev. simpl.
      rewrite !(getProp_readable _ _ Hr). simpl. rewrite Hmap. simpl.
      eexists. split; [reflexivity|].
      intros [|j] ev' H; simpl in H.
      * injection H as <-. simpl. unfold expectedOutcome.
        rewrite Hs, Hslot. reflexivity.
      * simpl. rewrite (Hnth j ev' H), <- Hsplit.
        do 2 f_equal. rewrite length_app. simpl. lia.
    + (* it did not: its encode error, and no response read *)
      simpl in Hmap. rewrite Nat.add_0_r in Hmap.
      simpl. rewrite Hmap. simpl.
      eexists. split; [reflexivity|].
      intros [|j] ev' H; simpl in H.
      * injection H as <-. simpl. unfold expectedOutcome. now rewrite Hs.
      * simpl. rewrite (Hnth j ev' H), <- Hsplit.
        do 2 f_equal. rewrite length_app. simpl. lia.
Qed.

(** C4: a partition of events as the constructor builds them, of which
    at least one serializes, is posted; when the response is [ok] and its
    body an array with one readable element per serialized event, the response
    callback is called once, with one outcome per event of the partition, in
    order: the event that is the [i]-th to have serialized gets [status_code]
    and [error] from [status] and [err] of the [i]-th response element, and an
    event that failed to serialize gets its encode error and takes no response
    element. *)
Theorem C4_response_fanout (this : Transmission) (batch : Batch.t)
    (url : string) (clock : Clock) (status_ : option Z) (resp : list Value) :
  URL_href ("/1/batch/" ++ Batch.dataset batch) (Batch.apiHost batch)
    = Normal url ->
  Forall (fun ev => encodeError ev = None) (Batch.events batch) ->
  filter encodes (Batch.events batch) <> [] ->
  List.length resp = List.length (filter encodes (Batch.events batch)) ->
  Forall readable resp ->
  exists request outs,
    fst (sendPartition this batch clock
           (FetchResolve (Response.mk true status_ (JsonResolve (VArray resp)))))
    = set_responses (set_fetches this (fetches this ++ [request]))
                    (responses this ++ [outs]) /\
    Request.method request = "POST"%string /\
    List.length outs = List.length (Batch.events batch) /\
    forall j ev,
      nth_error (Batch.events batch) j = Some ev ->
      nth_error outs j
      = Some (expectedOutcome resp (end_try clock - start clock)
                              (Batch.events batch) j ev).
Proof.
  intros Hurl Hfresh Hsome Hlen Hread.
  destruct (mapResponses_fanout resp (end_try clock - start clock)
              (Batch.events batch) [] Hfresh Hread) as (outs & Hmap & Hnth).
  { simpl. lia. }
  simpl in Hmap.
  unfold sendPartition, startPartition. rewrite Hurl, encodeBatchEvents_spec.
  destruct (Z.eqb_spec
              (Z.of_nat (List.length (filter encodes (Batch.events batch)))) 0)
    as [Hz|Hz].
  { destruct (filter encodes (Batch.events batch)); [contradiction|].
    simpl in Hz. lia. }
  eexists. exists outs. simpl. unfold finishPartition. simpl. rewrite Hmap.
  split; [reflexivity|]. split; [reflexivity|].
  split.
  - apply mapResponses_length in Hmap. now rewrite length_map in Hmap.
  - intros j ev H. exact (Hnth j ev H).
Qed.

End FanoutFacts.

Lemma C4_witness :
  let batch := Batch.mk "http://localhost:9999" "123456789" "test-transmission"
                        [ev1; ev_bad; ev2] in
  let resp :=
    [VObject [("status"%string, VNumber 202); ("err"%string, VNull)];
     VObject [("status"%string, VNumber 400);
              ("err"%string, VString "bad field")]] in
  Forall (fun ev => encodeError ev = None) (Batch.events batch) /\
  List.length resp
    = List.length (filter (@encodes sample_platform) (Batch.events batch)) /\
  Forall readable resp /\
  responses
    (fst (@sendPartition sample_platform (constructor Options.empty) batch
            (mkClock 100 107 109)
            (FetchResolve (Response.mk true (Some 200)
                             (JsonResolve (VArray resp))))))
  = [[Outcome.mk (Some (VNumber 202)) (Some 7) (VString "m1") VNull;
      Outcome.mk None (Some 7) (VString "bad")
        (VError (mkError "TypeError" "Do not know how to serialize a BigInt"
                         None false));
      Outcome.mk (Some (VNumber 400)) (Some 7) (VString "m2")
        (VString "bad field")]].
Proof.
  cbv zeta.
  assert (Hf : Forall (fun ev => encodeError ev = None) [ev1; ev_bad; ev2])
    by (repeat constructor).
  assert (Hr : Forall readable
                 [VObject [("status"%string, VNumber 202); ("err"%string, VNull)];
                  VObject [("status"%string, VNumber 400);
                           ("err"%string, VString "bad field")]])
    by (repeat constructor; discriminate).
  split; [exact Hf|]. split; [reflexivity|]. split; [exact Hr|].
  destruct (@C4_response_fanout sample_platform (constructor Options.empty)
              (Batch.mk "http://localhost:9999" "123456789" "test-transmission"
                        [ev1; ev_bad; ev2])
              _ (mkClock 100 107 109) (Some 200)
              [VObject [("status"%string, VNumber 202); ("err"%string, VNull)];
               VObject [("status"%string, VNumber 400);
                        ("err"%string, VString "bad field")]]
              eq_refl Hf ltac:(discriminate) eq_refl Hr)
    as (request & outs & E & _ & Hlen & Hnth).
  rewrite E. simpl. f_equal.
  pose proof (Hnth 0%nat _ eq_refl) as H0.
  pose proof (Hnth 1%nat _ eq_refl) as H1.
  pose proof (Hnth 2%nat _ eq_refl) as H2.
  simpl in Hlen.
  destruct outs as [|o0 [|o1 [|o2 [|o3 outs]]]]; try discriminate.
  simpl in H0, H1, H2.
  injection H0 as ->. injection H1 as ->. injection H2 as ->.
  reflexivity.
Defined.

(* ------------------------------------------------------------------ *)
(** ** Scenarios of the test suite *)

(** "should drop events beyond the pendingWorkCapacity": capacity 5, ten
    events, then the timer and the batch. *)
Example scenario_overflow :
  exists final,
    @run sample_platform
       (constructor (Options.mk None (Some 50) None (Some 5) None None))
       (repeat (CallSendPresampledEvent ev1) 10
        ++ [TimerFires 0;
            PartitionSettles 0 (mkClock 0 3 3) (accepted 5);
            BatchSettles 0])
      = Some final /\
    List.length (filter is_overflow (outcomes final)) = 5%nat /\
    List.length (outcomes final) = 10%nat /\
    List.length (fetches final) = 1%nat /\
    _eventQueue final = [] /\ _batchCount final = 0.
Proof. eexists. split; [vm_compute; reflexivity|]. repeat split. Qed.

(** "should send the right number events even if it requires multiple
    concurrent batches": trigger 5, ten events, two requests. *)
Example scenario_two_batches :
  exists final,
    @run sample_platform
       (constructor (Options.mk (Some 5%float) (Some 50) None (Some 10) None None))
       (repeat (CallSendEvent ev1 0.5%float) 10
        ++ [CallFlush;
            PartitionSettles 0 (mkClock 0 3 3) (accepted 5);
            PartitionSettles 1 (mkClock 0 4 4) (accepted 5);
            BatchSettles 1; BatchSettles 0])
      = Some final /\
    List.length (fetches final) = 2%nat /\
    List.length (outcomes final) = 10%nat /\
    map Request.url (fetches final)
      = ["http://localhost:9999/1/batch/test-transmission"%string;
         "http://localhost:9999/1/batch/test-transmission"%string] /\
    resolved final = [0%nat].
Proof. eexists. split; [vm_compute; reflexivity|]. repeat split. Qed.

(** "should deal with encoding errors": eleven events, the sixth does not
    serialize; one request with ten elements, eleven outcomes. *)
Example scenario_encoding_error :
  exists final,
    @run sample_platform (constructor Options.empty)
       (repeat (CallSendPresampledEvent ev1) 5
        ++ [CallSendPresampledEvent ev_bad]
        ++ repeat (CallSendPresampledEvent ev1) 5
        ++ [TimerFires 0;
            PartitionSettles 0 (mkClock 0 3 3) (accepted 10);
            BatchSettles 0])
      = Some final /\
    map Request.body (fetches final) = ["[{},{},{},{},{},{},{},{},{},{}]"%string] /\
    List.length (outcomes final) = 11%nat /\
    option_map Outcome.metadata (nth_error (outcomes final) 5)
      = Some (VString "bad") /\
    option_map Outcome.status_code (nth_error (outcomes final) 5) = Some None.
Proof. eexists. split; [vm_compute; reflexivity|]. repeat split. Qed.

(* ================================================================== *)
(** * Further properties of the code *)

(* ------------------------------------------------------------------ *)
(** ** partition and the aggregator *)

Lemma lookup_app {A : Type} (k : string) (o o' : list (string * A)) :
  lookup k (o ++ o')
  = match lookup k o with
    | Some v => Some v
    | None => lookup k o'
    end.
Proof.
  induction o as [|[k' v] o IH]; simpl; [reflexivity|].
  destruct (String.eqb k k'); [reflexivity | exact IH].
Qed.

Lemma lookup_update {A : Type} (k k' : string) (f : A -> A)
    (o : list (string * A)) :
  lookup k' (update k f o)
  = if String.eqb k' k then option_map f (lookup k' o) else lookup k' o.
Proof.
  induction o as [|[k0 v] o IH]; simpl.
  - now destruct (String.eqb k' k).
  - destruct (String.eqb_spec k k0) as [->|Hne]; simpl.
    + destruct (String.eqb_spec k' k0) as [->|Hne']; [reflexivity|].
      reflexivity.
    + destruct (String.eqb_spec k' k0) as [->|Hne'].
      * destruct (String.eqb_spec k0 k) as [->|]; [contradiction | reflexivity].
      * exact IH.
Qed.

Lemma map_fst_update {A : Type} (k : string) (f : A -> A)
    (o : list (string * A)) :
  map fst (update k f o) = map fst o.
Proof.
  induction o as [|[k0 v] o IH]; simpl; [reflexivity|].
  destruct (String.eqb k k0); simpl; [reflexivity | now rewrite IH].
Qed.

Lemma lookup_None_iff {A : Type} (k : string) (o : list (string * A)) :
  lookup k o = None <-> ~ In k (map fst o).
Proof.
  induction o as [|[k0 v] o IH]; simpl; [tauto|].
  destruct (String.eqb_spec k k0) as [->|Hne].
  - split; [discriminate | intros H; exfalso; apply H; now left].
  - rewrite IH. split; [intros H [E|E]; [congruence | contradiction] | tauto].
Qed.

Lemma lookup_In {A : Type} (k : string) (v : A) (o : list (string * A)) :
  NoDup (map fst o) -> In (k, v) o -> lookup k o = Some v.
Proof.
  induction o as [|[k0 v0] o IH]; simpl; [contradiction|].
  intros Hnd [E|Hin].
  - injection E as -> ->. now rewrite String.eqb_refl.
  - inversion Hnd as [|? ? Hnot Hnd']; subst.
    destruct (String.eqb_spec k k0) as [->|Hne]; [|now apply IH].
    exfalso. apply Hnot. apply (in_map fst) in Hin. exact Hin.
Qed.

Lemma aggregator_snoc (pre : list ValidatedEvent) (ev : ValidatedEvent) :
  BatchEndpointAggregator (pre ++ [ev])
  = match lookup (batchKey ev) (BatchEndpointAggregator pre) with
    | None =>
        BatchEndpointAggregator pre
        ++ [(batchKey ev,
             Batch.mk (apiHost ev) (writeKey ev) (dataset ev) [ev])]
    | Some _ =>
        update (batchKey ev) (fun b => Batch.push b ev)
               (BatchEndpointAggregator pre)
    end.
Proof.
  unfold BatchEndpointAggregator, partition. now rewrite fold_left_app.
Qed.

Lemma keyed_snoc (k : string) (pre : list ValidatedEvent) (ev : ValidatedEvent) :
  keyed k (pre ++ [ev])
  = keyed k pre ++ (if String.eqb (batchKey ev) k then [ev] else []).
Proof. unfold keyed. now rewrite filter_app. Qed.

(** What the aggregator holds under a key: nothing when no event has the
    key, and otherwise the events with that key, in order, under the
    destination of the first of them. *)
Lemma aggregator_lookup (events : list ValidatedEvent) :
  forall k,
    lookup k (BatchEndpointAggregator events)
    = match keyed k events with
      | [] => None
      | e0 :: rest =>
          Some (Batch.mk (apiHost e0) (writeKey e0) (dataset e0) (e0 :: rest))
      end.
Proof.
  induction events as [|ev pre IH] using rev_ind; intros k; [reflexivity|].
  rewrite aggregator_snoc, keyed_snoc.
  destruct (lookup (batchKey ev) (BatchEndpointAggregator pre)) as [b|] eqn:E.
  - rewrite lookup_update, String.eqb_sym.
    destruct (String.eqb_spec (batchKey ev) k) as [<-|Hne].
    + rewrite E. rewrite IH in E.
      destruct (keyed (batchKey ev) pre) as [|e0 rest]; [discriminate|].
      injection E as <-. reflexivity.
    + rewrite app_nil_r. apply IH.
  - rewrite lookup_app. simpl. rewrite String.eqb_sym.
    destruct (String.eqb_spec (batchKey ev) k) as [<-|Hne].
    + rewrite E. rewrite IH in E.
      destruct (keyed (batchKey ev) pre); [reflexivity | discriminate].
    + rewrite app_nil_r, IH. now destruct (keyed k pre).
Qed.

Lemma aggregator_keys_NoDup (events : list ValidatedEvent) :
  NoDup (map fst (BatchEndpointAggregator events)).
Proof.
  induction events as [|ev pre IH] using rev_ind; [constructor|].
  rewrite aggregator_snoc.
  destruct (lookup (batchKey ev) (BatchEndpointAggregator pre)) as [b|] eqn:E.
  - now rewrite map_fst_update.
  - rewrite map_app. simpl. apply NoDup_app; [exact IH | repeat constructor; easy |].
    intros k Hin [<-|[]]. now apply lookup_None_iff in E.
Qed.

Lemma concat_events_update (k : string) (ev : ValidatedEvent)
    (o : list (string * Batch.t)) (b : Batch.t) :
  lookup k o = Some b ->
  Permutation
    (List.concat (map Batch.events
                      (map snd (update k (fun b => Batch.push b ev) o))))
    (ev :: List.concat (map Batch.events (map snd o))).
Proof.
  induction o as [|[k0 b0] o IH]; simpl; [discriminate|].
  destruct (String.eqb k k0); intros H; simpl.
  - rewrite <- app_assoc. simpl.
    symmetry. apply Permutation_middle.
  - rewrite (IH H). symmetry. apply Permutation_middle.
Qed.

Lemma aggregator_Permutation (events : list ValidatedEvent) :
  Permutation
    (List.concat (map Batch.events (map snd (BatchEndpointAggregator events))))
    events.
Proof.
  induction events as [|ev pre IH] using rev_ind; [constructor|].
  rewrite aggregator_snoc.
  destruct (lookup (batchKey ev) (BatchEndpointAggregator pre)) as [b|] eqn:E.
  - rewrite (concat_events_update _ _ _ _ E), IH.
    apply Permutation_cons_append.
  - rewrite !map_app, concat_app. simpl.
    now apply Permutation_app_tail.
Qed.

Lemma held_aggregator (events : list ValidatedEvent) :
  held (map snd (BatchEndpointAggregator events)) = List.length events.
Proof.
  unfold held. apply Permutation_length, aggregator_Permutation.
Qed.

(** X1: the aggregator files every event of a cut in exactly one
    partition: the keys of the partitions are distinct, the partition under a
    key holds the events with that key in the order of the cut, it is not
    empty and it is addressed to the destination of the first of them, and
    the partitions together are a permutation of the cut. *)
Theorem aggregator_groups_by_key (events : list ValidatedEvent) :
  NoDup (map fst (BatchEndpointAggregator events)) /\
  (forall k b,
     In (k, b) (BatchEndpointAggregator events) ->
     Batch.events b = keyed k events /\
     exists e0 rest,
       keyed k events = e0 :: rest /\
       Batch.apiHost b = apiHost e0 /\
       Batch.writeKey b = writeKey e0 /\
       Batch.dataset b = dataset e0) /\
  (forall ev, In ev events ->
     exists b, In (batchKey ev, b) (BatchEndpointAggregator events) /\
               In ev (Batch.events b)) /\
  Permutation
    (List.concat (map Batch.events (map snd (BatchEndpointAggregator events))))
    events.
Proof.
  split; [apply aggregator_keys_NoDup|].
  split.
  { intros k b Hin.
    apply (lookup_In _ _ _ (aggregator_keys_NoDup events)) in Hin.
    rewrite aggregator_lookup in Hin.
    destruct (keyed k events) as [|e0 rest]; [discriminate|].
    injection Hin as <-. split; [reflexivity|].
    exists e0, rest. repeat split. }
  split; [|apply aggregator_Permutation].
  intros ev Hin.
  assert (Hk : In ev (keyed (batchKey ev) events)).
  { unfold keyed. apply filter_In. split; [exact Hin | apply String.eqb_refl]. }
  pose proof (aggregator_lookup events (batchKey ev)) as Hl.
  destruct (keyed (batchKey ev) events) as [|e0 rest] eqn:E; [contradiction|].
  exists (Batch.mk (apiHost e0) (writeKey e0) (dataset e0) (e0 :: rest)).
  split; [|exact Hk].
  clear - Hl. induction (BatchEndpointAggregator events) as [|[k0 b0] o IH];
    simpl in *; [discriminate|].
  destruct (String.eqb_spec (batchKey ev) k0) as [->|Hne].
  - injection Hl as ->. now left.
  - right. now apply IH.
Qed.

(** X2: two events whose joined keys coincide are filed in one
    partition, addressed to the host, write key and dataset of the first,
    whatever the destination of the second. *)
Theorem aggregator_key_collision (e1 e2 : ValidatedEvent) :
  batchKey e1 = batchKey e2 ->
  map snd (BatchEndpointAggregator [e1; e2])
  = [Batch.mk (apiHost e1) (writeKey e1) (dataset e1) [e1; e2]].
Proof.
  intros H. change [e1; e2] with ([e1] ++ [e2]).
  rewrite aggregator_snoc, <- H.
  change (BatchEndpointAggregator [e1])
    with [(batchKey e1, Batch.mk (apiHost e1) (writeKey e1) (dataset e1) [e1])].
  cbn [lookup update]. rewrite String.eqb_refl. reflexivity.
Qed.

Lemma aggregator_key_collision_witness :
  batchKey ev_host_a_b = batchKey ev_host_a /\
  (apiHost ev_host_a_b, writeKey ev_host_a_b)
    <> (apiHost ev_host_a, writeKey ev_host_a) /\
  map snd (BatchEndpointAggregator [ev_host_a_b; ev_host_a])
  = [Batch.mk "http://a_b" "c" "d" [ev_host_a_b; ev_host_a]].
Proof.
  split; [reflexivity|]. split; [discriminate|].
  exact (aggregator_key_collision ev_host_a_b ev_host_a eq_refl).
Defined.

(* ------------------------------------------------------------------ *)
(** ** Bounds the dispatcher keeps *)

Lemma in_flight_events_app (this : Transmission) (l l' : list (list Batch.t))
    (H : running this = l ++ l') :
  in_flight_events this
  = (List.length (List.concat (map (fun batches =>
                                      List.concat (map Batch.events batches)) l))
     + List.length (List.concat (map (fun batches =>
                                        List.concat (map Batch.events batches)) l')))%nat.
Proof.
  unfold in_flight_events. now rewrite H, map_app, concat_app, length_app.
Qed.

(** A cut moves events from the queue to a suspended invocation: it
    neither creates nor loses one. *)
Lemma accounted_sendBatch (this : Transmission) :
  accounted (_sendBatch this) = accounted this.
Proof.
  destruct (Z.eq_dec (_batchCount this) maxConcurrentBatches) as [H|H].
  - now rewrite _sendBatch_refused.
  - destruct (_sendBatch_proceeds this H) as (Hq & Hr & _ & _ & _ & _ & Hs & _).
    unfold accounted, outcomes. rewrite Hs, Hq.
    rewrite (in_flight_events_app _ _ _ Hr). simpl. rewrite app_nil_r.
    fold (held (map snd (BatchEndpointAggregator
                           (firstn (actualDeleteCount
                                      (_batchSizeTrigger this)
                                      (List.length (_eventQueue this)))
                                   (_eventQueue this))))).
    rewrite held_aggregator. unfold in_flight_events.
    pose proof (firstn_skipn (actualDeleteCount (_batchSizeTrigger this)
                                (List.length (_eventQueue this)))
                             (_eventQueue this))
      as Hsplit.
    apply (f_equal (@List.length _)) in Hsplit. rewrite length_app in Hsplit.
    lia.
Qed.

Lemma accounted_ensureSendTimeout (this : Transmission) :
  accounted (_ensureSendTimeout this) = accounted this.
Proof.
  destruct (_ensureSendTimeout_frame this) as (Hq & Hr & _ & _ & Hs & _).
  unfold accounted, outcomes, in_flight_events. now rewrite Hq, Hr, Hs.
Qed.

Lemma outcomes_responseCallback (this : Transmission) (outs : list Outcome.t) :
  List.length (outcomes (_responseCallback this outs))
  = (List.length (outcomes this) + List.length outs)%nat.
Proof.
  unfold outcomes, _responseCallback. simpl.
  rewrite concat_app, length_app. simpl. now rewrite app_nil_r.
Qed.

Lemma accounted_sendPresampledEvent (this : Transmission) (ev : ValidatedEvent) :
  accounted (sendPresampledEvent this ev) = S (accounted this).
Proof.
  unfold sendPresampledEvent. destruct (_ >=? _).
  - unfold accounted, _droppedCallback. rewrite outcomes_responseCallback.
    simpl. unfold in_flight_events. simpl. lia.
  - assert (Hp : accounted (set_eventQueue this (_eventQueue this ++ [ev]))
                 = S (accounted this)).
    { unfold accounted, outcomes, in_flight_events. simpl.
      rewrite length_app. simpl. lia. }
    destruct (geb_number _ _);
      [rewrite accounted_sendBatch | rewrite accounted_ensureSendTimeout];
      exact Hp.
Qed.

Lemma accounted_sendEvent (this : Transmission) (ev : ValidatedEvent)
    (random : float) :
  accounted (sendEvent this ev random) = S (accounted this).
Proof.
  unfold sendEvent. destruct (negb _).
  - unfold accounted, _droppedCallback. rewrite outcomes_responseCallback.
    simpl. unfold in_flight_events. simpl. lia.
  - apply accounted_sendPresampledEvent.
Qed.

Lemma accounted_finishBatch (this : Transmission) :
  accounted (finishBatch this) = accounted this.
Proof.
  unfold finishBatch.
  assert (H : accounted (set_batchCount this (_batchCount this - 1))
              = accounted this) by reflexivity.
  destruct (_ >? 0).
  - destruct (geb_number _ _);
      [rewrite accounted_sendBatch | rewrite accounted_ensureSendTimeout];
      exact H.
  - simpl. destruct (_ =? 0); [|exact H].
    destruct (flushCallback this); exact H.
Qed.

Lemma flight_replace_nth (k : nat) (x y : list Batch.t)
    (l : list (list Batch.t)) :
  nth_error l k = Some x ->
  (List.length (List.concat (map (fun batches =>
                                    List.concat (map Batch.events batches))
                                 (replace_nth k y l)))
   + held x
   = List.length (List.concat (map (fun batches =>
                                      List.concat (map Batch.events batches)) l))
     + held y)%nat.
Proof.
  revert k. induction l as [|z l IH]; intros [|k]; simpl; try discriminate.
  - intros H. injection H as ->. rewrite !length_app. unfold held. lia.
  - intros H. specialize (IH k H). rewrite !length_app. lia.
Qed.

Lemma flight_remove_nth (k : nat) (x : list Batch.t)
    (l : list (list Batch.t)) :
  nth_error l k = Some x ->
  (List.length (List.concat (map (fun batches =>
                                    List.concat (map Batch.events batches))
                                 (remove_nth k l)))
   + held x
   = List.length (List.concat (map (fun batches =>
                                      List.concat (map Batch.events batches)) l)))%nat.
Proof.
  revert k. induction l as [|z l IH]; intros [|k]; simpl; try discriminate.
  - intros H. injection H as ->. rewrite !length_app. unfold held. lia.
  - intros H. specialize (IH k H). rewrite !length_app. lia.
Qed.

(** The handler of a partition reports one outcome for each of its
    events, unless the URL of the partition is malformed: then it throws and
    reports none. *)
Lemma sendPartition_outcomes {P : Platform} (this this' : Transmission)
    (batch : Batch.t) (clock : Clock) (result : FetchResult) (threw : bool) :
  sendPartition this batch clock result = (this', threw) ->
  List.length (outcomes this')
  = (List.length (outcomes this)
     + if threw then 0 else List.length (Batch.events batch))%nat /\
  (threw = true <->
   exists e,
     URL_href ("/1/batch/" ++ Batch.dataset batch) (Batch.apiHost batch)
       = Throw e).
Proof.
  unfold sendPartition, startPartition.
  destruct (URL_href _ _) as [url|e] eqn:Hurl.
  - rewrite encodeBatchEvents_spec.
    destruct (_ =? 0); intros H; injection H as <- <-.
    + rewrite outcomes_responseCallback, !length_map.
      split; [reflexivity|]. split; [discriminate | intros [e He]; discriminate].
    + rewrite outcomes_responseCallback, finishPartition_length, length_map.
      split; [reflexivity|]. split; [discriminate | intros [e He]; discriminate].
  - intros H. injection H as <- <-. split.
    + unfold outcomes. simpl. lia.
    + split; [intros _; now exists e | reflexivity].
Qed.

Lemma accounted_step {P : Platform} (this this' : Transmission) (i : Input) :
  step this i = Some this' ->
  (accounted this' <= accounted this + submits i)%nat /\
  (addressed this i = true ->
   accounted this' = (accounted this + submits i)%nat).
Proof.
  destruct i; simpl; intros H.
  - injection H as <-. rewrite accounted_sendEvent. split; [lia | intros _; lia].
  - injection H as <-. rewrite accounted_sendPresampledEvent.
    split; [lia | intros _; lia].
  - injection H as <-.
    assert (E : accounted (snd (flush this)) = accounted this)
      by (unfold flush; destruct (_ && _); reflexivity).
    rewrite E. split; [lia | intros _; lia].
  - destruct (in_dec _ _ _); [|discriminate]. injection H as <-.
    rewrite accounted_sendBatch.
    assert (E : accounted (set_timers this
                             (List.remove Nat.eq_dec id (timers this))
                             (nextTimer this)) = accounted this) by reflexivity.
    rewrite E. split; [lia | intros _; lia].
  - destruct (nth_error (running this) k) as [[|batch rest]|] eqn:Hk;
      try discriminate.
    destruct (sendPartition this batch clock result) as [t threw] eqn:E.
    injection H as <-.
    destruct (sendPartition_outcomes _ _ _ _ _ _ E) as [Hout Hthrew].
    apply sendPartition_frame in E as (_ & _ & Hr & Hq & _).
    rewrite Hr.
    pose proof (flight_replace_nth k (batch :: rest)
                  (if threw then [] else rest) (running this) Hk) as Hf.
    unfold accounted, in_flight_events. simpl.
    unfold outcomes in Hout. unfold outcomes. simpl. rewrite Hout, Hq.
    unfold held in Hf. simpl in Hf. rewrite length_app in Hf.
    split.
    + destruct threw; simpl in *; lia.
    + intros Hok. destruct threw; simpl in *; [|lia].
      destruct (proj1 Hthrew eq_refl) as [e He].
      simpl in He. rewrite He in Hok. discriminate.
  - destruct (nth_error (running this) k) as [[|batch rest]|] eqn:Hk;
      try discriminate.
    injection H as <-. rewrite accounted_finishBatch.
    pose proof (flight_remove_nth k [] (running this) Hk) as Hf.
    unfold accounted, in_flight_events, outcomes. simpl.
    unfold held in Hf. simpl in Hf.
    split; [lia | intros _; lia].
Qed.

Lemma accounted_run {P : Platform} (inputs : list Input) :
  forall this this',
    run this inputs = Some this' ->
    (accounted this' <= accounted this + submitted inputs)%nat /\
    (well_addressed this inputs = true ->
     accounted this' = (accounted this + submitted inputs)%nat).
Proof.
  induction inputs as [|i inputs IH]; simpl; intros this this' H.
  - injection H as <-. unfold submitted. simpl. split; [lia | intros _; lia].
  - destruct (step this i) as [t|] eqn:E; [|discriminate].
    destruct (accounted_step _ _ _ E) as [Hle Heq].
    destruct (IH _ _ H) as [Hle' Heq'].
    unfold submitted in *. simpl. split; [lia|].
    intros Hok. apply andb_prop in Hok as [Hi Hrest].
    rewrite (Heq' Hrest), (Heq Hi). lia.
Qed.

(** X3: over any run of a new transmission, the outcomes reported, the
    events queued and the events held by batches in flight together never
    exceed the events submitted; when the URL of every partition handled in
    the run is well formed they are exactly the events submitted, so that once
    the queue is empty and no batch is in flight every submitted event has had
    exactly one outcome. *)
Theorem every_event_accounted_for {P : Platform} (options : Options.t)
    (inputs : list Input) (final : Transmission) :
  run (constructor options) inputs = Some final ->
  (List.length (outcomes final) + List.length (_eventQueue final)
   + in_flight_events final <= submitted inputs)%nat /\
  (well_addressed (constructor options) inputs = true ->
   (List.length (outcomes final) + List.length (_eventQueue final)
    + in_flight_events final = submitted inputs)%nat /\
   (_eventQueue final = [] -> running final = [] ->
    List.length (outcomes final) = submitted inputs)).
Proof.
  intros H. destruct (accounted_run _ _ _ H) as [Hle Heq].
  unfold accounted in *. simpl in *.
  change (in_flight_events (constructor options)) with 0%nat in *.
  change (List.length (outcomes (constructor options))) with 0%nat in *.
  split; [lia|]. intros Ht. specialize (Heq Ht). split; [lia|].
  intros Hq Hr. unfold in_flight_events in Heq. rewrite Hq, Hr in Heq.
  simpl in Heq. lia.
Qed.

Lemma every_event_accounted_for_witness :
  let inputs :=
    repeat (CallSendPresampledEvent ev1) 10
    ++ [TimerFires 0;
        PartitionSettles 0 (mkClock 0 3 3) (accepted 5);
        BatchSettles 0] in
  let options := Options.mk None (Some 50) None (Some 5) None None in
  exists final,
    @run strict_platform (constructor options) inputs = Some final /\
    @well_addressed strict_platform (constructor options) inputs = true /\
    @URL_href strict_platform "/1/batch/test-transmission" "nowhere"
      = Throw (mkError "TypeError" "Invalid URL" None false) /\
    List.length (outcomes final) = 10%nat.
Proof.
  cbv zeta. eexists.
  assert (H : @run strict_platform
                (constructor (Options.mk None (Some 50) None (Some 5) None None))
                (repeat (CallSendPresampledEvent ev1) 10
                 ++ [TimerFires 0;
                     PartitionSettles 0 (mkClock 0 3 3) (accepted 5);
                     BatchSettles 0])
              = Some _) by (vm_compute; reflexivity).
  assert (Hok : @well_addressed strict_platform
                  (constructor
                     (Options.mk None (Some 50) None (Some 5) None None))
                  (repeat (CallSendPresampledEvent ev1) 10
                   ++ [TimerFires 0;
                       PartitionSettles 0 (mkClock 0 3 3) (accepted 5);
                       BatchSettles 0])
                = true) by (vm_compute; reflexivity).
  split; [exact H|]. split; [exact Hok|]. split; [reflexivity|].
  destruct (every_event_accounted_for _ _ _ H) as [_ Heq].
  destruct (Heq Hok) as [_ Hdone].
  exact (Hdone eq_refl eq_refl).
Defined.

Lemma bounded_frame (this this' : Transmission) :
  config this' = config this ->
  _eventQueue this' = _eventQueue this ->
  _batchCount this' = _batchCount this ->
  running this' = running this ->
  timers this' = timers this ->
  bounded this -> bounded this'.
Proof.
  intros Hc Hq Hn Hr Ht [B1 B2 B3 B4 B5]. unfold config in Hc.
  injection Hc as Ht1 _ _ Hcap _ _.
  constructor; rewrite ?Ht1, ?Hcap, ?Hq, ?Hn, ?Hr, ?Ht; assumption.
Qed.

Section TriggerFacts.
Variable t : float.
Hypothesis floored :
  PrimFloat.is_nan t = true \/ PrimFloat.leb 1 t = true.

(** A queue shorter than one that fails the size test fails it too. *)
Lemma geb_number_mono (n m : Z) :
  geb_number n t = false -> m <= n -> geb_number m t = false.
Proof.
  destruct (floored_view t floored) as [_ Hg _|Hg _|f c _ _ Hg _];
    rewrite ?Hg; try reflexivity.
  intros Hn Hm. apply Z.leb_gt. apply Z.leb_gt in Hn. lia.
Qed.

Lemma geb_number_zero : geb_number 0 t = false.
Proof.
  destruct (floored_view t floored) as [_ Hg _|Hg _|f c Hf Hc Hg _];
    rewrite Hg; try reflexivity.
  apply Z.leb_gt. lia.
Qed.

(** A cut made when the queue has just reached the trigger leaves a queue
    that fails the size test. *)
Lemma geb_number_after_cut (len : nat) :
  geb_number (Z.of_nat len) t = false ->
  geb_number (Z.of_nat (S len - actualDeleteCount t (S len))) t = false.
Proof.
  unfold actualDeleteCount.
  destruct (floored_view t floored) as [_ Hg _|Hg _|f c Hf Hc Hg ->];
    rewrite ?Hg; try reflexivity.
  intros Hn. apply Z.leb_gt. apply Z.leb_gt in Hn. lia.
Qed.

(** A cut takes no more events than the integer part of the trigger, which
    is not negative. *)
Lemma actualDeleteCount_integer (len : nat) (n : Z) :
  ToIntegerOrInfinity t = Integer n ->
  0 <= n /\ Z.of_nat (actualDeleteCount t len) <= n.
Proof.
  unfold actualDeleteCount.
  destruct (floored_view t floored) as [_ _ ->|_ ->|f c Hf _ _ ->];
    intros E; try discriminate; injection E as <-; lia.
Qed.

End TriggerFacts.

Lemma bounded_sendBatch (this : Transmission) :
  (PrimFloat.is_nan (_batchSizeTrigger this) = true
   \/ PrimFloat.leb 1 (_batchSizeTrigger this) = true) ->
  Z.of_nat (List.length (_eventQueue this))
    <= Z.max (_pendingWorkCapacity this) 0 ->
  (geb_number
     (Z.of_nat (List.length (_eventQueue this)
                - actualDeleteCount (_batchSizeTrigger this)
                                    (List.length (_eventQueue this))))
     (_batchSizeTrigger this) = false
   \/ _batchCount this = maxConcurrentBatches - 1
   \/ _batchCount this = maxConcurrentBatches) ->
  Forall (fun batches =>
            forall n,
              ToIntegerOrInfinity (_batchSizeTrigger this) = Integer n ->
              Z.of_nat (held batches) <= n)
         (running this) ->
  (List.length (timers this) <= 1)%nat ->
  bounded (_sendBatch this).
Proof.
  intros B1 B2 B3 B4 B5.
  destruct (Z.eq_dec (_batchCount this) maxConcurrentBatches) as [H|H].
  - rewrite (_sendBatch_refused this H). constructor; auto.
  - destruct (_sendBatch_proceeds this H)
      as (Hq & Hr & Hn & _ & Ht & Hc & _).
    unfold config in Hc. injection Hc as Ht1 _ _ Hcap _ _.
    constructor; rewrite ?Ht1, ?Hcap, ?Hq, ?Hn, ?Hr, ?Ht.
    + exact B1.
    + rewrite length_skipn. lia.
    + rewrite length_skipn.
      destruct B3 as [B3|[B3|B3]]; [now left | right; lia | contradiction].
    + apply Forall_app. split; [exact B4|]. constructor; [|constructor].
      intros n Hi. rewrite held_aggregator, length_firstn.
      pose proof (actualDeleteCount_integer _ B1
                    (List.length (_eventQueue this)) n Hi). lia.
    + destruct (_sendTimeoutId this) as [id|]; [|exact B5].
      pose proof (remove_length_le Nat.eq_dec (timers this) id). lia.
Qed.

Lemma bounded_ensureSendTimeout (this : Transmission) :
  timers_sound this -> bounded this -> bounded (_ensureSendTimeout this).
Proof.
  intros T [B1 B2 B3 B4 B5]. unfold _ensureSendTimeout.
  destruct (_sendTimeoutId this) eqn:E; [constructor; assumption|].
  constructor; simpl; try assumption.
  rewrite (timers_sound_no_handle this T E). simpl. lia.
Qed.

Lemma bounded_sendPresampledEvent (this : Transmission) (ev : ValidatedEvent) :
  timers_sound this -> bounded this -> bounded (sendPresampledEvent this ev).
Proof.
  intros T B. pose proof B as [B1 B2 B3 B4 B5]. unfold sendPresampledEvent.
  destruct (Z.geb_spec (Z.of_nat (List.length (_eventQueue this)))
                       (_pendingWorkCapacity this)) as [Hfull|Hroom].
  - revert B. apply bounded_frame; reflexivity.
  - simpl.
    destruct (geb_number (Z.of_nat (List.length (_eventQueue this ++ [ev])))
                         (_batchSizeTrigger this)) eqn:Hsize.
    + apply bounded_sendBatch; simpl; try assumption.
      * rewrite length_app. simpl. lia.
      * destruct B3 as [B3|B3]; [left | right; right; exact B3].
        rewrite length_app, Nat.add_1_r.
        now apply geb_number_after_cut.
    + apply bounded_ensureSendTimeout.
      * destruct T as [T1 _]. split; simpl; [exact T1|].
        intros _ H. now apply app_eq_nil in H as [_ H].
      * constructor; simpl; try assumption; [|now left].
        rewrite length_app. simpl. lia.
Qed.

Lemma bounded_finishBatch (this : Transmission) :
  timers_sound this -> bounded this -> bounded (finishBatch this).
Proof.
  intros T [B1 B2 B3 B4 B5]. unfold finishBatch.
  destruct (Z.gtb_spec (Z.of_nat (List.length
              (_eventQueue (set_batchCount this (_batchCount this - 1))))) 0)
    as [Hq|Hq]; simpl in Hq.
  - simpl.
    destruct (geb_number (Z.of_nat (List.length (_eventQueue this)))
                         (_batchSizeTrigger this)) eqn:Hsize.
    + apply bounded_sendBatch; simpl; try assumption.
      unfold maxConcurrentBatches in *.
      destruct B3 as [B3|B3]; [congruence | right; left; lia].
    + apply bounded_ensureSendTimeout; [exact T|].
      constructor; simpl; try assumption. now left.
  - assert (B : bounded (set_batchCount this (_batchCount this - 1))).
    { constructor; simpl; try assumption. left.
      apply (geb_number_mono _ B1 0); [now apply geb_number_zero | lia]. }
    simpl. destruct (_ =? 0); [|exact B].
    destruct (flushCallback this); [|exact B].
    revert B. apply bounded_frame; reflexivity.
Qed.

Lemma Forall_replace_nth {A : Type} (Q : A -> Prop) (k : nat) (x : A)
    (l : list A) :
  Forall Q l -> Q x -> Forall Q (replace_nth k x l).
Proof.
  intros H Hx. revert k.
  induction H as [|y l Hy Hl IH]; intros [|k]; simpl; constructor; auto.
Qed.

Lemma Forall_remove_nth {A : Type} (Q : A -> Prop) (k : nat) (l : list A) :
  Forall Q l -> Forall Q (remove_nth k l).
Proof.
  intros H. revert k.
  induction H as [|y l Hy Hl IH]; intros [|k]; simpl; auto.
Qed.

Lemma bounded_step {P : Platform} (this this' : Transmission) (i : Input) :
  timers_sound this -> bounded this ->
  step this i = Some this' -> bounded this'.
Proof.
  intros T B. destruct i; simpl; intros H.
  - injection H as <-. unfold sendEvent. destruct (negb _).
    + revert B. apply bounded_frame; reflexivity.
    + now apply bounded_sendPresampledEvent.
  - injection H as <-. now apply bounded_sendPresampledEvent.
  - injection H as <-. unfold flush. destruct (_ && _); [exact B|].
    revert B. apply bounded_frame; reflexivity.
  - destruct (in_dec _ _ _); [|discriminate]. injection H as <-.
    destruct B as [B1 B2 B3 B4 B5].
    apply bounded_sendBatch; simpl; try assumption.
    + destruct B3 as [B3|B3]; [left | right; right; exact B3].
      apply (geb_number_mono _ B1 _ _ B3). lia.
    + pose proof (remove_length_le Nat.eq_dec (timers this) id). lia.
  - destruct (nth_error (running this) k) as [[|batch rest]|] eqn:Hk;
      try discriminate.
    destruct (sendPartition this batch clock result) as [t threw] eqn:E.
    injection H as <-.
    apply sendPartition_frame in E
      as (Hc & Hn & Hr & Hq & _ & _ & _ & Ht & _).
    destruct B as [B1 B2 B3 B4 B5]. unfold config in Hc.
    injection Hc as Ht1 _ _ Hcap _ _.
    constructor; simpl; rewrite ?Ht1, ?Hcap, ?Hq, ?Hn, ?Hr, ?Ht;
      try assumption.
    apply Forall_replace_nth; [exact B4|].
    rewrite Forall_forall in B4.
    pose proof (B4 _ (nth_error_In _ _ Hk)) as Hheld.
    intros n Hi. specialize (Hheld n Hi).
    unfold held in *. simpl in Hheld. rewrite length_app in Hheld.
    destruct threw; simpl; lia.
  - destruct (nth_error (running this) k) as [[|batch rest]|] eqn:Hk;
      try discriminate.
    injection H as <-. apply bounded_finishBatch.
    + exact T.
    + destruct B as [B1 B2 B3 B4 B5]. constructor; simpl; try assumption.
      now apply Forall_remove_nth.
Qed.

Lemma bounded_constructor (options : Options.t) :
  bounded (constructor options).
Proof.
  assert (B1 : PrimFloat.is_nan (_batchSizeTrigger (constructor options)) = true
               \/ PrimFloat.leb 1 (_batchSizeTrigger (constructor options))
                  = true).
  { simpl. destruct (Options.batchSizeTrigger options) as [b|];
      [|right; reflexivity].
    destruct (Math_max_1 b) as [[_ ->]|(_ & _ & H1 & _)];
      [left; reflexivity | right; exact H1]. }
  constructor; try exact B1.
  - simpl. lia.
  - left. now apply geb_number_zero.
  - constructor.
  - simpl. lia.
Qed.

Lemma reachable_bounded {P : Platform} (options : Options.t)
    (this : Transmission) :
  reachable options this -> bounded this.
Proof.
  induction 1 as [|this i this' R IH Hstep].
  - apply bounded_constructor.
  - exact (bounded_step _ _ _ (reachable_timers_sound _ _ R) IH Hstep).
Qed.




(** X5: in every state a transmission reaches at most one timer is
    pending, it is the one [_sendTimeoutId] names, and a cut that is not
    refused leaves none pending and the handle cleared. *)
Theorem single_send_timer {P : Platform} (options : Options.t)
    (this : Transmission) :
  reachable options this ->
  (List.length (timers this) <= 1)%nat /\
  (forall id, In id (timers this) -> _sendTimeoutId this = Some id) /\
  (_batchCount this <> maxConcurrentBatches ->
   timers (_sendBatch this) = [] /\ _sendTimeoutId (_sendBatch this) = None).
Proof.
  intros R. pose proof (reachable_timers_sound _ _ R) as T.
  destruct (reachable_bounded _ _ R) as [_ _ _ _ B5].
  split; [exact B5|]. split; [apply T|].
  intros H. destruct (_sendBatch_proceeds this H) as (_ & _ & _ & Hi & Ht & _).
  split; [|exact Hi]. rewrite Ht.
  destruct (_sendTimeoutId this) as [id|] eqn:E.
  - apply remove_all_equal. intros x Hx.
    destruct T as [T1 _]. specialize (T1 x Hx). congruence.
  - now apply timers_sound_no_handle.
Qed.

Lemma single_send_timer_witness :
  let waiting := sendPresampledEvent (constructor Options.empty) ev1 in
  @reachable sample_platform Options.empty waiting /\
  timers waiting = [0%nat] /\
  timers (_sendBatch waiting) = [].
Proof.
  cbv zeta.
  assert (R : @reachable sample_platform Options.empty
                (sendPresampledEvent (constructor Options.empty) ev1)).
  { eapply (reach_step _ _ (CallSendPresampledEvent ev1)); [|reflexivity].
    apply reach_new. }
  split; [exact R|]. split; [reflexivity|].
  destruct (single_send_timer _ _ R) as (_ & _ & H).
  apply H. vm_compute. intros E. discriminate E.
Defined.

(** X6: whatever the options, the in-flight count of a transmission is
    the number of [_sendBatch] invocations that have not reached
    [finishBatch], and it stays between 0 and 10. *)
Theorem in_flight_count_bounds {P : Platform} (options : Options.t)
    (this : Transmission) :
  reachable options this ->
  _batchCount this = Z.of_nat (List.length (running this)) /\
  0 <= _batchCount this <= 10.
Proof.
  intros R. destruct (reachable_invariant _ _ R) as [I1 I2 _ _ _].
  unfold maxConcurrentBatches in I2. split; [exact I1 | lia].
Qed.

Lemma in_flight_count_bounds_witness :
  exists busy,
    @run sample_platform
       (constructor (Options.mk (Some 1%float) None (Some 20) None None None))
       (repeat (CallSendPresampledEvent ev1) 12) = Some busy /\
    _maxConcurrentBatches busy = 20 /\
    0 <= _batchCount busy <= 10 /\
    List.length (_eventQueue busy) = 2%nat.
Proof.
  assert (Hr : exists busy,
             @run sample_platform
               (constructor (Options.mk (Some 1%float) None (Some 20) None None None))
               (repeat (CallSendPresampledEvent ev1) 12) = Some busy)
    by (vm_compute; eexists; reflexivity).
  destruct Hr as [busy Hb]. exists busy.
  pose proof (run_reachable _ _ _ _ (reach_new _) Hb) as R.
  destruct (in_flight_count_bounds _ _ R) as [_ Hbound].
  split; [exact Hb|]. split; [|split; [exact Hbound|]];
    vm_compute in Hb; injection Hb as <-; reflexivity.
Defined.

(* ------------------------------------------------------------------ *)
(** ** The partition handler under failure *)

Section HandlerFacts.
Context {P : Platform}.

Lemma afterEncode_encodeError_ok (ev : ValidatedEvent) (text : string) :
  JSON_stringify (VObject (toJSON ev)) = Normal text ->
  encodeError (afterEncode ev) = encodeError ev.
Proof. unfold afterEncode. now intros ->. Qed.

Lemma afterEncode_encodeError_failed (ev : ValidatedEvent) (e : JsError) :
  JSON_stringify (VObject (toJSON ev)) = Throw e ->
  encodeError (afterEncode ev) = Some e.
Proof. unfold afterEncode. now intros ->. Qed.

(** The [catch] block over the events encoding left, event by event. *)
Lemma catchOutcomes_afterEncode (error : JsError) (elapsed : Z)
    (events : list ValidatedEvent) :
  Forall (fun ev => encodeError ev = None) events ->
  catchOutcomes error elapsed (map afterEncode events)
  = map (fun ev =>
           match JSON_stringify (VObject (toJSON ev)) with
           | Normal _ =>
               Outcome.mk (Some (status_or_undefined (reported error)))
                          (Some elapsed) (metadata ev)
                          (VError (reported error))
           | Throw e =>
               Outcome.mk (Some VUndefined) (Some elapsed) (metadata ev)
                          (VError e)
           end) events.
Proof.
  intros Hfresh. unfold catchOutcomes. fold (reported error).
  rewrite map_map. apply map_ext_in. intros ev Hin.
  rewrite Forall_forall in Hfresh. specialize (Hfresh ev Hin).
  rewrite afterEncode_metadata.
  destruct (JSON_stringify (VObject (toJSON ev))) as [text|e] eqn:Hs.
  - now rewrite (afterEncode_encodeError_ok _ _ Hs), Hfresh.
  - now rewrite (afterEncode_encodeError_failed _ _ Hs).
Qed.

Lemma finishPartition_transportError (events : list ValidatedEvent)
    (clock : Clock) (result : FetchResult) (error : JsError) :
  transportError result = Some error ->
  finishPartition events clock result
  = catchOutcomes error (end_catch clock - start clock) events.
Proof.
  unfold transportError, finishPartition.
  destruct result as [e|response]; [now intros [= ->]|].
  destruct (negb (Response.ok response)); [now intros [= <-]|].
  destruct (Response.json response); [now intros [= ->] | discriminate].
Qed.

(** X7: when the request of a partition fails (the fetch rejects, the
    response is not [ok], or its body does not parse), the response callback
    is called once with one outcome per event, in order: an event that was in
    the body gets the failure as its error, marked [timeout] if the request
    was aborted, and the failure's HTTP status, if it has one, as
    [status_code]; an event that did not serialize gets its encode error and
    an undefined [status_code]. *)
Theorem transport_failure_outcomes (this : Transmission) (batch : Batch.t)
    (url : string) (clock : Clock) (result : FetchResult) (error : JsError) :
  URL_href ("/1/batch/" ++ Batch.dataset batch) (Batch.apiHost batch)
    = Normal url ->
  Forall (fun ev => encodeError ev = None) (Batch.events batch) ->
  filter encodes (Batch.events batch) <> [] ->
  transportError result = Some error ->
  responses (fst (sendPartition this batch clock result))
  = responses this
    ++ [map (fun ev =>
               match JSON_stringify (VObject (toJSON ev)) with
               | Normal _ =>
                   Outcome.mk (Some (status_or_undefined (reported error)))
                              (Some (end_catch clock - start clock))
                              (metadata ev) (VError (reported error))
               | Throw e =>
                   Outcome.mk (Some VUndefined)
                              (Some (end_catch clock - start clock))
                              (metadata ev) (VError e)
               end) (Batch.events batch)] /\
  (name error = "AbortError"%string -> timeout (reported error) = true) /\
  (name error <> "AbortError"%string -> reported error = error).
Proof.
  intros Hurl Hfresh Hsome Herr.
  split.
  - unfold sendPartition, startPartition.
    rewrite Hurl, encodeBatchEvents_spec.
    destruct (Z.eqb_spec
                (Z.of_nat (List.length (filter encodes (Batch.events batch)))) 0)
      as [Hz|Hz].
    { destruct (filter encodes (Batch.events batch)); [contradiction|].
      simpl in Hz. lia. }
    simpl. rewrite (finishPartition_transportError _ _ _ _ Herr).
    now rewrite catchOutcomes_afterEncode.
  - unfold reported. split.
    + intros ->. reflexivity.
    + intros Hne. destruct (String.eqb_spec (name error) "AbortError");
        [contradiction | reflexivity].
Qed.

End HandlerFacts.

Lemma transport_failure_outcomes_witness :
  let batch := Batch.mk "http://localhost:9999" "123456789" "test-transmission"
                        [ev1; ev_bad] in
  Forall (fun ev => encodeError ev = None) (Batch.events batch) /\
  responses
    (fst (@sendPartition sample_platform (constructor Options.empty) batch
            (mkClock 10 0 14)
            (FetchResolve (Response.mk false (Some 404) (JsonResolve VNull)))))
  = [[Outcome.mk (Some (VNumber 404)) (Some 4) (VString "m1")
        (VError (mkError "Error" "HTTP error! status: 404" (Some 404) false));
      Outcome.mk (Some VUndefined) (Some 4) (VString "bad")
        (VError (mkError "TypeError" "Do not know how to serialize a BigInt"
                         None false))]] /\
  responses
    (fst (@sendPartition sample_platform (constructor Options.empty) batch
            (mkClock 10 0 2010)
            (FetchReject (mkError "AbortError" "This operation was aborted"
                                  None false))))
  = [[Outcome.mk (Some VUndefined) (Some 2000) (VString "m1")
        (VError (mkError "AbortError" "This operation was aborted" None true));
      Outcome.mk (Some VUndefined) (Some 2000) (VString "bad")
        (VError (mkError "TypeError" "Do not know how to serialize a BigInt"
                         None false))]].
Proof.
  cbv zeta.
  assert (Hf : Forall (fun ev => encodeError ev = None) [ev1; ev_bad])
    by (repeat constructor).
  split; [exact Hf|]. split.
  - destruct (@transport_failure_outcomes sample_platform
                (constructor Options.empty)
                (Batch.mk "http://localhost:9999" "123456789"
                          "test-transmission" [ev1; ev_bad])
                _ (mkClock 10 0 14)
                (FetchResolve (Response.mk false (Some 404) (JsonResolve VNull)))
                _ eq_refl Hf ltac:(discriminate) eq_refl) as [E _].
    rewrite E. reflexivity.
  - destruct (@transport_failure_outcomes sample_platform
                (constructor Options.empty)
                (Batch.mk "http://localhost:9999" "123456789"
                          "test-transmission" [ev1; ev_bad])
                _ (mkClock 10 0 2010)
                (FetchReject (mkError "AbortError" "This operation was aborted"
                                      None false))
                _ eq_refl Hf ltac:(discriminate) eq_refl) as [E _].
    rewrite E. reflexivity.
Defined.

Lemma mapResponses_failed (responseData : Value) (elapsed : Z) :
  forall (events : list ValidatedEvent) (respIdx : nat) (outs : list Outcome.t),
    mapResponses responseData elapsed events respIdx = Normal outs ->
    forall j ev e,
      nth_error events j = Some ev -> encodeError ev = Some e ->
      nth_error outs j
      = Some (Outcome.mk None (Some elapsed) (metadata ev) (VError e)).
Proof.
  induction events as [|ev0 events IH]; simpl; intros respIdx outs H j ev e Hj He.
  - destruct j; discriminate.
  - destruct (encodeError ev0) as [e0|] eqn:E0.
    + destruct (mapResponses responseData elapsed events respIdx) as [o|]
        eqn:E; simpl in H; [|discriminate].
      injection H as <-. destruct j as [|j]; simpl in *.
      * injection Hj as <-. rewrite E0 in He. now injection He as <-.
      * exact (IH _ _ E j ev e Hj He).
    + destruct (getIndex responseData respIdx) as [nextResponse|];
        simpl in H; [|discriminate].
      destruct (getProp nextResponse "status"); simpl in H; [|discriminate].
      destruct (getProp nextResponse "err"); simpl in H; [|discriminate].
      destruct (mapResponses responseData elapsed events (S respIdx)) as [o|]
        eqn:E; simpl in H; [|discriminate].
      injection H as <-. destruct j as [|j]; simpl in *.
      * injection Hj as <-. congruence.
      * exact (IH _ _ E j ev e Hj He).
Qed.

(** An event with an encode error gets it as the error of its outcome,
    and no status, however the request settles. *)
Lemma finishPartition_failed (events : list ValidatedEvent) (clock : Clock)
    (result : FetchResult) (j : nat) (ev : ValidatedEvent) (e : JsError) :
  nth_error events j = Some ev -> encodeError ev = Some e ->
  exists o,
    nth_error (finishPartition events clock result) j = Some o /\
    Outcome.error o = VError e /\
    Outcome.metadata o = metadata ev /\
    (Outcome.status_code o = None \/ Outcome.status_code o = Some VUndefined).
Proof.
  intros Hj He.
  assert (Hcatch : forall error elapsed,
             exists o,
               nth_error (catchOutcomes error elapsed events) j = Some o /\
               Outcome.error o = VError e /\
               Outcome.metadata o = metadata ev /\
               (Outcome.status_code o = None \/
                Outcome.status_code o = Some VUndefined)).
  { intros error elapsed. unfold catchOutcomes.
    rewrite nth_error_map, Hj. simpl. rewrite He.
    eexists. split; [reflexivity|]. simpl. auto. }
  unfold finishPartition.
  destruct result as [e0|response]; [apply Hcatch|].
  destruct (negb (Response.ok response)); [apply Hcatch|].
  destruct (Response.json response) as [e0|responseData]; [apply Hcatch|].
  destruct (mapResponses responseData (end_try clock - start clock) events 0)
    as [outs|e0] eqn:E; [|apply Hcatch].
  rewrite (mapResponses_failed _ _ _ _ _ E j ev e Hj He).
  eexists. split; [reflexivity|]. simpl. auto.
Qed.

Section ReportFacts.
Context {P : Platform}.

(** X8: for a partition whose URL is well formed the handler calls the
    response callback exactly once, however the request settles, with exactly
    one outcome per event of the partition; and an event whose serialization
    threw gets that exception as the error of its outcome, its own metadata,
    and no status code. *)
Theorem one_outcome_per_event (this : Transmission) (batch : Batch.t)
    (url : string) (clock : Clock) (result : FetchResult) :
  URL_href ("/1/batch/" ++ Batch.dataset batch) (Batch.apiHost batch)
    = Normal url ->
  exists outs,
    responses (fst (sendPartition this batch clock result))
      = responses this ++ [outs] /\
    snd (sendPartition this batch clock result) = false /\
    List.length outs = List.length (Batch.events batch) /\
    forall j ev e,
      nth_error (Batch.events batch) j = Some ev ->
      JSON_stringify (VObject (toJSON ev)) = Throw e ->
      exists o,
        nth_error outs j = Some o /\
        Outcome.error o = VError e /\
        Outcome.metadata o = metadata ev /\
        (Outcome.status_code o = None \/
         Outcome.status_code o = Some VUndefined).
Proof.
  intros Hurl. unfold sendPartition, startPartition.
  rewrite Hurl, encodeBatchEvents_spec.
  assert (Hnth : forall j ev e,
             nth_error (Batch.events batch) j = Some ev ->
             JSON_stringify (VObject (toJSON ev)) = Throw e ->
             nth_error (map afterEncode (Batch.events batch)) j
               = Some (afterEncode ev) /\
             encodeError (afterEncode ev) = Some e).
  { intros j ev e Hj Hs. rewrite nth_error_map, Hj. split; [reflexivity|].
    now apply afterEncode_encodeError_failed. }
  destruct (_ =? 0); simpl.
  - eexists. split; [reflexivity|]. split; [reflexivity|].
    split; [now rewrite !length_map|].
    intros j ev e Hj Hs. destruct (Hnth j ev e Hj Hs) as [Hn He].
    rewrite nth_error_map, Hn. simpl.
    eexists. split; [reflexivity|]. simpl.
    unfold encodeError_value. rewrite He, afterEncode_metadata. auto.
  - eexists. split; [reflexivity|]. split; [reflexivity|].
    split; [now rewrite finishPartition_length, length_map|].
    intros j ev e Hj Hs. destruct (Hnth j ev e Hj Hs) as [Hn He].
    destruct (finishPartition_failed _ clock result j _ e Hn He)
      as (o & Ho & Herr & Hmd & Hst).
    exists o. rewrite afterEncode_metadata in Hmd. auto.
Qed.

End ReportFacts.

Lemma one_outcome_per_event_witness :
  exists outs,
    responses
      (fst (@sendPartition sample_platform (constructor Options.empty)
              (Batch.mk "http://localhost:9999" "123456789" "test-transmission"
                        [ev1; ev_bad; ev2])
              (mkClock 0 1 2)
              (FetchResolve (Response.mk true (Some 200)
                               (JsonResolve (VString "not an array"))))))
    = [outs] /\
    List.length outs = 3%nat.
Proof.
  destruct (@one_outcome_per_event sample_platform (constructor Options.empty)
              (Batch.mk "http://localhost:9999" "123456789" "test-transmission"
                        [ev1; ev_bad; ev2])
              _ (mkClock 0 1 2)
              (FetchResolve (Response.mk true (Some 200)
                               (JsonResolve (VString "not an array"))))
              eq_refl) as (outs & E & _ & Hlen & _).
  exists outs. split; [exact E | exact Hlen].
Defined.

Section ShortResponse.
Context {P : Platform}.

(** With fewer response elements than serialized events the walk of the
    success path throws when it reads past the end of the array. *)
Lemma mapResponses_short (resp : list Value) (elapsed : Z) :
  forall suffix prefix : list ValidatedEvent,
    Forall (fun ev => encodeError ev = None) suffix ->
    Forall readable resp ->
    (List.length (filter encodes prefix) <= List.length resp)%nat ->
    (List.length resp < List.length (filter encodes (prefix ++ suffix)))%nat ->
    mapResponses (VArray resp) elapsed (map afterEncode suffix)
                 (List.length (filter encodes prefix))
    = Throw (propertyTypeError "status").
Proof.
  induction suffix as [|ev rest IH]; intros prefix Hfresh Hread Hle Hlt.
  - rewrite app_nil_r in Hlt. lia.
  - inversion Hfresh as [|? ? Hev Hrest]; subst.
    assert (Hsplit : prefix ++ ev :: rest = (prefix ++ [ev]) ++ rest)
      by (now rewrite <- app_assoc).
    rewrite Hsplit in Hlt.
    specialize (IH (prefix ++ [ev]) Hrest Hread).
    rewrite filter_encodes_snoc, length_app in IH.
    simpl map. unfold afterEncode at 1.
    destruct (JSON_stringify (VObject (toJSON ev))) as [text|e] eqn:Hs.
    + assert (Henc : encodes ev = true) by (unfold encodes; now rewrite Hs).
      rewrite Henc in IH. simpl in IH.
      simpl. rewrite Hev. simpl.
      destruct (Nat.eq_dec (List.length (filter encodes prefix))
                           (List.length resp)) as [Heq|Hne].
      * rewrite nth_overflow by lia. reflexivity.
      * assert (Hr : readable (nth (List.length (filter encodes prefix)) resp
                                   VUndefined)).
        { rewrite Forall_forall in Hread. apply Hread. apply nth_In. lia. }
        rewrite !(getProp_readable _ _ Hr). simpl.
        rewrite Nat.add_1_r in IH. rewrite IH; [reflexivity | lia | exact Hlt].
    + assert (Henc : encodes ev = false) by (unfold encodes; now rewrite Hs).
      rewrite Henc in IH. simpl in IH.
      simpl. rewrite Nat.add_0_r in IH.
      rewrite IH; [reflexivity | lia | exact Hlt].
Qed.

(** X9: when the response is [ok] but its array has fewer elements than
    the request had events, no event gets a status from the response: the
    handler fails on reading past the end of the array, and every event that
    was in the body is reported with that TypeError, those whose response
    element was present included. *)
Theorem short_response_fails_the_batch (this : Transmission) (batch : Batch.t)
    (url : string) (clock : Clock) (status_ : option Z) (resp : list Value) :
  URL_href ("/1/batch/" ++ Batch.dataset batch) (Batch.apiHost batch)
    = Normal url ->
  Forall (fun ev => encodeError ev = None) (Batch.events batch) ->
  Forall readable resp ->
  (List.length resp < List.length (filter encodes (Batch.events batch)))%nat ->
  responses
    (fst (sendPartition this batch clock
            (FetchResolve (Response.mk true status_ (JsonResolve (VArray resp))))))
  = responses this
    ++ [map (fun ev =>
               match JSON_stringify (VObject (toJSON ev)) with
               | Normal _ =>
                   Outcome.mk (Some VUndefined)
                              (Some (end_catch clock - start clock))
                              (metadata ev)
                              (VError (propertyTypeError "status"))
               | Throw e =>
                   Outcome.mk (Some VUndefined)
                              (Some (end_catch clock - start clock))
                              (metadata ev) (VError e)
               end) (Batch.events batch)].
Proof.
  intros Hurl Hfresh Hread Hshort.
  unfold sendPartition, startPartition. rewrite Hurl, encodeBatchEvents_spec.
  destruct (Z.eqb_spec
              (Z.of_nat (List.length (filter encodes (Batch.events batch)))) 0)
    as [Hz|Hz]; [lia|].
  simpl. unfold finishPartition. simpl.
  pose proof (mapResponses_short resp (end_try clock - start clock)
                (Batch.events batch) [] Hfresh Hread) as Hthrow.
  simpl in Hthrow. rewrite Hthrow by lia.
  now rewrite catchOutcomes_afterEncode.
Qed.

End ShortResponse.

Lemma short_response_fails_the_batch_witness :
  let batch := Batch.mk "http://localhost:9999" "123456789" "test-transmission"
                        [ev1; ev2] in
  let resp := [VObject [("status"%string, VNumber 202)]] in
  Forall (fun ev => encodeError ev = None) (Batch.events batch) /\
  Forall readable resp /\
  (List.length resp
   < List.length (filter (@encodes sample_platform) (Batch.events batch)))%nat /\
  map Outcome.error
    (List.concat
       (responses
          (fst (@sendPartition sample_platform (constructor Options.empty) batch
                  (mkClock 0 1 2)
                  (FetchResolve (Response.mk true (Some 200)
                                   (JsonResolve (VArray resp))))))))
  = [VError (propertyTypeError "status"); VError (propertyTypeError "status")].
Proof.
  cbv zeta.
  assert (Hf : Forall (fun ev => encodeError ev = None) [ev1; ev2])
    by (repeat constructor).
  assert (Hr : Forall readable [VObject [("status"%string, VNumber 202)]])
    by (repeat constructor; discriminate).
  split; [exact Hf|]. split; [exact Hr|]. split; [simpl; lia|].
  rewrite (@short_response_fails_the_batch sample_platform
             (constructor Options.empty)
             (Batch.mk "http://localhost:9999" "123456789" "test-transmission"
                       [ev1; ev2])
             _ (mkClock 0 1 2) (Some 200)
             [VObject [("status"%string, VNumber 202)]]
             eq_refl Hf Hr ltac:(simpl; lia)).
  reflexivity.
Defined.

(* ------------------------------------------------------------------ *)
(** ** A malformed URL, and a timer that fires in vain *)

Lemma nth_error_replace_nth {A : Type} (k : nat) (x y : A) (l : list A) :
  nth_error l k = Some y -> nth_error (replace_nth k x l) k = Some x.
Proof.
  revert k. induction l as [|z l IH]; intros [|k]; simpl; try discriminate; auto.
Qed.

(** X10: when the URL of a partition is malformed its handler throws
    before encoding anything: the error goes to the console, neither a request
    nor a call of the response callback is made, and the partitions that were
    to follow in the same cut are abandoned with it, so the events of all of
    them get no outcome; the batch can still reach [finishBatch]. *)
Theorem malformed_url_drops_the_cut {P : Platform} (this : Transmission)
    (k : nat) (batch : Batch.t) (rest : list Batch.t) (clock : Clock)
    (result : FetchResult) (e : JsError) :
  nth_error (running this) k = Some (batch :: rest) ->
  URL_href ("/1/batch/" ++ Batch.dataset batch) (Batch.apiHost batch)
    = Throw e ->
  exists this',
    step this (PartitionSettles k clock result) = Some this' /\
    responses this' = responses this /\
    fetches this' = fetches this /\
    console this' = console this ++ [e] /\
    nth_error (running this') k = Some [] /\
    (accounted this' + held (batch :: rest) = accounted this)%nat /\
    step this' (BatchSettles k)
      = Some (finishBatch (set_running this' (remove_nth k (running this')))).
Proof.
  intros Hk Hurl. simpl. rewrite Hk.
  unfold sendPartition, startPartition. rewrite Hurl. simpl.
  eexists. split; [reflexivity|]. simpl.
  pose proof (nth_error_replace_nth k [] _ _ Hk) as Hk'.
  repeat split; try exact Hk'.
  - pose proof (flight_replace_nth k (batch :: rest) [] (running this) Hk) as Hf.
    unfold accounted, in_flight_events, outcomes. simpl.
    unfold held in *. simpl in *. lia.
  - rewrite Hk'. reflexivity.
Qed.

Lemma malformed_url_drops_the_cut_witness :
  let cut :=
    sendPresampledEvent
      (sendPresampledEvent
         (constructor (Options.mk (Some 2%float) None None None None None))
         ev_no_url) ev1 in
  exists batch rest this',
    nth_error (running cut) 0 = Some (batch :: rest) /\
    @URL_href strict_platform ("/1/batch/" ++ Batch.dataset batch)
       (Batch.apiHost batch)
      = Throw (mkError "TypeError" "Invalid URL" None false) /\
    @step strict_platform cut
       (PartitionSettles 0 (mkClock 0 0 0) (FetchReject (newError "unused")))
      = Some this' /\
    held (batch :: rest) = 2%nat /\
    responses this' = [] /\
    nth_error (running this') 0 = Some [].
Proof.
  cbv zeta. eexists. eexists.
  assert (Hk : nth_error
                 (running
                    (sendPresampledEvent
                       (sendPresampledEvent
                          (constructor
                             (Options.mk (Some 2%float) None None None None None))
                          ev_no_url) ev1)) 0 = Some (_ :: _)) by reflexivity.
  destruct (@malformed_url_drops_the_cut strict_platform _ _ _ _
              (mkClock 0 0 0) (FetchReject (newError "unused")) _ Hk eq_refl)
    as (this' & Hstep & Hresp & _ & _ & Hrun & _).
  exists this'. split; [exact Hk|]. split; [reflexivity|].
  split; [exact Hstep|]. split; [reflexivity|].
  split; [exact Hresp | exact Hrun].
Defined.



(* ------------------------------------------------------------------ *)
(** ** The response queue over time *)

Lemma firstn_firstn_app {A : Type} (n : nat) (l s : list A) :
  firstn n (firstn n l ++ s) = firstn n (l ++ s).
Proof.
  destruct (Nat.le_gt_cases n (List.length l)) as [Hle|Hgt].
  - rewrite !firstn_app, firstn_firstn, Nat.min_id, length_firstn.
    replace (n - Nat.min n (List.length l))%nat with 0%nat by lia.
    replace (n - List.length l)%nat with 0%nat by lia.
    reflexivity.
  - now rewrite (firstn_all2 l) by lia.
Qed.

Lemma responseQueue_fold {A : Type} (L : Z) (batches : list (list A)) :
  0 <= L ->
  forall this : Libhoney.t A,
    Libhoney.maxResponseQueueSize this = L ->
    Z.of_nat (List.length (Libhoney._responseQueue this)) <= L ->
    Libhoney._responseQueue (fold_left Libhoney._responseCallback batches this)
    = firstn (Z.to_nat L) (Libhoney._responseQueue this ++ List.concat batches).
Proof.
  intros HL. induction batches as [|b batches IH]; intros this Hlim Hlen; simpl.
  - rewrite app_nil_r, firstn_all2; [reflexivity | lia].
  - rewrite IH; simpl; rewrite ?Hlim.
    + rewrite concatWithMaxLimit_firstn by exact HL.
      now rewrite firstn_firstn_app, <- app_assoc.
    + reflexivity.
    + rewrite concatWithMaxLimit_length by exact HL. lia.
Qed.

(** X12: adding responses in two calls is adding them in one, and so
    the response queue of a Libhoney instance that nobody drains is the first
    [maxResponseQueueSize] responses it was ever given: once it is full every
    later response is dropped. *)
Theorem response_queue_keeps_the_oldest {A : Type} (L : Z)
    (q r s : list A) (batches : list (list A)) :
  0 <= L ->
  concatWithMaxLimit (concatWithMaxLimit q r L) s L
  = concatWithMaxLimit q (r ++ s) L /\
  Libhoney._responseQueue
    (fold_left Libhoney._responseCallback batches (Libhoney.init L))
  = firstn (Z.to_nat L) (List.concat batches) /\
  (Z.of_nat (List.length q) >= L ->
   concatWithMaxLimit q r L = firstn (Z.to_nat L) q).
Proof.
  intros HL. split; [|split].
  - rewrite !concatWithMaxLimit_firstn by exact HL.
    now rewrite firstn_firstn_app, app_assoc.
  - rewrite (responseQueue_fold L batches HL (Libhoney.init L) eq_refl);
      [reflexivity | simpl; lia].
  - intros Hfull. rewrite concatWithMaxLimit_firstn by exact HL.
    rewrite firstn_app.
    replace (Z.to_nat L - List.length q)%nat with 0%nat by lia.
    simpl. apply app_nil_r.
Qed.

Lemma response_queue_keeps_the_oldest_witness :
  0 <= 3 /\
  Libhoney._responseQueue
    (fold_left Libhoney._responseCallback [[1; 2]; [3; 4]; [5]]
               (Libhoney.init 3))
  = [1; 2; 3].
Proof.
  split; [lia|].
  exact (proj1 (proj2 (response_queue_keeps_the_oldest 3 [] [] []
                         [[1; 2]; [3; 4]; [5]] ltac:(lia)))).
Defined.

(* ------------------------------------------------------------------ *)
(** ** validateEvent *)

Section ValidationFacts.
Context {P : Platform} {H : Host}.

Lemma validatedTimestamp_truthy (event : EventLike) (now : float) :
  truthy (validatedTimestamp event now) = true.
Proof.
  unfold validatedTimestamp.
  destruct (truthy (el_timestamp event)) eqn:E; [|reflexivity].
  destruct (el_timestamp event); simpl in *; try reflexivity; assumption.
Qed.


Lemma validateEvent_Valid_inv (_usable : bool) (event : EventLike) (now : float)
    (ev : ValidatedEvent) :
  validateEvent _usable event now = Valid ev ->
  _usable = true /\
  typeof (el_data event) = TyObject /\ el_data event <> VNull /\
  exists postData apiHost_ writeKey_ dataset_ sampleRate_,
    cloneData (el_data event) = Normal postData /\
    el_apiHost event = VString apiHost_ /\ apiHost_ <> ""%string /\
    el_writeKey event = VString writeKey_ /\ writeKey_ <> ""%string /\
    el_dataset event = VString dataset_ /\
    (dataset_ = ""%string -> String.length writeKey_ <> 32%nat) /\
    el_sampleRate event = VNumber sampleRate_ /\
    ev = mkEvent (validatedTimestamp event now) apiHost_ postData writeKey_
                 (if String.eqb dataset_ "" then "unknown_dataset"%string
                  else dataset_)
                 (Some sampleRate_) (el_metadata event) None.
Proof.
  unfold validateEvent. fold (validatedTimestamp event now).
  destruct _usable; simpl; [|discriminate].
  intros Hv. split; [reflexivity|].
  assert (Hobj : typeof (el_data event) = TyObject /\ el_data event <> VNull).
  { destruct (el_data event); simpl in Hv; try discriminate; split;
      try reflexivity; discriminate. }
  split; [apply Hobj|]. split; [apply Hobj|].
  assert (Hbody :
            match cloneData (el_data event) with
            | Throw e =>
                Rejected (Some ("error cloning event data: "
                                  ++ errorToString e)%string)
            | Normal postData =>
                match el_apiHost event with
                | VString "" =>
                    Rejected (Some "apiHost must be a non-empty string"%string)
                | VString apiHost_ =>
                    match el_writeKey event with
                    | VString "" =>
                        Rejected
                          (Some "writeKey must be a non-empty string"%string)
                    | VString writeKey_ =>
                        match el_dataset event with
                        | VString dataset_ =>
                            if String.eqb dataset_ "" && isClassic writeKey_
                            then Rejected
                                   (Some "dataset must be a non-empty string"%string)
                            else
                              match el_sampleRate event with
                              | VNumber sampleRate_ =>
                                  Valid (mkEvent (validatedTimestamp event now)
                                           apiHost_ postData writeKey_
                                           (if String.eqb dataset_ ""
                                            then "unknown_dataset"%string
                                            else dataset_)
                                           (Some sampleRate_)
                                           (el_metadata event) None)
                              | _ =>
                                  Rejected
                                    (Some "sampleRate must be a number"%string)
                              end
                        | _ => Rejected (Some "dataset must be a string"%string)
                        end
                    | _ =>
                        Rejected
                          (Some "writeKey must be a non-empty string"%string)
                    end
                | _ => Rejected (Some "apiHost must be a non-empty string"%string)
                end
            end = Valid ev).
  { destruct (el_data event); simpl in Hv; try discriminate; exact Hv. }
  clear Hv.
  destruct (cloneData (el_data event)) as [postData|e]; [|discriminate].
  exists postData.
  destruct (el_apiHost event) as [| | | | |apiHost_| | | |]; try discriminate.
  destruct apiHost_ as [|c1 s1]; [discriminate|].
  exists (String c1 s1).
  destruct (el_writeKey event) as [| | | | |writeKey_| | | |]; try discriminate.
  destruct writeKey_ as [|c2 s2]; [discriminate|].
  exists (String c2 s2).
  destruct (el_dataset event) as [| | | | |dataset_| | | |]; try discriminate.
  exists dataset_.
  destruct (String.eqb dataset_ "" && isClassic (String c2 s2)) eqn:Hclassic;
    [discriminate|].
  destruct (el_sampleRate event) as [| | |sampleRate_| | | | | |];
    try discriminate.
  exists sampleRate_. injection Hbody as <-.
  repeat split; try reflexivity; try discriminate.
  intros ->. simpl in Hclassic. unfold isClassic in Hclassic.
  now apply Nat.eqb_neq in Hclassic.
Qed.

Lemma validateEvent_Valid_intro (event : EventLike) (now : float)
    (postData : Value) (apiHost_ writeKey_ dataset_ : string)
    (sampleRate_ : float) :
  typeof (el_data event) = TyObject -> el_data event <> VNull ->
  cloneData (el_data event) = Normal postData ->
  el_apiHost event = VString apiHost_ -> apiHost_ <> ""%string ->
  el_writeKey event = VString writeKey_ -> writeKey_ <> ""%string ->
  el_dataset event = VString dataset_ ->
  (dataset_ = ""%string -> String.length writeKey_ <> 32%nat) ->
  el_sampleRate event = VNumber sampleRate_ ->
  validateEvent true event now
  = Valid (mkEvent (validatedTimestamp event now) apiHost_ postData writeKey_
                   (if String.eqb dataset_ "" then "unknown_dataset"%string
                    else dataset_)
                   (Some sampleRate_) (el_metadata event) None).
Proof.
  intros Hty Hnn Hclone Ha Hane Hw Hwne Hd Hclassic Hs.
  unfold validateEvent. fold (validatedTimestamp event now). simpl.
  assert (Hgo : forall body : Validation,
             match typeof (el_data event), el_data event with
             | TyObject, VNull => Rejected (Some "data must be an object"%string)
             | TyObject, _ => body
             | _, _ => Rejected (Some "data must be an object"%string)
             end = body).
  { intros body. destruct (el_data event); simpl in *;
      try discriminate; try reflexivity. contradiction. }
  destruct (el_data event) eqn:Ed; simpl in Hty; try discriminate;
    try contradiction; simpl; rewrite Hclone, Ha, Hw, Hd, Hs;
    destruct apiHost_ as [|c1 s1]; try contradiction;
    destruct writeKey_ as [|c2 s2]; try contradiction;
    (destruct (String.eqb_spec dataset_ "") as [->|Hne];
     [ simpl; unfold isClassic;
       destruct (Nat.eqb_spec (String.length (String c2 s2)) 32) as [E|E];
       [exfalso; now apply Hclassic | reflexivity]
     | reflexivity ]).
Qed.

(** X13: [validateEvent] accepts an event exactly when the instance is
    usable, [data] is an object that survives the JSON round trip, [apiHost]
    and [writeKey] are non-empty strings, [dataset] is a string that is not
    empty when the write key has 32 characters, and [sampleRate] is a number;
    the validated event then carries the cloned data, the given strings, the
    dataset [unknown_dataset] in place of an empty one, the sample rate, the
    metadata, and no encode error. *)
Theorem validateEvent_accepts_exactly (_usable : bool) (event : EventLike)
    (now : float) (ev : ValidatedEvent) :
  validateEvent _usable event now = Valid ev <->
  _usable = true /\
  typeof (el_data event) = TyObject /\ el_data event <> VNull /\
  exists postData apiHost_ writeKey_ dataset_ sampleRate_,
    cloneData (el_data event) = Normal postData /\
    el_apiHost event = VString apiHost_ /\ apiHost_ <> ""%string /\
    el_writeKey event = VString writeKey_ /\ writeKey_ <> ""%string /\
    el_dataset event = VString dataset_ /\
    (dataset_ = ""%string -> String.length writeKey_ <> 32%nat) /\
    el_sampleRate event = VNumber sampleRate_ /\
    ev = mkEvent (validatedTimestamp event now) apiHost_ postData writeKey_
                 (if String.eqb dataset_ "" then "unknown_dataset"%string
                  else dataset_)
                 (Some sampleRate_) (el_metadata event) None.
Proof.
  split; [apply validateEvent_Valid_inv|].
  intros (-> & Hty & Hnn & postData & a & w & d & s & Hc & Ha & Hane & Hw
          & Hwne & Hd & Hcl & Hs & ->).
  now apply validateEvent_Valid_intro.
Qed.

(** X14: an event [validateEvent] has accepted has a non-empty host,
    write key and dataset, a number for its sample rate, no encode error, the
    metadata it was given, and a timestamp that is truthy, so that its JSON
    form has the key [time]. *)
Theorem validated_event_well_formed (_usable : bool) (event : EventLike)
    (now : float) (ev : ValidatedEvent) :
  validateEvent _usable event now = Valid ev ->
  apiHost ev <> ""%string /\
  writeKey ev <> ""%string /\
  dataset ev <> ""%string /\
  (exists rate, sampleRate ev = Some rate) /\
  encodeError ev = None /\
  metadata ev = el_metadata event /\
  truthy (timestamp ev) = true /\
  lookup "time" (toJSON ev) = Some (timestamp ev).
Proof.
  intros Hv. apply validateEvent_Valid_inv in Hv
    as (_ & _ & _ & postData & a & w & d & s & _ & _ & Hane & _ & Hwne & _
        & _ & _ & ->).
  simpl. repeat split; try assumption.
  - destruct (String.eqb_spec d ""); [discriminate | assumption].
  - now exists s.
  - apply validatedTimestamp_truthy.
  - unfold toJSON. simpl. rewrite validatedTimestamp_truthy.
    destruct (truthy_number s), (truthy postData); reflexivity.
Qed.

End ValidationFacts.

Lemma validated_event_well_formed_witness :
  exists ev,
    @validateEvent sample_platform sample_host true (sample_eventLike "events")
       1700000000000%float = Valid ev /\
    dataset ev = "events"%string /\
    lookup "time" (toJSON ev) = Some (VDate 0).
Proof.
  eexists.
  assert (Hv : @validateEvent sample_platform sample_host true
                 (sample_eventLike "events") 1700000000000%float = Valid _)
    by reflexivity.
  split; [exact Hv|]. split; [reflexivity|].
  destruct (@validated_event_well_formed sample_platform sample_host _ _ _ _ Hv)
    as (_ & _ & _ & _ & _ & _ & _ & Ht).
  exact Ht.
Defined.

Lemma validateEvent_accepts_exactly_witness :
  @validateEvent sample_platform sample_host true
     (mkEventLike VUndefined good_data (VString "http://localhost:9999")
                  (VString "short-key") (VString "") (VNumber 1) VNull)
     0%float
  = Valid (mkEvent (VDate 0) "http://localhost:9999" (VObject []) "short-key"
                   "unknown_dataset" (Some 1%float) VNull None).
Proof.
  apply (@validateEvent_accepts_exactly sample_platform sample_host).
  split; [reflexivity|]. split; [reflexivity|]. split; [discriminate|].
  exists (VObject []), "http://localhost:9999"%string, "short-key"%string,
         ""%string, 1%float.
  repeat split; try reflexivity; try discriminate.
Defined.

(** A write key of 32 characters with an empty dataset is turned down. *)
Example classic_key_needs_a_dataset :
  @validateEvent sample_platform sample_host true (sample_eventLike "")
     0%float
  = Rejected (Some "dataset must be a non-empty string"%string).
Proof. reflexivity. Qed.

(* ------------------------------------------------------------------ *)
(** ** Events and builders *)

Lemma lookup_setProp (k k' : string) (v : Value) (o : list (string * Value)) :
  lookup k' (setProp k v o)
  = if String.eqb k' k then Some v else lookup k' o.
Proof.
  induction o as [|[k0 v0] o IH]; simpl.
  - reflexivity.
  - destruct (String.eqb_spec k k0) as [->|Hne]; simpl.
    + now destruct (String.eqb k' k0).
    + destruct (String.eqb_spec k' k0) as [->|Hne'].
      * destruct (String.eqb_spec k0 k) as [->|]; [contradiction | reflexivity].
      * exact IH.
Qed.

Lemma lookup_setDyn {W : Type} (k k' : string) (fn : W -> Value)
    (o : list (string * (W -> Value))) :
  lookup k' (setDyn k fn o)
  = if String.eqb k' k then Some fn else lookup k' o.
Proof.
  induction o as [|[k0 v0] o IH]; simpl.
  - reflexivity.
  - destruct (String.eqb_spec k k0) as [->|Hne]; simpl.
    + now destruct (String.eqb k' k0).
    + destruct (String.eqb_spec k' k0) as [->|Hne'].
      * destruct (String.eqb_spec k0 k) as [->|]; [contradiction | reflexivity].
      * exact IH.
Qed.

Lemma Event_addField_data (ev : Event.t) (name : string) (val : Value) :
  Event.data (Event.addField ev name val)
  = setProp name (stored val) (Event.data ev).
Proof. now destruct val. Qed.

Lemma Event_addField_frame (ev : Event.t) (name : string) (val : Value) :
  Event.metadata (Event.addField ev name val) = Event.metadata ev /\
  Event.apiHost (Event.addField ev name val) = Event.apiHost ev /\
  Event.writeKey (Event.addField ev name val) = Event.writeKey ev /\
  Event.dataset (Event.addField ev name val) = Event.dataset ev /\
  Event.sampleRate (Event.addField ev name val) = Event.sampleRate ev /\
  Event.timestamp (Event.addField ev name val) = Event.timestamp ev.
Proof. destruct val; repeat split. Qed.

(** The fields of an event after a run of [addField] calls, the values
    being computed from the pairs by [g]. *)
Lemma lookup_fold_addField {A : Type} (g : A -> Value)
    (pairs : list (string * A)) :
  forall (ev : Event.t) (k : string),
    lookup k (Event.data
                (fold_left (fun this '(name, v) => Event.addField this name (g v))
                           pairs ev))
    = match lastValue k pairs with
      | Some v => Some (stored (g v))
      | None => lookup k (Event.data ev)
      end.
Proof.
  unfold lastValue.
  induction pairs as [|[name v] pairs IH] using rev_ind; intros ev k.
  - reflexivity.
  - rewrite fold_left_app, rev_app_distr. simpl.
    rewrite Event_addField_data, lookup_setProp.
    destruct (String.eqb k name); [reflexivity | apply IH].
Qed.

Lemma fold_addField_frame {A : Type} (g : A -> Value)
    (pairs : list (string * A)) :
  forall ev : Event.t,
    Event.metadata
      (fold_left (fun this '(name, v) => Event.addField this name (g v)) pairs ev)
    = Event.metadata ev /\
    Event.timestamp
      (fold_left (fun this '(name, v) => Event.addField this name (g v)) pairs ev)
    = Event.timestamp ev.
Proof.
  induction pairs as [|[name v] pairs IH]; intros ev; simpl; [now split|].
  destruct (IH (Event.addField ev name (g v))) as [-> ->].
  destruct (Event_addField_frame ev name (g v)) as (-> & _ & _ & _ & _ & ->).
  now split.
Qed.

(** X15: after [event.add(data)] a field named in [data] holds the
    value [data] gives it, [null] standing for [undefined], and every other
    field holds what it held; the metadata, destination, sample rate and
    timestamp of the event are untouched, and adding nothing (a falsy
    argument) changes nothing. *)
Theorem Event_add_sets_fields (ev : Event.t) (data_ : Collection Value)
    (k : string) :
  lookup k (Event.data (Event.add ev data_))
  = match lastValue k (entriesOf data_) with
    | Some v => Some (stored v)
    | None => lookup k (Event.data ev)
    end /\
  Event.metadata (Event.add ev data_) = Event.metadata ev /\
  Event.timestamp (Event.add ev data_) = Event.timestamp ev /\
  Event.add ev NoCollection = ev.
Proof.
  unfold Event.add, foreach.
  split; [|split; [|split; [|reflexivity]]].
  - destruct data_ as [|props|entries]; simpl; [reflexivity| |];
      apply (lookup_fold_addField (fun v => v)).
  - destruct data_ as [|props|entries]; simpl; [reflexivity| |];
      apply (fold_addField_frame (fun v => v)).
  - destruct data_ as [|props|entries]; simpl; [reflexivity| |];
      apply (fold_addField_frame (fun v => v)).
Qed.

Section BuilderFacts.
Variable W : Type.

Lemma newEventFrom_lookup (fields : list (string * Value))
    (dynFields : list (string * (W -> Value))) (w : W) (k : string) :
  lookup k (Event.data (newEventFrom (OfObject fields) (OfObject dynFields) w))
  = match lastValue k dynFields with
    | Some fn => Some (stored (fn w))
    | None =>
        match lastValue k fields with
        | Some v => Some (stored v)
        | None => None
        end
    end.
Proof.
  unfold newEventFrom, foreach.
  rewrite (lookup_fold_addField (fun fn : W -> Value => fn w)).
  destruct (lastValue k dynFields); [reflexivity|].
  now rewrite (lookup_fold_addField (fun v : Value => v)).
Qed.

(** X16: an event made by [builder.newEvent()] has, under each name,
    the value the builder's dynamic field function of that name returns when
    the event is made, or else the builder's static field of that name, with
    [null] for [undefined], and no other field; it has the builder's host,
    write key, dataset and sample rate, and no metadata or timestamp yet. *)
Theorem Builder_newEvent_fields (b : Builder W) (w : W) (k : string) :
  lookup k (Event.data (Builder_newEvent b w))
  = match lastValue k (_dynFields b) with
    | Some fn => Some (stored (fn w))
    | None =>
        match lastValue k (_fields b) with
        | Some v => Some (stored v)
        | None => None
        end
    end /\
  Event.apiHost (Builder_newEvent b w) = b_apiHost b /\
  Event.writeKey (Builder_newEvent b w) = b_writeKey b /\
  Event.dataset (Builder_newEvent b w) = b_dataset b /\
  Event.sampleRate (Builder_newEvent b w) = b_sampleRate b /\
  Event.metadata (Builder_newEvent b w) = VNull /\
  Event.timestamp (Builder_newEvent b w) = VNull.
Proof.
  split; [apply newEventFrom_lookup|].
  unfold Builder_newEvent. simpl. repeat split.
  - unfold newEventFrom, foreach.
    destruct (fold_addField_frame (fun fn : W -> Value => fn w) (_dynFields b)
                (fold_left (fun this '(k0, v) => Event.addField this k0 v)
                           (_fields b)
                           (Event.mk [] VNull (VString "") (VString "")
                                     (VString "") (VNumber 1) VNull)))
      as [-> _].
    now destruct (fold_addField_frame (fun v : Value => v) (_fields b)
                    (Event.mk [] VNull (VString "") (VString "") (VString "")
                              (VNumber 1) VNull)) as [-> _].
  - unfold newEventFrom, foreach.
    destruct (fold_addField_frame (fun fn : W -> Value => fn w) (_dynFields b)
                (fold_left (fun this '(k0, v) => Event.addField this k0 v)
                           (_fields b)
                           (Event.mk [] VNull (VString "") (VString "")
                                     (VString "") (VNumber 1) VNull)))
      as [_ ->].
    now destruct (fold_addField_frame (fun v : Value => v) (_fields b)
                    (Event.mk [] VNull (VString "") (VString "") (VString "")
                              (VNumber 1) VNull)) as [_ ->].
Qed.

End BuilderFacts.

(** A builder with a static and a dynamic field of one name: the event
    gets the dynamic value of the moment. *)
Example dynamic_field_overrides_static :
  let b := Builder_addDynamicField
             (Builder_addField
                (Builder_addField (newBuilderFrom NoCollection NoCollection)
                                  "depth" (VNumber 1))
                "component" VUndefined)
             "depth" (fun heap : float => VNumber heap) in
  Event.data (Builder_newEvent b 7%float)
  = [("depth"%string, VNumber 7); ("component"%string, VNull)].
Proof. reflexivity. Qed.

(* ------------------------------------------------------------------ *)
(** ** The Libhoney instance and its transmission *)

(** X17: [Libhoney.flush()] on an instance whose transmission is the
    mock, the null, the console, the stdout or the writer one throws a
    TypeError, for these classes have no [flush]; by then the instance has
    already replaced its transmission by a new one, so a mock has lost the
    events it had recorded. *)
Theorem flush_throws_without_flush_method (this : Honey.t)
    (old : AnyTransmission) (fresh : option AnyTransmission) :
  Honey._transmission this = Some old ->
  lacks_flush old ->
  snd (getAndInitTransmission (LibOptions.transmission (Honey._options this))
                              (Honey._options this)) = Normal fresh ->
  snd (Libhoney_flush this) = Throws (notAFunction "transmission.flush") /\
  Honey._transmission (fst (Libhoney_flush this)) = fresh /\
  Honey.detached (fst (Libhoney_flush this)) = Honey.detached this ++ [old] /\
  (LibOptions.disabled (Honey._options this) = false ->
   LibOptions.transmission (Honey._options this) = ByName "mock" ->
   fresh = Some (AMock (MockTransmission.mk (Some (Honey._options this)) []))).
Proof.
  intros Ht Hl Hfresh. unfold Libhoney_flush. rewrite Ht, Hfresh.
  split; [|split; [|split]].
  - destruct old; simpl in Hl; try contradiction; reflexivity.
  - destruct old; simpl in Hl; try contradiction; reflexivity.
  - destruct old; simpl in Hl; try contradiction; reflexivity.
  - intros Hen Hname. unfold getAndInitTransmission in Hfresh.
    rewrite Hen, Hname in Hfresh. simpl in Hfresh. now injection Hfresh as <-.
Qed.

Lemma flush_throws_without_flush_method_witness :
  let opts := LibOptions.mk (ByName "mock") false Options.empty in
  let used :=
    Honey.mk opts (Some (AMock (MockTransmission.mk (Some opts) [ev1; ev2])))
             true [] in
  newLibhoney opts
    = Normal (Honey.mk opts (Some (AMock (MockTransmission.mk (Some opts) [])))
                       true []) /\
  snd (Libhoney_flush used) = Throws (notAFunction "transmission.flush") /\
  Honey._transmission (fst (Libhoney_flush used))
    = Some (AMock (MockTransmission.mk (Some opts) [])).
Proof.
  cbv zeta. split; [reflexivity|].
  destruct (flush_throws_without_flush_method
              (Honey.mk (LibOptions.mk (ByName "mock") false Options.empty)
                 (Some (AMock (MockTransmission.mk
                                 (Some (LibOptions.mk (ByName "mock") false
                                                      Options.empty))
                                 [ev1; ev2])))
                 true [])
              _ _ eq_refl I eq_refl) as (Hthrow & Hfresh & _).
  split; [exact Hthrow | exact Hfresh].
Defined.

(** X18: [Libhoney.flush()] on an instance with the base transmission
    returns the promise of that transmission's own [flush], completed at
    once exactly when its queue is empty and nothing is in flight, and
    replaces it by a newly constructed transmission: the one detached keeps
    its queue and its batches, and the new one starts empty. *)
Theorem flush_detaches_the_base_transmission (this : Honey.t)
    (t : Transmission) (className : string) :
  Honey._transmission this = Some (ABase t) ->
  LibOptions.disabled (Honey._options this) = false ->
  LibOptions.transmission (Honey._options this) = ByName className ->
  className = "base"%string \/ className = "worker"%string ->
  snd (Libhoney_flush this) = Returns (fst (flush t)) /\
  (fst (flush t) = Settled <-> _eventQueue t = [] /\ _batchCount t = 0) /\
  Honey._transmission (fst (Libhoney_flush this))
    = Some (ABase (constructor (LibOptions.base (Honey._options this)))) /\
  Honey.detached (fst (Libhoney_flush this))
    = Honey.detached this ++ [ABase (snd (flush t))] /\
  _eventQueue (snd (flush t)) = _eventQueue t /\
  running (snd (flush t)) = running t.
Proof.
  intros Ht Hen Hname Hclass. unfold Libhoney_flush.
  rewrite Ht. unfold getAndInitTransmission. rewrite Hen, Hname.
  assert (Hcls : getTransmissionClass className
                 = ([], Normal ClassTransmission)
                   \/ exists warned,
                        getTransmissionClass className
                        = (warned, Normal ClassTransmission)).
  { destruct Hclass as [-> | ->]; [left | right; eexists]; reflexivity. }
  assert (Hq : _eventQueue (snd (flush t)) = _eventQueue t
               /\ running (snd (flush t)) = running t)
    by (unfold flush; destruct (_ && _); split; reflexivity).
  destruct Hcls as [-> | [warned ->]]; simpl;
    (split; [reflexivity|]); (split; [apply flush_settled_iff|]);
    (split; [reflexivity|]); (split; [reflexivity|]); exact Hq.
Qed.

Lemma flush_detaches_the_base_transmission_witness :
  let opts := LibOptions.mk (ByName "base") false Options.empty in
  let busy := sendPresampledEvent (constructor Options.empty) ev1 in
  let this := Honey.mk opts (Some (ABase busy)) true [] in
  snd (Libhoney_flush this) = Returns (Pending 0) /\
  Honey._transmission (fst (Libhoney_flush this))
    = Some (ABase (constructor Options.empty)).
Proof.
  cbv zeta.
  destruct (flush_detaches_the_base_transmission
              (Honey.mk (LibOptions.mk (ByName "base") false Options.empty)
                 (Some (ABase (sendPresampledEvent (constructor Options.empty)
                                                   ev1)))
                 true [])
              _ "base" eq_refl eq_refl eq_refl (or_introl eq_refl))
    as (Hret & _ & Hfresh & _).
  split; [exact Hret | exact Hfresh].
Defined.

Section DisabledFacts.
Context {P : Platform} {H : Host}.

(** X19: with [disabled: true] the constructor accepts any value for
    [transmission], makes no transmission and marks the instance unusable;
    such an instance turns every event down without writing to the console,
    [sendEvent] changes nothing, and [flush] returns a completed promise. *)
Theorem disabled_instance_is_inert (opts : LibOptions.t) (event : EventLike)
    (now random : float) :
  LibOptions.disabled opts = true ->
  newLibhoney opts = Normal (Honey.mk opts None false []) /\
  validateEvent false event now = Rejected None /\
  Libhoney_sendEvent (Honey.mk opts None false []) event now random
    = Some (Honey.mk opts None false []) /\
  Libhoney_flush (Honey.mk opts None false [])
    = (Honey.mk opts None false [], Returns Settled).
Proof.
  intros Hd. unfold newLibhoney, Libhoney_flush, Libhoney_sendEvent,
    getAndInitTransmission. simpl. rewrite Hd. simpl. repeat split.
Qed.

Lemma Libhoney_sendEvents_mock (events : list (EventLike * float)) :
  forall (opts : LibOptions.t) (m : MockTransmission.t) (d : list AnyTransmission),
    Libhoney_sendEvents (Honey.mk opts (Some (AMock m)) true d) events
    = Some (Honey.mk opts
              (Some (AMock (MockTransmission.mk
                              (MockTransmission.constructorArg m)
                              (MockTransmission.events m
                               ++ validatedOf true events))))
              true d).
Proof.
  unfold Libhoney_sendEvents, validatedOf.
  induction events as [|[event now] events IH]; intros opts m d; simpl.
  - rewrite app_nil_r. now destruct m.
  - unfold Libhoney_sendEvent at 2. simpl.
    destruct (validateEvent true event now) as [logged|ev]; simpl.
    + apply IH.
    + rewrite IH. simpl. now rewrite <- app_assoc.
Qed.

(** X20: an instance with the mock transmission records the events
    handed to [sendEvent] that validation accepts, as validated, in the order
    of the calls, whatever their sample rate; the events validation turns down
    leave no trace. *)
Theorem mock_records_valid_events (opts : LibOptions.t)
    (events : list (EventLike * float)) :
  LibOptions.disabled opts = false ->
  LibOptions.transmission opts = ByName "mock" ->
  exists this final,
    newLibhoney opts = Normal this /\
    Libhoney_sendEvents this events = Some final /\
    Honey._transmission final
      = Some (AMock (MockTransmission.mk (Some opts) (validatedOf true events))).
Proof.
  intros Hen Hname. unfold newLibhoney, getAndInitTransmission.
  rewrite Hen, Hname. simpl.
  eexists. eexists. split; [reflexivity|].
  unfold MockTransmission.constructor.
  rewrite Libhoney_sendEvents_mock. split; reflexivity.
Qed.

End DisabledFacts.

Lemma disabled_instance_is_inert_witness :
  let opts := LibOptions.mk (ByName "no such transmission") true Options.empty in
  LibOptions.disabled opts = true /\
  newLibhoney opts = Normal (Honey.mk opts None false []) /\
  newLibhoney (LibOptions.mk (ByName "no such transmission") false Options.empty)
    = Throw (newError
               ("unknown transmission implementation "
                  ++ String (ascii_of_nat 34) "no such transmission"
                  ++ String (ascii_of_nat 34) ".")%string).
Proof.
  cbv zeta. split; [reflexivity|].
  destruct (@disabled_instance_is_inert sample_platform sample_host
              (LibOptions.mk (ByName "no such transmission") true Options.empty)
              (sample_eventLike "events") 0%float 0%float eq_refl)
    as (Hnew & _).
  split; [exact Hnew | reflexivity].
Defined.

Lemma mock_records_valid_events_witness :
  let opts := LibOptions.mk (ByName "mock") false Options.empty in
  exists this final,
    newLibhoney opts = Normal this /\
    @Libhoney_sendEvents sample_platform sample_host this
       [(sample_eventLike "a", 0%float); (sample_eventLike "", 0%float);
        (sample_eventLike "b", 0%float)] = Some final /\
    option_map
      (fun t => match t with
                | AMock m => map dataset (MockTransmission.events m)
                | _ => []
                end) (Honey._transmission final)
    = Some ["a"%string; "b"%string].
Proof.
  cbv zeta.
  destruct (@mock_records_valid_events sample_platform sample_host
              (LibOptions.mk (ByName "mock") false Options.empty)
              [(sample_eventLike "a", 0%float); (sample_eventLike "", 0%float);
               (sample_eventLike "b", 0%float)] eq_refl eq_refl)
    as (this & final & Hnew & Hsend & Hrec).
  exists this, final. split; [exact Hnew|]. split; [exact Hsend|].
  rewrite Hrec. reflexivity.
Defined.
